(** * Non-maximum suppression of mmcv ([mmcv/ops/nms.py])

    A shallow embedding of the NMS family of [mmcv/ops/nms.py] and of the
    properties its specification states.

    Numbers.  The arrays hold floating-point numbers; they are idealised
    here as rationals ([Q]), so that sums, products and quotients are
    exact.  Indices are natural numbers, class ids and the integer
    arguments ([offset], [max_num], [split_thr]) are in [Z].  The
    properties of [batched_nms] use no law of the exact shift: none uses
    that moving two boxes by the offset of their class leaves their overlap
    as it was, which rounding can break; they speak of the rows of
    [boxes_for_nms] as the code computes them.  Where the code sorts, an
    order is stated up to the order of equal scores.

    Arrays.  A one-dimensional array is a list.  A two-dimensional array
    keeps its number of columns next to its rows ([tensor2]), because the
    code reads [size(1)] of arrays without rows.  The conversions between
    numpy arrays and tensors keep every value and are left out.

    Errors.  A Python exception is the [Raise] result of the [result]
    monad. *)

From Stdlib Require Import String.
From Stdlib Require Import List ZArith QArith Qminmax Bool Lia Lqa.
From Stdlib Require Import Permutation Sorted.
Import ListNotations.

Local Open Scope Q_scope.

(** ** Results and exceptions *)

Inductive exn : Type :=
| AssertionError
| TypeError
| IndexError
| KeyError
| RuntimeError
| NotImplementedError.

Inductive result (A : Type) : Type :=
| Ok (a : A)
| Raise (e : exn).

Arguments Ok {A} a.
Arguments Raise {A} e.

Definition bind {A B : Type} (c : result A) (k : A -> result B) : result B :=
  match c with
  | Ok a => k a
  | Raise e => Raise e
  end.

Notation "x <- c ;; k" := (bind c (fun x => k))
  (at level 61, c at next level, right associativity).
Notation "' p <- c ;; k" := (bind c (fun x => let p := x in k))
  (at level 61, p pattern, c at next level, right associativity).

(** [assert b] of Python. *)
Definition assert (b : bool) : result unit :=
  if b then Ok tt else Raise AssertionError.

(** A [for] loop whose body may raise. *)
Fixpoint for_each {A S : Type} (body : A -> S -> result S) (l : list A)
    (s : S) : result S :=
  match l with
  | [] => Ok s
  | a :: l' => s' <- body a s ;; for_each body l' s'
  end.

(** [d.pop(key, default)] and default arguments. *)
Definition default {A : Type} (d : A) (o : option A) : A :=
  match o with
  | Some a => a
  | None => d
  end.

(** ** The array operations the code uses *)

Module Torch.

(** [x < y] on numbers. *)
Definition Qlt_bool (x y : Q) : bool := negb (Qle_bool y x).

Record tensor2 : Type := T2 { ncol : nat; rows : list (list Q) }.

(** [t.size(0)]. *)
Definition size0 (t : tensor2) : nat := length (rows t).

(** Every row of an array has its number of columns. *)
Definition wf2 (t : tensor2) : Prop :=
  Forall (fun r => length r = ncol t) (rows t).

(** [l[inds]] with an index array: out of range is an [IndexError]. *)
Fixpoint index {A : Type} (l : list A) (inds : list nat) : result (list A) :=
  match inds with
  | [] => Ok []
  | i :: inds' =>
      match nth_error l i with
      | Some x => xs <- index l inds' ;; Ok (x :: xs)
      | None => Raise IndexError
      end
  end.

Definition index2 (t : tensor2) (inds : list nat) : result tensor2 :=
  rs <- index (rows t) inds ;; Ok (T2 (ncol t) rs).

(** The elements of [l] where the mask holds. *)
Fixpoint mask_select {A : Type} (l : list A) (m : list bool) : list A :=
  match l, m with
  | x :: l', b :: m' => if b then x :: mask_select l' m' else mask_select l' m'
  | _, _ => []
  end.

(** [l[mask]] with a boolean mask: the shapes must agree. *)
Definition index_mask {A : Type} (l : list A) (m : list bool)
  : result (list A) :=
  if Nat.eqb (length l) (length m) then Ok (mask_select l m)
  else Raise IndexError.

Definition index_mask2 (t : tensor2) (m : list bool) : result tensor2 :=
  rs <- index_mask (rows t) m ;; Ok (T2 (ncol t) rs).

(** [mask.nonzero()], flattened: the positions where the mask holds. *)
Fixpoint nonzero_from (k : nat) (m : list bool) : list nat :=
  match m with
  | [] => []
  | b :: m' => if b then k :: nonzero_from (S k) m' else nonzero_from (S k) m'
  end.

Definition nonzero (m : list bool) : list nat := nonzero_from 0 m.

(** [l[i] = v] for an index in range. *)
Fixpoint put {A : Type} (l : list A) (i : nat) (v : A) : list A :=
  match l, i with
  | [], _ => []
  | _ :: l', O => v :: l'
  | x :: l', S i' => x :: put l' i' v
  end.

(** [l[inds] = vs], element by element. *)
Fixpoint index_put {A : Type} (l : list A) (inds : list nat) (vs : list A)
  : list A :=
  match inds, vs with
  | i :: inds', v :: vs' => index_put (put l i v) inds' vs'
  | _, _ => l
  end.

(** The stable descending sort: [insert_desc key x l] puts [x] in front of
    the first element of [l] whose key is not larger. *)
Fixpoint insert_desc {A : Type} (key : A -> Q) (x : A) (l : list A)
  : list A :=
  match l with
  | [] => [x]
  | y :: l' =>
      if Qle_bool (key y) (key x) then x :: y :: l'
      else y :: insert_desc key x l'
  end.

Definition sort_desc_by {A : Type} (key : A -> Q) (l : list A) : list A :=
  fold_right (insert_desc key) [] l.

(** [a] may stand in front of [b] in a descending order. *)
Definition desc {A : Type} (key : A -> Q) (a b : A) : Prop := key b <= key a.

Definition get (s : list Q) (i : nat) : Q := nth i s 0.

(** The indices of [s.sort(descending=True)]; equal values keep their
    order. *)
Definition argsort_desc (s : list Q) : list nat :=
  sort_desc_by (get s) (seq 0 (length s)).

(** [s.sort(descending=True)]: the sorted values and their indices. *)
Definition sort_desc (s : list Q) : list Q * list nat :=
  let inds := argsort_desc s in (map (get s) inds, inds).

(** [torch.cat([t, s[:, None]], -1)]: one more column. *)
Fixpoint append_col (rs : list (list Q)) (s : list Q) : list (list Q) :=
  match rs, s with
  | r :: rs', x :: s' => (r ++ [x]) :: append_col rs' s'
  | _, _ => []
  end.

Definition cat_col (t : tensor2) (s : list Q) : result tensor2 :=
  if Nat.eqb (size0 t) (length s)
  then Ok (T2 (S (ncol t)) (append_col (rows t) s))
  else Raise RuntimeError.

(** [t[:, -1]]: the last column. *)
Definition last_col (t : tensor2) : list Q :=
  map (fun r => last r 0) (rows t).

(** [t[..., a:b]]: the columns from [a] up to [b]. *)
Definition cols (a b : nat) (t : tensor2) : tensor2 :=
  T2 (Nat.min b (ncol t) - a)
     (map (fun r => firstn (b - a) (skipn a r)) (rows t)).

(** [torch.cat([t, u], dim=-1)]. *)
Definition cat_cols (t u : tensor2) : result tensor2 :=
  if Nat.eqb (size0 t) (size0 u)
  then Ok (T2 (ncol t + ncol u)
              (map (fun p => fst p ++ snd p) (combine (rows t) (rows u))))
  else Raise RuntimeError.

(** [t.max()]: the largest entry; an array with no entry has none, and
    torch raises a [RuntimeError]. *)
Definition max_all (t : tensor2) : result Q :=
  match concat (rows t) with
  | [] => Raise RuntimeError
  | x :: xs => Ok (fold_left Qmax xs x)
  end.

(** [t + o[:, None]]: [o[i]] is added to every entry of row [i]. *)
Definition add_rows (t : tensor2) (o : list Q) : result tensor2 :=
  if Nat.eqb (size0 t) (length o)
  then Ok (T2 (ncol t)
              (map (fun p => map (fun x => x + snd p) (fst p))
                   (combine (rows t) o)))
  else Raise RuntimeError.

(** [torch.unique(idxs)]: the distinct values in ascending order. *)
Fixpoint insert_unique (z : Z) (l : list Z) : list Z :=
  match l with
  | [] => [z]
  | y :: l' =>
      if (z <? y)%Z then z :: y :: l'
      else if (z =? y)%Z then y :: l'
      else y :: insert_unique z l'
  end.

Definition unique (idxs : list Z) : list Z :=
  fold_right insert_unique [] idxs.

End Torch.

(** ** The kernels of [mmcv/ops/pure_pytorch_nms]

    The module [mmcv.ops.pure_pytorch_nms] is not among the sources.  Its
    functions are modelled from sections 4.1 to 4.6 of the specification.
    None of the calls in [nms.py] hands [offset] to a kernel, so a kernel
    measures widths and heights with the default of the specification,
    [offset = 0]. *)

Module PurePytorchNms.
Import Torch.

Definition coord (k : nat) (b : list Q) : Q := nth k b 0.

(** Modelled from the spec: the area of a box of section 4.1,
    [(x2 - x1 + offset) * (y2 - y1 + offset)]; the source of the geometry
    primitives is missing. *)
Definition area (b : list Q) (offset : Q) : Q :=
  (coord 2 b - coord 0 b + offset) * (coord 3 b - coord 1 b + offset).

(** Modelled from the spec: the intersection of two boxes of section 4.1;
    the source of the geometry primitives is missing. *)
Definition intersection (a b : list Q) (offset : Q) : Q :=
  let width :=
    Qmax 0 (Qmin (coord 2 a) (coord 2 b) - Qmax (coord 0 a) (coord 0 b)
            + offset) in
  let height :=
    Qmax 0 (Qmin (coord 3 a) (coord 3 b) - Qmax (coord 1 a) (coord 1 b)
            + offset) in
  width * height.

(** Modelled from the spec: [iou(boxA, boxB, offset)] of section 4.1, with
    result 0 when the denominator is not positive; the source of the
    geometry primitives is missing. *)
Definition iou (a b : list Q) (offset : Q) : Q :=
  let inter := intersection a b offset in
  let denom := area a offset + area b offset - inter in
  if Qle_bool denom 0 then 0 else inter / denom.

(** Box [j] is suppressed by box [i]: their IoU exceeds the threshold. *)
Definition overlaps (boxes : tensor2) (iou_threshold : Q) (i j : nat) : bool :=
  Qlt_bool iou_threshold
    (iou (nth i (rows boxes) []) (nth j (rows boxes) []) 0).

Section Greedy.

Variable ov : nat -> nat -> bool.

(** A later index [j] that is not yet suppressed gets its marker set when it
    overlaps the kept index [i]. *)
Definition mark (i : nat) (suppressed : list bool) (j : nat) : list bool :=
  if negb (nth j suppressed false) && ov i j then put suppressed j true
  else suppressed.

(** Modelled from the spec: step 3 of section 4.2, the scan of the sorted
    order with one "suppressed" marker per index; the source of the greedy
    engine is missing. *)
Fixpoint scan (order : list nat) (suppressed : list bool) : list nat :=
  match order with
  | [] => []
  | i :: later =>
      if nth i suppressed false then scan later suppressed
      else i :: scan later (fold_left (mark i) later suppressed)
  end.

(** The same step when the suppressed index is recorded in the group of the
    index that suppressed it. *)
Definition absorb (i : nat) (st : list bool * list nat) (j : nat)
  : list bool * list nat :=
  if negb (nth j (fst st) false) && ov i j
  then (put (fst st) j true, snd st ++ [j])
  else st.

(** Modelled from the spec: the scan of section 4.5, which is the scan of
    section 4.2 but appends a suppressed index to the group led by the index
    that suppressed it; the source of the matching engine is missing. *)
Fixpoint match_scan (order : list nat) (suppressed : list bool)
  : list (list nat) :=
  match order with
  | [] => []
  | i :: later =>
      if nth i suppressed false then match_scan later suppressed
      else
        let st := fold_left (absorb i) later (suppressed, []) in
        (i :: snd st) :: match_scan later (fst st)
  end.

End Greedy.

(** Modelled from the spec: steps 2 and 3 of section 4.2 (stable sort by
    descending score, then the greedy scan); [nms_pytorch] is missing from
    the sources. *)
Definition nms_pytorch (bboxes : tensor2) (scores : list Q)
    (iou_threshold : Q) : list nat :=
  scan (overlaps bboxes iou_threshold) (argsort_desc scores)
       (repeat false (length scores)).

(** Modelled from the spec: section 4.5 on an (N, 5) array of boxes with
    their scores; [nms_match_pytorch] is missing from the sources. *)
Definition nms_match_pytorch (dets : tensor2) (iou_threshold : Q)
  : list (list nat) :=
  match_scan (overlaps dets iou_threshold) (argsort_desc (last_col dets))
             (repeat false (size0 dets)).

Inductive soft_method : Type := naive | linear | gaussian.

Section Kernels.

(** [exp_neg x] stands for [exp (- x)], which is not a rational function. *)
Variable exp_neg : Q -> Q.

(** The area ratio of two quadrilaterals, by polygon clipping; only the
    control flow around it is modelled. *)
Variable polygon_iou : list Q -> list Q -> Q.

(** Modelled from the spec: the decay weights of section 4.3; the source of
    the soft-NMS engine is missing. *)
Definition weight (method : soft_method) (iou_threshold sigma : Q) (v : Q)
  : Q :=
  match method with
  | naive => if Qlt_bool iou_threshold v then 0 else 1
  | linear => if Qlt_bool iou_threshold v then 1 - v else 1
  | gaussian => exp_neg (v * v / sigma)
  end.

(** Modelled from the spec: one round of section 4.3 on the pool of
    (index, score) pairs: sort the pool by its updated scores, pick its
    head, decay the others by their overlap with the pick and drop those at
    or below [min_score].  A round takes one detection out of the pool, so
    [length pool] rounds exhaust it. *)
Fixpoint soft_rounds (boxes : tensor2) (iou_threshold sigma min_score : Q)
    (method : soft_method) (fuel : nat) (pool : list (nat * Q))
  : list (nat * Q) :=
  match fuel with
  | O => []
  | S fuel' =>
      match sort_desc_by snd pool with
      | [] => []
      | (i, s) :: others =>
          let decay (p : nat * Q) :=
            (fst p,
             snd p * weight method iou_threshold sigma
                       (iou (nth i (rows boxes) [])
                            (nth (fst p) (rows boxes) []) 0)) in
          (i, s) ::
          soft_rounds boxes iou_threshold sigma min_score method fuel'
            (filter (fun p => Qlt_bool min_score (snd p)) (map decay others))
      end
  end.

(** Modelled from the spec: section 4.3; the output is sorted by descending
    final score.  [soft_nms_pytorch] is missing from the sources. *)
Definition soft_nms_pytorch (boxes : tensor2) (scores : list Q)
    (iou_threshold sigma min_score : Q) (method : soft_method)
  : tensor2 * list nat :=
  let pool := combine (seq 0 (length scores)) scores in
  let picked :=
    sort_desc_by snd
      (soft_rounds boxes iou_threshold sigma min_score method
                   (length pool) pool) in
  (T2 (S (ncol boxes))
      (map (fun p => nth (fst p) (rows boxes) [] ++ [snd p]) picked),
   map fst picked).

(** Modelled from the spec: section 4.6, the control flow of section 4.2
    with [polygon_iou]; the labels play no part.  [nms_quadri_pytorch] is
    missing from the sources. *)
Definition nms_quadri_pytorch (dets : tensor2) (scores : list Q)
    (iou_threshold : Q) (labels : option (list Z))
  : tensor2 * list nat :=
  let ov i j :=
    Qlt_bool iou_threshold
      (polygon_iou (nth i (rows dets) []) (nth j (rows dets) [])) in
  let keep := scan ov (argsort_desc scores) (repeat false (length scores)) in
  (T2 (S (ncol dets))
      (map (fun i => nth i (rows dets) [] ++ [get scores i]) keep),
   keep).

End Kernels.

End PurePytorchNms.

(** ** [mmcv/ops/nms.py] *)

Module Nms.
Import Torch PurePytorchNms.

(** The keyword arguments a configuration hands to the NMS op. *)
Record kwargs : Type := Kwargs {
  iou_threshold : option Q;
  offset : option Z;
  score_threshold : option Q;
  max_num : option Z;
  sigma : option Q;
  min_score : option Q;
  method : option string
}.

Definition nms_op_type : Type :=
  tensor2 -> list Q -> kwargs -> result (tensor2 * list nat).

(** The entry ['type'] of a configuration: the name of an op of this
    module, resolved by [eval], or a callable.  Of the names, the three NMS
    ops on boxes are modelled. *)
Inductive nms_type : Type :=
| type_nms
| type_soft_nms
| type_nms_rotated
| type_callable (f : nms_op_type).

(** [nms_cfg]: the entries [batched_nms] pops, and the others. *)
Record nms_cfg : Type := NmsCfg {
  cfg_class_agnostic : option bool;
  cfg_type : option nms_type;
  cfg_split_thr : option Z;
  cfg_kwargs : kwargs
}.

Definition pop_max_num (kw : kwargs) : kwargs :=
  Kwargs (iou_threshold kw) (offset kw) (score_threshold kw) None
         (sigma kw) (min_score kw) (method kw).

Definition is_some {A : Type} (o : option A) : bool :=
  match o with
  | Some _ => true
  | None => false
  end.

Section Ops.

Variable exp_neg : Q -> Q.
Variable polygon_iou : list Q -> list Q -> Q.

(** [nms_rotated]: the stub left for backwards compatibility. *)
Definition nms_rotated : nms_op_type :=
  fun _ _ _ => Raise NotImplementedError.

(** [NMSop.forward]. *)
Definition NMSop_forward (bboxes : tensor2) (scores : list Q)
    (iou_threshold : Q) (offset : Z) (score_threshold : Q) (max_num : Z)
  : result (list nat) :=
  let is_filtering_by_score := Qlt_bool 0 score_threshold in
  filtered <-
    (if is_filtering_by_score then
       let valid_mask := map (Qlt_bool score_threshold) scores in
       bboxes' <- index_mask2 bboxes valid_mask ;;
       scores' <- index_mask scores valid_mask ;;
       Ok (bboxes', scores', nonzero valid_mask)
     else Ok (bboxes, scores, [])) ;;
  let '(bboxes, scores, valid_inds) := filtered in
  let inds := nms_pytorch bboxes scores iou_threshold in
  let inds :=
    if (0 <? max_num)%Z then firstn (Z.to_nat max_num) inds else inds in
  if is_filtering_by_score then index valid_inds inds else Ok inds.

(** [nms]. *)
Definition nms (boxes : tensor2) (scores : list Q) (iou_threshold : Q)
    (offset : Z) (score_threshold : Q) (max_num : Z)
  : result (tensor2 * list nat) :=
  _ <- assert (Nat.eqb (ncol boxes) 4) ;;
  _ <- assert (Nat.eqb (size0 boxes) (length scores)) ;;
  _ <- assert ((offset =? 0)%Z || (offset =? 1)%Z) ;;
  inds <- NMSop_forward boxes scores iou_threshold offset score_threshold
                        max_num ;;
  kept_boxes <- index2 boxes inds ;;
  kept_scores <- index scores inds ;;
  dets <- cat_col kept_boxes kept_scores ;;
  Ok (dets, inds).

Definition method_dict (method : string) : option Z :=
  if String.eqb method "naive" then Some 0%Z
  else if String.eqb method "linear" then Some 1%Z
  else if String.eqb method "gaussian" then Some 2%Z
  else None.

Definition method_map (method : Z) : option soft_method :=
  if (method =? 0)%Z then Some naive
  else if (method =? 1)%Z then Some linear
  else if (method =? 2)%Z then Some gaussian
  else None.

(** [SoftNMSop.forward]. *)
Definition SoftNMSop_forward (boxes : tensor2) (scores : list Q)
    (iou_threshold sigma min_score : Q) (method : Z) (offset : Z)
  : result (tensor2 * list nat) :=
  match method_map method with
  | None => Raise KeyError
  | Some method_str =>
      Ok (soft_nms_pytorch exp_neg boxes scores iou_threshold sigma
                           min_score method_str)
  end.

(** [soft_nms]. *)
Definition soft_nms (boxes : tensor2) (scores : list Q)
    (iou_threshold sigma min_score : Q) (method : string) (offset : Z)
  : result (tensor2 * list nat) :=
  _ <- assert (Nat.eqb (ncol boxes) 4) ;;
  _ <- assert (Nat.eqb (size0 boxes) (length scores)) ;;
  _ <- assert ((offset =? 0)%Z || (offset =? 1)%Z) ;;
  match method_dict method with
  | None => Raise AssertionError
  | Some m =>
      r <- SoftNMSop_forward boxes scores iou_threshold sigma min_score m
                             offset ;;
      let '(dets, inds) := r in
      Ok (T2 (ncol dets) (firstn (length inds) (rows dets)), inds)
  end.

(** [nms(boxes, scores, **kwargs)]: an unexpected keyword or a missing
    [iou_threshold] is a [TypeError]. *)
Definition call_nms : nms_op_type :=
  fun boxes scores kw =>
    if is_some (sigma kw) || is_some (min_score kw) || is_some (method kw)
    then Raise TypeError
    else
      match iou_threshold kw with
      | None => Raise TypeError
      | Some thr =>
          nms boxes scores thr (default 0%Z (offset kw))
              (default 0 (score_threshold kw)) (default (-1)%Z (max_num kw))
      end.

(** [soft_nms(boxes, scores, **kwargs)]. *)
Definition call_soft_nms : nms_op_type :=
  fun boxes scores kw =>
    if is_some (score_threshold kw) || is_some (max_num kw)
    then Raise TypeError
    else
      soft_nms boxes scores (default (3 # 10) (iou_threshold kw))
               (default (1 # 2) (sigma kw))
               (default (1 # 1000) (min_score kw))
               (default "linear"%string (method kw))
               (default 0%Z (offset kw)).

(** [nms_op = nms_cfg_.pop('type', 'nms')], evaluated when it is a name. *)
Definition eval_type (t : nms_type) : nms_op_type :=
  match t with
  | type_nms => call_nms
  | type_soft_nms => call_soft_nms
  | type_nms_rotated => nms_rotated
  | type_callable f => f
  end.

(** The local [boxes_for_nms] of [batched_nms]: the boxes themselves when
    class agnostic, else the boxes moved by an offset per class. *)
Definition boxes_for_nms (boxes : tensor2) (idxs : list Z)
    (class_agnostic : bool) : result tensor2 :=
  if class_agnostic then Ok boxes
  else if Nat.eqb (ncol boxes) 5 then
    max_ctr <- max_all (cols 0 2 boxes) ;;
    max_wh <- max_all (cols 2 4 boxes) ;;
    let max_coordinate := max_ctr + max_wh in
    let offsets := map (fun c => inject_Z c * (max_coordinate + 1)) idxs in
    boxes_ctr_for_nms <- add_rows (cols 0 2 boxes) offsets ;;
    cat_cols boxes_ctr_for_nms (cols 2 5 boxes)
  else
    max_coordinate <- max_all boxes ;;
    let offsets := map (fun c => inject_Z c * (max_coordinate + 1)) idxs in
    add_rows boxes offsets.

(** The arrays handed to the op for the class [id]. *)
Definition partition_args (boxes_for_nms : tensor2) (scores : list Q)
    (idxs : list Z) (id : Z) : result (list nat * tensor2 * list Q) :=
  let mask := nonzero (map (Z.eqb id) idxs) in
  b <- index2 boxes_for_nms mask ;;
  s <- index scores mask ;;
  Ok (mask, b, s).

(** The body of the loop over the classes. *)
Definition split_step (nms_op : nms_op_type) (boxes_for_nms : tensor2)
    (scores : list Q) (idxs : list Z) (kw : kwargs) (id : Z)
    (st : list bool * list Q) : result (list bool * list Q) :=
  args <- partition_args boxes_for_nms scores idxs id ;;
  let '(mask, b, s) := args in
  r <- nms_op b s kw ;;
  let '(dets, keep) := r in
  kept <- index mask keep ;;
  let total_mask := index_put (fst st) kept (repeat true (length kept)) in
  if Nat.eqb (length kept) (size0 dets)
  then Ok (total_mask, index_put (snd st) kept (last_col dets))
  else Raise RuntimeError.

(** [batched_nms]. *)
Definition batched_nms (boxes : tensor2) (scores : list Q) (idxs : list Z)
    (nms_cfg : option nms_cfg) (class_agnostic : bool)
  : result (tensor2 * list nat) :=
  match nms_cfg with
  | None =>
      let '(scores, inds) := sort_desc scores in
      boxes <- index2 boxes inds ;;
      dets <- cat_col boxes scores ;;
      Ok (dets, inds)
  | Some nms_cfg_ =>
      let class_agnostic :=
        default class_agnostic (cfg_class_agnostic nms_cfg_) in
      boxes_for_nms <- boxes_for_nms boxes idxs class_agnostic ;;
      let nms_op := eval_type (default type_nms (cfg_type nms_cfg_)) in
      let split_thr := default 10000%Z (cfg_split_thr nms_cfg_) in
      if (Z.of_nat (size0 boxes_for_nms) <? split_thr)%Z then
        r <- nms_op boxes_for_nms scores (cfg_kwargs nms_cfg_) ;;
        let '(dets, keep) := r in
        boxes <- index2 boxes keep ;;
        let scores := last_col dets in
        out <- cat_col boxes scores ;;
        Ok (out, keep)
      else
        let max_num := default (-1)%Z (max_num (cfg_kwargs nms_cfg_)) in
        let kw := pop_max_num (cfg_kwargs nms_cfg_) in
        let total_mask := repeat false (length scores) in
        let scores_after_nms := repeat 0 (length scores) in
        st <- for_each (split_step nms_op boxes_for_nms scores idxs kw)
                       (unique idxs) (total_mask, scores_after_nms) ;;
        let '(total_mask, scores_after_nms) := st in
        let keep := nonzero total_mask in
        kept_scores <- index scores_after_nms keep ;;
        let '(scores, inds) := sort_desc kept_scores in
        keep <- index keep inds ;;
        boxes <- index2 boxes keep ;;
        let '(keep, boxes, scores) :=
          if (0 <? max_num)%Z then
            (firstn (Z.to_nat max_num) keep,
             T2 (ncol boxes) (firstn (Z.to_nat max_num) (rows boxes)),
             firstn (Z.to_nat max_num) scores)
          else (keep, boxes, scores) in
        out <- cat_col boxes scores ;;
        Ok (out, keep)
  end.

(** [nms_match]. *)
Definition nms_match (dets : tensor2) (iou_threshold : Q)
  : result (list (list nat)) :=
  if Nat.eqb (size0 dets) 0 then Ok []
  else
    _ <- assert (Nat.eqb (ncol dets) 5) ;;
    Ok (nms_match_pytorch dets iou_threshold).

(** [nms_quadri]: without rows the input comes back with [None]. *)
Definition nms_quadri (dets : tensor2) (scores : list Q) (iou_threshold : Q)
    (labels : option (list Z)) : result (tensor2 * option (list nat)) :=
  if Nat.eqb (size0 dets) 0 then Ok (dets, None)
  else
    let '(dets_out, keep_inds) :=
      nms_quadri_pytorch polygon_iou dets scores iou_threshold labels in
    Ok (dets_out, Some keep_inds).

End Ops.

End Nms.

(** ** Notions the properties are stated with *)

Module NmsSpec.
Import Torch PurePytorchNms Nms.

(** The greedy selection as a function of the indices kept so far: an index
    is kept when no index kept before it overlaps it. *)
Fixpoint greedy (ov : nat -> nat -> bool) (kept : list nat) (l : list nat)
  : list nat :=
  match l with
  | [] => []
  | a :: r =>
      if existsb (fun k => ov k a) kept then greedy ov kept r
      else a :: greedy ov (a :: kept) r
  end.

(** The groups of the matching scan, in the same style. *)
Fixpoint groups (ov : nat -> nat -> bool) (kept : list nat) (l : list nat)
  : list (list nat) :=
  match l with
  | [] => []
  | a :: r =>
      if existsb (fun k => ov k a) kept then groups ov kept r
      else
        (a :: filter (fun j => negb (existsb (fun k => ov k j) kept) && ov a j)
                     r)
        :: groups ov (a :: kept) r
  end.

(** The markers agree with the indices kept so far on the indices still to
    be scanned. *)
Definition agrees (ov : nat -> nat -> bool) (suppressed : list bool)
    (kept : list nat) (l : list nat) : Prop :=
  forall j, In j l ->
    (j < length suppressed)%nat /\
    nth j suppressed false = existsb (fun k => ov k j) kept.

(** Row [i] of an array. *)
Definition row (t : tensor2) (i : nat) : list Q := nth i (rows t) [].

(** [inds[:max_num]] when [max_num > 0]. *)
Definition cap {A : Type} (max_num : Z) (l : list A) : list A :=
  if (0 <? max_num)%Z then firstn (Z.to_nat max_num) l else l.

(** The indices among [sel] that pass the score filter of [NMSop.forward]. *)
Definition candidates (scores : list Q) (score_threshold : Q)
    (sel : list nat) : list nat :=
  if Qlt_bool 0 score_threshold
  then filter (fun i => Qlt_bool score_threshold (get scores i)) sel
  else sel.

(** What greedy NMS keeps of the detections [sel], as indices of the whole
    arrays: filter by score, sort by descending score, select greedily, cut
    at [max_num]. *)
Definition nms_keep_on (boxes : tensor2) (scores : list Q)
    (iou_threshold score_threshold : Q) (max_num : Z) (sel : list nat)
  : list nat :=
  cap max_num
    (greedy (overlaps boxes iou_threshold) []
       (sort_desc_by (get scores) (candidates scores score_threshold sel))).

Definition nms_keep (boxes : tensor2) (scores : list Q)
    (iou_threshold score_threshold : Q) (max_num : Z) : list nat :=
  nms_keep_on boxes scores iou_threshold score_threshold max_num
              (seq 0 (length scores)).

(** The rows [sel] of an array, and the entries [sel] of a list of scores. *)
Definition sub2 (t : tensor2) (sel : list nat) : tensor2 :=
  T2 (ncol t) (map (row t) sel).

Definition sub (s : list Q) (sel : list nat) : list Q := map (get s) sel.

(** The kept detections as an array: each kept box with its score. *)
Definition dets_of (boxes : tensor2) (scores : list Q) (inds : list nat)
  : tensor2 :=
  T2 (S (ncol boxes)) (map (fun i => row boxes i ++ [get scores i]) inds).

(** A rational function in the place of [exp (- x)], its (2, 2) Pade
    approximant, for running the code on examples. *)
Definition exp_neg_pade (x : Q) : Q :=
  (12 - 6 * x + x * x) / (12 + 6 * x + x * x).

(** A configuration that only sets [iou_threshold]. *)
Definition cfg_iou (thr : Q) : nms_cfg :=
  NmsCfg None None None (Kwargs (Some thr) None None None None None None).

(** The example of the docstring of [nms]: seven boxes, three kept. *)
Definition doc_boxes : tensor2 :=
  T2 4 [[491 # 10; 324 # 10; 510 # 10; 359 # 10];
        [493 # 10; 329 # 10; 510 # 10; 353 # 10];
        [492 # 10; 318 # 10; 510 # 10; 354 # 10];
        [351 # 10; 115 # 10; 391 # 10; 157 # 10];
        [356 # 10; 118 # 10; 393 # 10; 142 # 10];
        [353 # 10; 115 # 10; 399 # 10; 145 # 10];
        [352 # 10; 117 # 10; 397 # 10; 157 # 10]].

Definition doc_scores : list Q :=
  [9 # 10; 9 # 10; 5 # 10; 5 # 10; 5 # 10; 4 # 10; 3 # 10].

Definition doc_dets : tensor2 := dets_of doc_boxes doc_scores (seq 0 7).

(** The offset of a class: [class_id * (max_coordinate + 1)]. *)
Definition class_offset (max_coordinate : Q) (class_id : Z) : Q :=
  inject_Z class_id * (max_coordinate + 1).

(** An axis-aligned box moved by [o]: every coordinate is shifted. *)
Definition shift_box (o : Q) (b : list Q) : list Q :=
  [coord 0 b + o; coord 1 b + o; coord 2 b + o; coord 3 b + o].

(** A rotated box [(cx, cy, w, h, angle)] moved by [o]: only the centre is
    shifted. *)
Definition shift_rotated (o : Q) (b : list Q) : list Q :=
  [coord 0 b + o; coord 1 b + o; coord 2 b; coord 3 b; coord 4 b].

(** The class of detection [i]. *)
Definition class_of (idxs : list Z) (i : nat) : Z := nth i idxs 0%Z.

(** The boxes after the offset of their class has been added. *)
Definition shifted (boxes : tensor2) (idxs : list Z) (max_coordinate : Q)
  : tensor2 :=
  T2 (ncol boxes)
     (map (fun i =>
             (if Nat.eqb (ncol boxes) 5 then shift_rotated else shift_box)
               (class_offset max_coordinate (class_of idxs i)) (row boxes i))
          (seq 0 (size0 boxes))).

(** [m] is the largest of the numbers [xs]. *)
Definition is_largest (m : Q) (xs : list Q) : Prop :=
  In m xs /\ Forall (fun x => x <= m) xs.

(** The [max_coordinate] of a batch: the largest entry of axis-aligned
    boxes; for rotated boxes the largest centre coordinate plus the largest
    width or height. *)
Definition max_coordinate_of (boxes : tensor2) (m : Q) : Prop :=
  if Nat.eqb (ncol boxes) 5 then
    exists m_ctr m_wh,
      is_largest m_ctr (concat (rows (cols 0 2 boxes))) /\
      is_largest m_wh (concat (rows (cols 2 4 boxes))) /\
      m = m_ctr + m_wh
  else is_largest m (concat (rows boxes)).

(** The configured class-agnostic flag: the entry of the configuration
    overrides the argument. *)
Definition agnostic (c : nms_cfg) (class_agnostic : bool) : bool :=
  default class_agnostic (cfg_class_agnostic c).

Definition split_thr_of (c : nms_cfg) : Z := default 10000%Z (cfg_split_thr c).

Definition type_of (c : nms_cfg) : nms_type := default type_nms (cfg_type c).

(** The detections of class [id], as positions in the arrays. *)
Definition members (idxs : list Z) (id : Z) : list nat :=
  filter (fun i => Z.eqb id (class_of idxs i)) (seq 0 (length idxs)).

(** A call for every element of a list, in order; the first exception
    ends it. *)
Fixpoint for_all {A B : Type} (f : A -> result B) (l : list A)
  : result (list B) :=
  match l with
  | [] => Ok []
  | a :: l' => b <- f a ;; bs <- for_all f l' ;; Ok (b :: bs)
  end.

(** What the op keeps of the class [id]: each kept detection, as a position
    in the whole arrays, with the score the op returns for it. *)
Definition per_class (nms_op : nms_op_type) (boxes : tensor2)
    (scores : list Q) (idxs : list Z) (kw : kwargs) (id : Z)
  : result (list (nat * Q)) :=
  b <- index2 boxes (members idxs id) ;;
  s <- index scores (members idxs id) ;;
  r <- nms_op b s kw ;;
  let '(dets, keep) := r in
  kept <- index (members idxs id) keep ;;
  if Nat.eqb (length kept) (size0 dets)
  then Ok (combine kept (last_col dets))
  else Raise RuntimeError.

(** The two arrays of the loop after the results of one class are written
    to them. *)
Definition record (st : list bool * list Q) (part : list (nat * Q))
  : list bool * list Q :=
  (index_put (fst st) (map fst part) (repeat true (length part)),
   index_put (snd st) (map fst part) (map snd part)).

(** The kept detections with their scores as an array. *)
Definition dets_with (boxes : tensor2) (kept : list (nat * Q)) : tensor2 :=
  T2 (S (ncol boxes)) (map (fun p => row boxes (fst p) ++ [snd p]) kept).

(** Index [j] is among the results of the classes. *)
Definition covered (parts : list (list (nat * Q))) (j : nat) : Prop :=
  exists part, In part parts /\ In j (map fst part).

Definition coveredb (parts : list (list (nat * Q))) (j : nat) : bool :=
  existsb (fun part => existsb (Nat.eqb j) (map fst part)) parts.

(** Every index of the results is below [n]. *)
Definition in_range (n : nat) (parts : list (list (nat * Q))) : Prop :=
  forall part i, In part parts -> In i (map fst part) -> (i < n)%nat.

(** No two of the detections [keep] overlap by more than the threshold. *)
Definition no_overlap (boxes : tensor2) (thr offset : Q) (keep : list nat)
  : Prop :=
  forall i j, In i keep -> In j keep -> i <> j ->
    iou (row boxes i) (row boxes j) offset <= thr.

(** No two of the detections [keep] of the same class overlap by more than
    the threshold. *)
Definition no_overlap_in_class (boxes : tensor2) (idxs : list Z)
    (thr offset : Q) (keep : list nat) : Prop :=
  forall i j, In i keep -> In j keep -> i <> j ->
    class_of idxs i = class_of idxs j ->
    iou (row boxes i) (row boxes j) offset <= thr.

(** The kept indices of a result; none when the call raised. *)
Definition kept_inds (r : result (tensor2 * list nat)) : list nat :=
  match r with
  | Ok (_, keep) => keep
  | Raise _ => []
  end.

(** Plain NMS class by class on the original boxes, the results merged by
    descending score. *)
Definition per_class_nms_merged (boxes : tensor2) (scores : list Q)
    (idxs : list Z) (kw : kwargs) : result (list nat) :=
  parts <- for_all (per_class call_nms boxes scores idxs kw) (unique idxs) ;;
  Ok (map fst (sort_desc_by snd (concat parts))).

(** Two boxes of one class that overlap by a half. *)
Definition half_boxes : tensor2 := T2 4 [[0; 0; 2; 2]; [0; 0; 2; 1]].
Definition half_scores : list Q := [1; 1 # 2].
Definition half_idxs : list Z := [0%Z; 0%Z].

(** A configuration that selects soft-NMS. *)
Definition cfg_soft (thr : Q) : nms_cfg :=
  NmsCfg None (Some type_soft_nms) None
         (Kwargs (Some thr) None None None None None None).

(** Two boxes that touch in a corner. *)
Definition corner_boxes : tensor2 := T2 4 [[0; 0; 1; 1]; [1; 1; 2; 2]].
Definition corner_scores : list Q := [9 # 10; 8 # 10].

(** The same box in two classes. *)
Definition twin_boxes : tensor2 := T2 4 [[0; 0; 1; 1]; [0; 0; 1; 1]].
Definition twin_scores : list Q := [9 # 10; 8 # 10].
Definition twin_idxs : list Z := [0%Z; 1%Z].

(** The same box in two classes, with negative coordinates. *)
Definition neg_boxes : tensor2 :=
  T2 4 [[-100; -100; 5; 5]; [-100; -100; 5; 5]].
Definition neg_scores : list Q := [9 # 10; 8 # 10].
Definition neg_idxs : list Z := [0%Z; 1%Z].

(** A configuration with [iou_threshold] and [split_thr]. *)
Definition cfg_split (thr : Q) (split : Z) : nms_cfg :=
  NmsCfg None None (Some split)
         (Kwargs (Some thr) None None None None None None).

(** The classes of the boxes of the docstring in the examples. *)
Definition doc_idxs : list Z := [0; 1; 0; 1; 1; 1; 0]%Z.

(** The arguments [nms] and [soft_nms] accept. *)
Definition nms_valid (boxes : tensor2) (scores : list Q) (offset : Z) : Prop :=
  ncol boxes = 4%nat /\ size0 boxes = length scores /\
  (offset = 0%Z \/ offset = 1%Z).

(** The names of the soft-NMS kernels. *)
Definition method_name (method : string) : Prop :=
  method = "naive"%string \/ method = "linear"%string \/
  method = "gaussian"%string.

(** What plain [nms] keeps of the class [id] alone, as positions in the
    whole arrays. *)
Definition class_nms (boxes : tensor2) (scores : list Q) (idxs : list Z)
    (thr : Q) (off : Z) (st : Q) (id : Z) : list nat :=
  map (fun k => nth k (members idxs id) O)
      (kept_inds (nms (sub2 boxes (members idxs id))
                      (sub scores (members idxs id)) thr off st (-1))).

(** A configuration that selects soft-NMS and sets [max_num]. *)
Definition cfg_soft_max (thr : Q) (mn : Z) : nms_cfg :=
  NmsCfg None (Some type_soft_nms) None
         (Kwargs (Some thr) None None (Some mn) None None None).

(** A configuration that selects the removed [nms_rotated]. *)
Definition cfg_rotated (thr : Q) : nms_cfg :=
  NmsCfg None (Some type_nms_rotated) None
         (Kwargs (Some thr) None None None None None None).

(** The configuration [c] with the entry [split_thr] set. *)
Definition with_split_thr (c : nms_cfg) (split : Z) : nms_cfg :=
  NmsCfg (cfg_class_agnostic c) (cfg_type c) (Some split) (cfg_kwargs c).

(** The op is one of the names of the module, not a callable. *)
Definition named (t : nms_type) : Prop :=
  t = type_nms \/ t = type_soft_nms \/ t = type_nms_rotated.

(** No box overlaps a box of another class by more than the threshold. *)
Definition classes_apart (boxes : tensor2) (idxs : list Z) (thr : Q) : Prop :=
  forall i j, (i < size0 boxes)%nat -> (j < size0 boxes)%nat ->
    class_of idxs i <> class_of idxs j ->
    iou (row boxes i) (row boxes j) 0 <= thr.

Definition classes_apartb (boxes : tensor2) (idxs : list Z) (thr : Q) : bool :=
  forallb (fun i =>
             forallb (fun j =>
                        Z.eqb (class_of idxs i) (class_of idxs j) ||
                        negb (overlaps boxes thr i j))
                     (seq 0 (size0 boxes)))
          (seq 0 (size0 boxes)).

(** The boxes of the docstring after the shift of their classes; their
    largest coordinate is 51. *)
Definition doc_shifted : tensor2 := shifted doc_boxes doc_idxs (510 # 10).

End NmsSpec.

(** ** Facts on the array operations *)

Module TorchFacts.
Import Torch.

Lemma bind_ok_inv {A B : Type} (c : result A) (k : A -> result B) (b : B) :
  bind c k = Ok b -> exists a, c = Ok a /\ k a = Ok b.
Proof.
  destruct c as [a|e]; simpl; intros H; [eauto | discriminate].
Qed.

Lemma Qlt_bool_iff (x y : Q) : Qlt_bool x y = true <-> x < y.
Proof.
  unfold Qlt_bool. rewrite negb_true_iff, <- not_true_iff_false, Qle_bool_iff.
  split; [apply Qnot_le_lt | apply Qlt_not_le].
Qed.

Lemma Qlt_bool_false_iff (x y : Q) : Qlt_bool x y = false <-> y <= x.
Proof.
  unfold Qlt_bool. rewrite negb_false_iff. apply Qle_bool_iff.
Qed.

Lemma Qlt_bool_comp : Proper (Qeq ==> Qeq ==> eq) Qlt_bool.
Proof.
  intros x x' Hx y y' Hy. unfold Qlt_bool. now rewrite Hx, Hy.
Qed.

#[export] Existing Instance Qlt_bool_comp.

(** *** Indexing *)

Lemma index_ok {A : Type} (d : A) (l : list A) (inds : list nat) :
  Forall (fun i => (i < length l)%nat) inds ->
  index l inds = Ok (map (fun i => nth i l d) inds).
Proof.
  induction 1 as [|i inds Hi _ IH]; simpl; [reflexivity|].
  destruct (nth_error l i) as [x|] eqn:E.
  - rewrite IH. simpl. now rewrite (nth_error_nth _ _ d E).
  - apply nth_error_None in E. lia.
Qed.

Lemma index_inv {A : Type} (d : A) (l : list A) (inds : list nat)
    (xs : list A) :
  index l inds = Ok xs ->
  Forall (fun i => (i < length l)%nat) inds /\
  xs = map (fun i => nth i l d) inds.
Proof.
  revert xs. induction inds as [|i inds IH]; simpl; intros xs H.
  - inversion H. split; [constructor | reflexivity].
  - destruct (nth_error l i) as [x|] eqn:E; [|discriminate].
    apply bind_ok_inv in H. destruct H as (ys & Hys & H). inversion H.
    destruct (IH _ Hys) as [HF ->]. split.
    + constructor; [|exact HF]. apply nth_error_Some. congruence.
    + simpl. now rewrite (nth_error_nth _ _ d E).
Qed.

Lemma index_length {A : Type} (l : list A) (inds : list nat) (xs : list A) :
  index l inds = Ok xs -> length xs = length inds.
Proof.
  revert xs. induction inds as [|i inds IH]; simpl; intros xs H.
  - now inversion H.
  - destruct (nth_error l i); [|discriminate].
    apply bind_ok_inv in H. destruct H as (ys & Hys & H). inversion H.
    simpl. f_equal. now apply IH.
Qed.

Lemma map_nth_seq {A : Type} (d : A) (l : list A) :
  map (fun i => nth i l d) (seq 0 (length l)) = l.
Proof.
  induction l as [|x l IH]; simpl; [reflexivity|].
  f_equal. rewrite <- seq_shift, map_map. exact IH.
Qed.

Lemma index_seq {A : Type} (l : list A) :
  index l (seq 0 (length l)) = Ok l.
Proof.
  destruct l as [|d l']; [reflexivity|].
  rewrite (index_ok d).
  - now rewrite map_nth_seq.
  - apply Forall_forall. intros i Hi. apply in_seq in Hi. lia.
Qed.

(** *** Masks *)

Lemma nonzero_from_In (k : nat) (m : list bool) (i : nat) :
  In i (nonzero_from k m) <-> (k <= i)%nat /\ nth (i - k) m false = true.
Proof.
  revert k. induction m as [|b m IH]; intros k; simpl.
  - split; [tauto|]. intros [_ H]. destruct (i - k)%nat; discriminate.
  - assert (Hs : In i (nonzero_from (S k) m) <->
                 (k < i)%nat /\ nth (i - k) (b :: m) false = true).
    { rewrite IH. split; intros [H1 H2]; (split; [lia|]).
      - replace (i - k)%nat with (S (i - S k)) by lia. exact H2.
      - replace (i - k)%nat with (S (i - S k)) in H2 by lia. exact H2. }
    destruct b; simpl; rewrite ?Hs.
    + split.
      * intros [<-|[H1 H2]]; [now rewrite Nat.sub_diag|split; [lia|exact H2]].
      * intros [H1 H2]. destruct (Nat.eq_dec k i) as [->|Hne]; [now left|].
        right. split; [lia|exact H2].
    + split.
      * intros [H1 H2]. split; [lia|exact H2].
      * intros [H1 H2]. split; [|exact H2].
        destruct (Nat.eq_dec k i) as [->|Hne]; [|lia].
        rewrite Nat.sub_diag in H2. discriminate.
Qed.

Lemma nonzero_In (m : list bool) (i : nat) :
  In i (nonzero m) <-> nth i m false = true.
Proof.
  unfold nonzero. rewrite nonzero_from_In, Nat.sub_0_r.
  split; [tauto | intros H; split; [lia | exact H]].
Qed.

Lemma nth_true_lt (m : list bool) (i : nat) :
  nth i m false = true -> (i < length m)%nat.
Proof.
  intros H. destruct (Nat.lt_ge_cases i (length m)) as [Hlt|Hge]; [exact Hlt|].
  rewrite nth_overflow in H by exact Hge. discriminate.
Qed.

Lemma nonzero_lt (m : list bool) (i : nat) :
  In i (nonzero m) -> (i < length m)%nat.
Proof.
  intros H. apply nth_true_lt. now apply nonzero_In.
Qed.

Lemma nonzero_from_sorted (k : nat) (m : list bool) :
  StronglySorted lt (nonzero_from k m).
Proof.
  revert k. induction m as [|b m IH]; intros k; simpl; [constructor|].
  destruct b; [|apply IH].
  constructor; [apply IH|]. apply Forall_forall. intros i Hi.
  apply nonzero_from_In in Hi. lia.
Qed.

Lemma nonzero_sorted (m : list bool) : StronglySorted lt (nonzero m).
Proof.
  apply nonzero_from_sorted.
Qed.

Lemma mask_select_nonzero_from {A : Type} (d : A) (k : nat) (l : list A)
    (m : list bool) :
  length l = length m ->
  mask_select l m = map (fun i => nth (i - k) l d) (nonzero_from k m).
Proof.
  revert k m. induction l as [|x l IH]; intros k [|b m] Hlen;
    simpl in Hlen; try reflexivity; try discriminate.
  assert (Hmap : map (fun i => nth (i - k) (x :: l) d) (nonzero_from (S k) m)
                 = map (fun i => nth (i - S k) l d) (nonzero_from (S k) m)).
  { apply map_ext_in. intros i Hi. apply nonzero_from_In in Hi.
    replace (i - k)%nat with (S (i - S k)) by lia. reflexivity. }
  destruct b; cbn [mask_select nonzero_from map].
  - rewrite Nat.sub_diag, Hmap. cbn [nth]. f_equal. apply IH. lia.
  - rewrite Hmap. apply IH. lia.
Qed.

Lemma mask_select_nonzero {A : Type} (d : A) (l : list A) (m : list bool) :
  length l = length m ->
  mask_select l m = map (fun i => nth i l d) (nonzero m).
Proof.
  intros H. rewrite (mask_select_nonzero_from d 0 l m H).
  apply map_ext. intros i. now rewrite Nat.sub_0_r.
Qed.

Lemma StronglySorted_lt_NoDup (l : list nat) : StronglySorted lt l -> NoDup l.
Proof.
  induction 1 as [|x l _ IH HF]; constructor; [|exact IH].
  intros Hin. rewrite Forall_forall in HF. specialize (HF _ Hin). lia.
Qed.

(** *** The stable sort *)

Section Sort.

Context {A : Type} (key : A -> Q).

Lemma insert_desc_perm (x : A) (l : list A) :
  Permutation (insert_desc key x l) (x :: l).
Proof.
  induction l as [|y l IH]; simpl; [reflexivity|].
  destruct (Qle_bool (key y) (key x)); [reflexivity|].
  rewrite IH. apply perm_swap.
Qed.

Lemma sort_desc_by_perm (l : list A) : Permutation (sort_desc_by key l) l.
Proof.
  induction l as [|x l IH]; simpl; [reflexivity|].
  rewrite insert_desc_perm. now constructor.
Qed.

Lemma insert_desc_sorted (x : A) (l : list A) :
  StronglySorted (desc key) l -> StronglySorted (desc key) (insert_desc key x l).
Proof.
  induction 1 as [|y l Hs IH HF]; simpl.
  - constructor; constructor.
  - destruct (Qle_bool (key y) (key x)) eqn:E.
    + apply Qle_bool_iff in E. constructor; [now constructor|].
      constructor; [exact E|]. eapply Forall_impl; [|exact HF].
      unfold desc. intros a Ha. eapply Qle_trans; eassumption.
    + constructor; [exact IH|].
      assert (Hxy : key x <= key y).
      { apply Qlt_le_weak, Qnot_le_lt. rewrite <- Qle_bool_iff. congruence. }
      eapply Permutation_Forall; [symmetry; apply insert_desc_perm|].
      constructor; assumption.
Qed.

Lemma sort_desc_by_sorted (l : list A) :
  StronglySorted (desc key) (sort_desc_by key l).
Proof.
  induction l as [|x l IH]; simpl; [constructor|].
  now apply insert_desc_sorted.
Qed.

(** A list that is already in descending order is left as it is. *)
Lemma sort_desc_by_id (l : list A) :
  StronglySorted (desc key) l -> sort_desc_by key l = l.
Proof.
  induction 1 as [|x l Hs IH HF]; simpl; [reflexivity|].
  rewrite IH. destruct l as [|y l']; simpl; [reflexivity|].
  inversion HF as [|? ? Hxy _]; subst.
  apply Qle_bool_iff in Hxy. now rewrite Hxy.
Qed.

Lemma insert_desc_head (x : A) (l : list A) :
  Forall (fun z => key z <= key x) l -> insert_desc key x l = x :: l.
Proof.
  destruct 1 as [|y l Hy _]; simpl; [reflexivity|].
  apply Qle_bool_iff in Hy. now rewrite Hy.
Qed.

Lemma insert_desc_filter (P : A -> bool) (x : A) (l : list A) :
  StronglySorted (desc key) l ->
  filter P (insert_desc key x l) =
  if P x then insert_desc key x (filter P l) else filter P l.
Proof.
  induction 1 as [|y l Hs IH HF]; simpl.
  - destruct (P x); reflexivity.
  - destruct (Qle_bool (key y) (key x)) eqn:E.
    + cbn [filter]. destruct (P x); [|reflexivity].
      rewrite insert_desc_head; [reflexivity|].
      apply Qle_bool_iff in E.
      apply Forall_forall. intros z Hz.
      assert (Hz' : In z (y :: l)).
      { destruct (P y); [|right]; try (apply filter_In in Hz; tauto).
        destruct Hz as [<-|Hz]; [now left|right].
        apply filter_In in Hz; tauto. }
      destruct Hz' as [<-|Hz']; [exact E|].
      rewrite Forall_forall in HF. specialize (HF _ Hz').
      unfold desc in HF. eapply Qle_trans; eassumption.
    + cbn [filter]. rewrite IH.
      destruct (P x), (P y); simpl; rewrite ?E; reflexivity.
Qed.

Lemma sort_desc_by_filter (P : A -> bool) (l : list A) :
  filter P (sort_desc_by key l) = sort_desc_by key (filter P l).
Proof.
  induction l as [|x l IH]; simpl; [reflexivity|].
  rewrite insert_desc_filter by apply sort_desc_by_sorted.
  rewrite IH. destruct (P x); reflexivity.
Qed.

End Sort.

Lemma insert_desc_map {A B : Type} (key : B -> Q) (f : A -> B) (x : A)
    (l : list A) :
  map f (insert_desc (fun a => key (f a)) x l) =
  insert_desc key (f x) (map f l).
Proof.
  induction l as [|y l IH]; simpl; [reflexivity|].
  destruct (Qle_bool (key (f y)) (key (f x))); simpl; [reflexivity|].
  now rewrite IH.
Qed.

Lemma sort_desc_by_map {A B : Type} (key : B -> Q) (f : A -> B)
    (l : list A) :
  map f (sort_desc_by (fun a => key (f a)) l) = sort_desc_by key (map f l).
Proof.
  induction l as [|x l IH]; simpl; [reflexivity|].
  now rewrite insert_desc_map, IH.
Qed.

Lemma insert_desc_ext {A : Type} (key key' : A -> Q) (x : A) (l : list A) :
  (forall a, In a (x :: l) -> key a == key' a) ->
  insert_desc key x l = insert_desc key' x l.
Proof.
  induction l as [|y l IH]; intros H; simpl; [reflexivity|].
  rewrite (H x), (H y) by (simpl; auto).
  destruct (Qle_bool (key' y) (key' x)); [reflexivity|].
  f_equal. apply IH. intros a [<-|Ha]; apply H; simpl; auto.
Qed.

Lemma sort_desc_by_ext {A : Type} (key key' : A -> Q) (l : list A) :
  (forall a, In a l -> key a == key' a) ->
  sort_desc_by key l = sort_desc_by key' l.
Proof.
  induction l as [|x l IH]; intros H; simpl; [reflexivity|].
  rewrite IH by (intros a Ha; apply H; now right).
  apply insert_desc_ext. intros a [<-|Ha]; apply H; [now left|right].
  eapply Permutation_in; [apply sort_desc_by_perm|exact Ha].
Qed.

End TorchFacts.

(** ** Facts on the greedy scan *)

Module GreedyFacts.
Import Torch PurePytorchNms NmsSpec TorchFacts.

Lemma put_length {A : Type} (l : list A) (i : nat) (v : A) :
  length (put l i v) = length l.
Proof.
  revert i. induction l as [|x l IH]; intros [|i]; simpl; auto.
Qed.

Lemma put_nth {A : Type} (l : list A) (i j : nat) (v d : A) :
  (i < length l)%nat ->
  nth j (put l i v) d = if Nat.eqb j i then v else nth j l d.
Proof.
  revert i j. induction l as [|x l IH]; intros [|i] [|j] H; simpl in *;
    try lia; try reflexivity.
  apply IH. lia.
Qed.

Section Scan.

Variable ov : nat -> nat -> bool.

Lemma mark_length (i : nat) (supp : list bool) (j : nat) :
  length (mark ov i supp j) = length supp.
Proof.
  unfold mark. destruct (_ && _); [apply put_length | reflexivity].
Qed.

Lemma mark_nth (i : nat) (supp : list bool) (j j' : nat) :
  (j < length supp)%nat ->
  nth j' (mark ov i supp j) false =
  if Nat.eqb j' j then nth j supp false || ov i j else nth j' supp false.
Proof.
  intros Hj. unfold mark.
  destruct (nth j supp false) eqn:Es; simpl.
  - destruct (Nat.eqb_spec j' j) as [->|_]; [exact Es | reflexivity].
  - destruct (ov i j) eqn:Eo.
    + rewrite put_nth by exact Hj. reflexivity.
    + destruct (Nat.eqb_spec j' j) as [->|_]; [exact Es | reflexivity].
Qed.

Lemma fold_mark_length (i : nat) (later : list nat) (supp : list bool) :
  length (fold_left (mark ov i) later supp) = length supp.
Proof.
  revert supp. induction later as [|j later IH]; intros supp; simpl;
    [reflexivity|].
  now rewrite IH, mark_length.
Qed.

Lemma fold_mark_nth (i : nat) (later : list nat) (supp : list bool)
    (j : nat) :
  NoDup later ->
  (forall k, In k later -> (k < length supp)%nat) ->
  nth j (fold_left (mark ov i) later supp) false =
  if existsb (Nat.eqb j) later then nth j supp false || ov i j
  else nth j supp false.
Proof.
  revert supp. induction later as [|k later IH]; intros supp Hnd Hlt; simpl;
    [reflexivity|].
  inversion Hnd as [|? ? Hnin Hnd']; subst.
  rewrite IH; [|exact Hnd'|].
  - rewrite !mark_nth by (apply Hlt; now left).
    destruct (Nat.eqb_spec j k) as [->|Hne]; simpl; [|reflexivity].
    destruct (existsb (Nat.eqb k) later) eqn:E; [|reflexivity].
    apply existsb_exists in E. destruct E as (x & Hx & Hkx).
    apply Nat.eqb_eq in Hkx. subst x. contradiction.
  - intros k' Hk'. rewrite mark_length. apply Hlt. now right.
Qed.

Lemma existsb_eqb_In (j : nat) (l : list nat) :
  existsb (Nat.eqb j) l = true <-> In j l.
Proof.
  rewrite existsb_exists. split.
  - intros (x & Hx & E). apply Nat.eqb_eq in E. now subst.
  - intros H. exists j. split; [exact H | apply Nat.eqb_refl].
Qed.

Lemma agrees_mark (i : nat) (later : list nat) (supp : list bool)
    (kept : list nat) :
  NoDup (i :: later) ->
  agrees ov supp kept (i :: later) ->
  agrees ov (fold_left (mark ov i) later supp) (i :: kept) later.
Proof.
  intros Hnd Hag j Hj. inversion Hnd as [|? ? _ Hnd']; subst.
  destruct (Hag j (or_intror Hj)) as [Hlt Hnth].
  split; [now rewrite fold_mark_length|].
  rewrite fold_mark_nth;
    [|exact Hnd'|intros k Hk; apply (Hag k); now right].
  assert (E : existsb (Nat.eqb j) later = true) by now apply existsb_eqb_In.
  rewrite E, Hnth. simpl. apply orb_comm.
Qed.

Lemma agrees_tail (i : nat) (later : list nat) (supp : list bool)
    (kept : list nat) :
  agrees ov supp kept (i :: later) -> agrees ov supp kept later.
Proof.
  intros H j Hj. apply H. now right.
Qed.

(** The scan with markers is the greedy selection. *)
Lemma scan_greedy (l : list nat) (supp : list bool) (kept : list nat) :
  NoDup l -> agrees ov supp kept l -> scan ov l supp = greedy ov kept l.
Proof.
  revert supp kept. induction l as [|i later IH]; intros supp kept Hnd Hag;
    simpl; [reflexivity|].
  destruct (Hag i (or_introl eq_refl)) as [_ Hi]. rewrite Hi.
  inversion Hnd as [|? ? _ Hnd']; subst.
  destruct (existsb (fun k => ov k i) kept).
  - apply IH; [exact Hnd' | eapply agrees_tail; exact Hag].
  - f_equal. apply IH; [exact Hnd' | now apply agrees_mark].
Qed.

Lemma fold_absorb (i : nat) (later : list nat) (supp : list bool)
    (g : list nat) :
  NoDup later ->
  (forall k, In k later -> (k < length supp)%nat) ->
  fold_left (absorb ov i) later (supp, g) =
  (fold_left (mark ov i) later supp,
   g ++ filter (fun j => negb (nth j supp false) && ov i j) later).
Proof.
  revert supp g. induction later as [|j later IH]; intros supp g Hnd Hlt;
    simpl.
  - now rewrite app_nil_r.
  - inversion Hnd as [|? ? Hnin Hnd']; subst.
    assert (Hrest : forall s',
      (forall j', j' <> j -> nth j' s' false = nth j' supp false) ->
      filter (fun j' => negb (nth j' s' false) && ov i j') later =
      filter (fun j' => negb (nth j' supp false) && ov i j') later).
    { intros s' Hs'. apply filter_ext_in. intros j' Hj'.
      rewrite Hs'; [reflexivity|]. intros ->. contradiction. }
    unfold absorb at 2, mark at 2. simpl.
    destruct (negb (nth j supp false) && ov i j) eqn:E.
    + rewrite IH; [|exact Hnd'|].
      * f_equal. rewrite <- app_assoc. simpl. f_equal. f_equal.
        apply Hrest. intros j' Hne. rewrite put_nth by (apply Hlt; now left).
        destruct (Nat.eqb_spec j' j); [contradiction | reflexivity].
      * intros k Hk. rewrite put_length. apply Hlt. now right.
    + rewrite IH; [reflexivity|exact Hnd'|].
      intros k Hk. apply Hlt. now right.
Qed.

(** The matching scan yields the groups. *)
Lemma match_scan_groups (l : list nat) (supp : list bool) (kept : list nat) :
  NoDup l -> agrees ov supp kept l ->
  match_scan ov l supp = groups ov kept l.
Proof.
  revert supp kept. induction l as [|i later IH]; intros supp kept Hnd Hag;
    simpl; [reflexivity|].
  destruct (Hag i (or_introl eq_refl)) as [_ Hi]. rewrite Hi.
  inversion Hnd as [|? ? _ Hnd']; subst.
  destruct (existsb (fun k => ov k i) kept).
  - apply IH; [exact Hnd' | eapply agrees_tail; exact Hag].
  - rewrite fold_absorb;
      [|exact Hnd'|intros k Hk; apply (Hag k); now right].
    simpl. f_equal.
    + f_equal. apply filter_ext_in. intros j Hj.
      destruct (Hag j (or_intror Hj)) as [_ ->]. reflexivity.
    + apply IH; [exact Hnd' | now apply agrees_mark].
Qed.

Lemma agrees_init (n : nat) (l : list nat) :
  (forall j, In j l -> (j < n)%nat) -> agrees ov (repeat false n) [] l.
Proof.
  intros H j Hj. rewrite repeat_length. split; [now apply H|].
  simpl. destruct (nth_in_or_default j (repeat false n) false) as [Hin|E];
    [|exact E].
  now apply repeat_spec in Hin.
Qed.

End Scan.

Section GreedyProps.

Variable ov : nat -> nat -> bool.

Lemma greedy_In (kept l : list nat) (a : nat) :
  In a (greedy ov kept l) -> In a l.
Proof.
  revert kept. induction l as [|b r IH]; intros kept; simpl; [tauto|].
  destruct (existsb (fun k => ov k b) kept).
  - intros H. right. eapply IH; exact H.
  - intros [->|H]; [now left | right; eapply IH; exact H].
Qed.

(** A kept index is not overlapped by an index kept before the scan. *)
Lemma greedy_clear (kept l : list nat) (a : nat) :
  In a (greedy ov kept l) -> existsb (fun k => ov k a) kept = false.
Proof.
  revert kept. induction l as [|b r IH]; intros kept; simpl; [tauto|].
  destruct (existsb (fun k => ov k b) kept) eqn:E.
  - apply IH.
  - intros [<-|H]; [exact E|].
    apply IH in H. simpl in H. now apply orb_false_iff in H.
Qed.

(** No kept index overlaps an index kept after it. *)
Lemma greedy_pairs (kept l : list nat) :
  ForallOrdPairs (fun a b => ov a b = false) (greedy ov kept l).
Proof.
  revert kept. induction l as [|b r IH]; intros kept; simpl; [constructor|].
  destruct (existsb (fun k => ov k b) kept); [apply IH|].
  constructor; [|apply IH].
  apply Forall_forall. intros x Hx. apply greedy_clear in Hx.
  simpl in Hx. now apply orb_false_iff in Hx.
Qed.

Lemma greedy_sorted (R : nat -> nat -> Prop) (kept l : list nat) :
  StronglySorted R l -> StronglySorted R (greedy ov kept l).
Proof.
  intros Hs. revert kept.
  induction Hs as [|b r Hs IH HF]; intros kept; simpl; [constructor|].
  destruct (existsb (fun k => ov k b) kept); [apply IH|].
  constructor; [apply IH|].
  apply Forall_forall. intros x Hx. apply greedy_In in Hx.
  rewrite Forall_forall in HF. now apply HF.
Qed.

Lemma greedy_NoDup (kept l : list nat) :
  NoDup l -> NoDup (greedy ov kept l).
Proof.
  intros Hnd. revert kept.
  induction Hnd as [|b r Hnin Hnd IH]; intros kept; simpl; [constructor|].
  destruct (existsb (fun k => ov k b) kept); [apply IH|].
  constructor; [|apply IH]. intros Hin. apply greedy_In in Hin. contradiction.
Qed.

(** Where nothing overlaps, everything is kept. *)
Lemma greedy_all (kept l : list nat) :
  (forall a, In a l -> existsb (fun k => ov k a) kept = false) ->
  ForallOrdPairs (fun a b => ov a b = false) l ->
  greedy ov kept l = l.
Proof.
  intros Hk Hp. revert kept Hk.
  induction Hp as [|b r HF Hp IH]; intros kept Hk; simpl; [reflexivity|].
  rewrite (Hk b) by now left. f_equal. apply IH.
  intros a Ha. simpl. rewrite Forall_forall in HF.
  rewrite (HF a Ha), (Hk a) by now right. reflexivity.
Qed.

Lemma existsb_filter_kept (P : nat -> bool) (kept : list nat) (a : nat) :
  (forall k, In k kept -> ov k a = true -> P k = true) ->
  existsb (fun k => ov k a) (filter P kept) =
  existsb (fun k => ov k a) kept.
Proof.
  induction kept as [|k kept IH]; intros H; simpl; [reflexivity|].
  assert (IH' := IH (fun k' Hk' => H k' (or_intror Hk'))).
  destruct (P k) eqn:Ep; simpl; rewrite IH'; [reflexivity|].
  destruct (ov k a) eqn:Eo; [|reflexivity].
  rewrite (H k (or_introl eq_refl) Eo) in Ep. discriminate.
Qed.

(** When only indices of the same kind overlap, the selection of one kind
    can be made on the indices of that kind alone. *)
Lemma greedy_filter (P : nat -> bool) (kept l : list nat) :
  (forall a b, In a (kept ++ l) -> In b l -> ov a b = true -> P a = P b) ->
  filter P (greedy ov kept l) = greedy ov (filter P kept) (filter P l).
Proof.
  revert kept. induction l as [|b r IH]; intros kept H; simpl; [reflexivity|].
  assert (Hr : forall kept',
             (forall k, In k kept' -> In k (b :: kept)) ->
             forall a c, In a (kept' ++ r) -> In c r -> ov a c = true ->
                         P a = P c).
  { intros kept' Hin a c Ha Hc. apply H; [|now right].
    apply in_app_iff in Ha. apply in_app_iff. destruct Ha as [Ha|Ha].
    - destruct (Hin _ Ha) as [<-|Hk]; [right; now left | now left].
    - right. now right. }
  destruct (P b) eqn:Eb.
  - simpl. rewrite existsb_filter_kept.
    + destruct (existsb (fun k => ov k b) kept).
      * apply IH, Hr. intros k Hk. now right.
      * simpl. rewrite Eb. f_equal.
        rewrite IH by (apply Hr; intros k Hk; exact Hk).
        simpl. now rewrite Eb.
    + intros k Hk Eo. rewrite <- Eb. apply H; auto.
      * apply in_app_iff. now left.
      * now left.
  - destruct (existsb (fun k => ov k b) kept).
    + apply IH, Hr. intros k Hk. now right.
    + simpl. rewrite Eb.
      rewrite IH by (apply Hr; intros k Hk; exact Hk).
      simpl. now rewrite Eb.
Qed.

Lemma greedy_ext (ov' : nat -> nat -> bool) (kept l : list nat) :
  (forall a b, In a (kept ++ l) -> In b l -> ov a b = ov' a b) ->
  greedy ov kept l = greedy ov' kept l.
Proof.
  revert kept. induction l as [|b r IH]; intros kept H; simpl; [reflexivity|].
  assert (E : existsb (fun k => ov k b) kept =
              existsb (fun k => ov' k b) kept).
  { clear IH. induction kept as [|k kept IHk]; simpl; [reflexivity|].
    rewrite (H k b) by (simpl; auto). f_equal. apply IHk.
    intros a c Ha Hc. apply H; [now right | exact Hc]. }
  rewrite E. destruct (existsb (fun k => ov' k b) kept).
  - apply IH. intros a c Ha Hc. apply H; [|now right].
    apply in_app_iff in Ha. apply in_app_iff. destruct Ha; [left|right]; auto.
    now right.
  - f_equal. apply IH. intros a c Ha Hc. apply H; [|now right].
    apply in_app_iff. destruct Ha as [<-|Ha]; [right; now left|].
    apply in_app_iff in Ha. destruct Ha; [left|right]; auto. now right.
Qed.

(** The groups hold exactly the indices that were not suppressed before. *)
Lemma concat_groups_perm (kept l : list nat) :
  Permutation (concat (groups ov kept l))
              (filter (fun j => negb (existsb (fun k => ov k j) kept)) l).
Proof.
  revert kept. induction l as [|a r IH]; intros kept; simpl; [constructor|].
  destruct (existsb (fun k => ov k a) kept) eqn:E; simpl; [apply IH|].
  constructor. rewrite IH. clear IH E.
  induction r as [|b r IHr]; simpl; [constructor|].
  rewrite orb_comm.
  destruct (existsb (fun k => ov k b) kept); simpl; [exact IHr|].
  destruct (ov a b); simpl.
  - now constructor.
  - rewrite <- IHr. symmetry. apply Permutation_middle.
Qed.

Lemma groups_nonempty (kept l : list nat) :
  Forall (fun g => g <> []) (groups ov kept l).
Proof.
  revert kept. induction l as [|a r IH]; intros kept; simpl; [constructor|].
  destruct (existsb (fun k => ov k a) kept); [apply IH|].
  constructor; [discriminate | apply IH].
Qed.

(** In an ordered scan the head of a group precedes its members. *)
Lemma groups_head (R : nat -> nat -> Prop) (kept l : list nat) :
  StronglySorted R l ->
  Forall (fun g => forall j, In j (tl g) -> R (hd O g) j) (groups ov kept l).
Proof.
  intros Hs. revert kept.
  induction Hs as [|a r Hs IH HF]; intros kept; simpl; [constructor|].
  destruct (existsb (fun k => ov k a) kept); [apply IH|].
  constructor; [|apply IH]. simpl. intros j Hj.
  apply filter_In in Hj. rewrite Forall_forall in HF. apply HF, Hj.
Qed.

End GreedyProps.

Lemma existsb_map_kept (ov : nat -> nat -> bool) (f : nat -> nat)
    (kept : list nat) (a : nat) :
  existsb (fun k => ov k (f a)) (map f kept) =
  existsb (fun k => ov (f k) (f a)) kept.
Proof.
  induction kept as [|k kept IH]; simpl; [reflexivity|]. now rewrite IH.
Qed.

(** The selection commutes with a renaming of the indices. *)
Lemma greedy_map (ov : nat -> nat -> bool) (f : nat -> nat)
    (kept l : list nat) :
  map f (greedy (fun a b => ov (f a) (f b)) kept l) =
  greedy ov (map f kept) (map f l).
Proof.
  revert kept. induction l as [|a r IH]; intros kept; simpl; [reflexivity|].
  rewrite existsb_map_kept.
  destruct (existsb (fun k => ov (f k) (f a)) kept); [apply IH|].
  simpl. f_equal. apply (IH (a :: kept)).
Qed.

End GreedyFacts.

(** ** Facts on the kernels and on [nms] *)

Module NmsFacts.
Import Torch PurePytorchNms Nms NmsSpec TorchFacts GreedyFacts.

(** *** The overlap measure *)

Lemma intersection_sym (a b : list Q) (o : Q) :
  intersection a b o == intersection b a o.
Proof.
  unfold intersection.
  rewrite (Q.min_comm (coord 2 a)), (Q.max_comm (coord 0 a)),
          (Q.min_comm (coord 3 a)), (Q.max_comm (coord 1 a)).
  reflexivity.
Qed.

Lemma iou_sym (a b : list Q) (o : Q) : iou a b o == iou b a o.
Proof.
  unfold iou.
  assert (E : area a o + area b o - intersection a b o ==
              area b o + area a o - intersection b a o).
  { rewrite (intersection_sym a b). ring. }
  rewrite E. destruct (Qle_bool _ 0); [reflexivity|].
  now rewrite E, (intersection_sym a b).
Qed.

Lemma overlaps_sym (boxes : tensor2) (thr : Q) (i j : nat) :
  overlaps boxes thr i j = overlaps boxes thr j i.
Proof.
  unfold overlaps. now rewrite iou_sym.
Qed.

Lemma overlaps_false_iff (boxes : tensor2) (thr : Q) (i j : nat) :
  overlaps boxes thr i j = false <-> iou (row boxes i) (row boxes j) 0 <= thr.
Proof.
  unfold overlaps, row. apply Qlt_bool_false_iff.
Qed.

(** *** The sorted order *)

Lemma argsort_desc_perm (s : list Q) :
  Permutation (argsort_desc s) (seq 0 (length s)).
Proof.
  apply sort_desc_by_perm.
Qed.

Lemma sort_desc_by_NoDup {A : Type} (key : A -> Q) (l : list A) :
  NoDup l -> NoDup (sort_desc_by key l).
Proof.
  intros H. eapply Permutation_NoDup; [symmetry; apply sort_desc_by_perm|].
  exact H.
Qed.

Lemma sort_desc_by_In {A : Type} (key : A -> Q) (l : list A) (a : A) :
  In a (sort_desc_by key l) <-> In a l.
Proof.
  split; apply Permutation_in;
    [apply sort_desc_by_perm | symmetry; apply sort_desc_by_perm].
Qed.

(** *** The kernel on a part of the arrays *)

Lemma row_sub2 (t : tensor2) (sel : list nat) (k : nat) :
  (k < length sel)%nat -> row (sub2 t sel) k = row t (nth k sel O).
Proof.
  intros Hk. unfold row, sub2. simpl.
  rewrite (nth_indep _ [] (nth 0 (rows t) [])) by now rewrite length_map.
  apply (map_nth (fun i => nth i (rows t) [])).
Qed.

Lemma get_sub (s : list Q) (sel : list nat) (k : nat) :
  (k < length sel)%nat -> get (sub s sel) k = get s (nth k sel O).
Proof.
  intros Hk. unfold get, sub.
  rewrite (nth_indep _ 0 (nth 0 s 0)) by now rewrite length_map.
  apply (map_nth (fun i => nth i s 0)).
Qed.

Lemma overlaps_sub2 (t : tensor2) (thr : Q) (sel : list nat) (k1 k2 : nat) :
  (k1 < length sel)%nat -> (k2 < length sel)%nat ->
  overlaps (sub2 t sel) thr k1 k2 =
  overlaps t thr (nth k1 sel O) (nth k2 sel O).
Proof.
  intros H1 H2. unfold overlaps.
  change (nth k1 (rows (sub2 t sel)) []) with (row (sub2 t sel) k1).
  change (nth k2 (rows (sub2 t sel)) []) with (row (sub2 t sel) k2).
  now rewrite !row_sub2.
Qed.

Lemma nms_pytorch_greedy (boxes : tensor2) (scores : list Q) (thr : Q) :
  nms_pytorch boxes scores thr =
  greedy (overlaps boxes thr) [] (argsort_desc scores).
Proof.
  unfold nms_pytorch. apply scan_greedy.
  - apply sort_desc_by_NoDup, seq_NoDup.
  - apply agrees_init. intros j Hj. apply sort_desc_by_In, in_seq in Hj. lia.
Qed.

Lemma map_nth_seq_sel (sel : list nat) :
  map (fun k => nth k sel O) (seq 0 (length sel)) = sel.
Proof.
  apply map_nth_seq.
Qed.

(** A renaming through [sel] of what is kept of the part [sel]. *)
Lemma greedy_sorted_sub (boxes : tensor2) (scores : list Q) (thr : Q)
    (sel l : list nat) :
  (forall k, In k l -> (k < length sel)%nat) ->
  map (fun k => nth k sel O)
      (greedy (overlaps (sub2 boxes sel) thr) []
              (sort_desc_by (get (sub scores sel)) l)) =
  greedy (overlaps boxes thr) []
         (sort_desc_by (get scores) (map (fun k => nth k sel O) l)).
Proof.
  intros Hl.
  rewrite <- (sort_desc_by_map (get scores) (fun k => nth k sel O)).
  rewrite <- (greedy_map (overlaps boxes thr) (fun k => nth k sel O) []).
  f_equal.
  rewrite (sort_desc_by_ext (get (sub scores sel))
             (fun k => get scores (nth k sel O))).
  - apply greedy_ext. simpl. intros a b Ha Hb.
    apply sort_desc_by_In in Ha, Hb. apply overlaps_sub2; auto.
  - intros a Ha. rewrite get_sub by auto. reflexivity.
Qed.

Lemma nonzero_from_map {A : Type} (p : A -> bool) (d : A) (k : nat)
    (l : list A) :
  nonzero_from k (map p l) =
  filter (fun i => p (nth (i - k) l d)) (seq k (length l)).
Proof.
  revert k. induction l as [|x l IH]; intros k; simpl; [reflexivity|].
  rewrite Nat.sub_diag.
  assert (E : filter (fun i => p (nth (i - S k) l d)) (seq (S k) (length l)) =
              filter (fun i => p match (i - k)%nat with
                                 | O => x
                                 | S m => nth m l d
                                 end) (seq (S k) (length l))).
  { apply filter_ext_in. intros i Hi. apply in_seq in Hi.
    replace (i - k)%nat with (S (i - S k)) by lia. reflexivity. }
  rewrite <- E, <- IH. reflexivity.
Qed.

Lemma nonzero_map {A : Type} (p : A -> bool) (d : A) (l : list A) :
  nonzero (map p l) = filter (fun i => p (nth i l d)) (seq 0 (length l)).
Proof.
  unfold nonzero. rewrite (nonzero_from_map p d).
  apply filter_ext. intros i. now rewrite Nat.sub_0_r.
Qed.

Lemma cap_map {A B : Type} (f : A -> B) (max_num : Z) (l : list A) :
  map f (cap max_num l) = cap max_num (map f l).
Proof.
  unfold cap. destruct (0 <? max_num)%Z; [symmetry; apply firstn_map | reflexivity].
Qed.

Lemma firstn_In {A : Type} (n : nat) (l : list A) (a : A) :
  In a (firstn n l) -> In a l.
Proof.
  intros H. rewrite <- (firstn_skipn n l). apply in_app_iff. now left.
Qed.

Lemma cap_In {A : Type} (max_num : Z) (l : list A) (a : A) :
  In a (cap max_num l) -> In a l.
Proof.
  unfold cap. destruct (0 <? max_num)%Z; [apply firstn_In | auto].
Qed.

Lemma candidates_In (scores : list Q) (st : Q) (sel : list nat) (i : nat) :
  In i (candidates scores st sel) -> In i sel.
Proof.
  unfold candidates. destruct (Qlt_bool 0 st); [|auto].
  intros H. now apply filter_In in H.
Qed.

Lemma nms_keep_on_In (boxes : tensor2) (scores : list Q) (thr st : Q)
    (mn : Z) (sel : list nat) (i : nat) :
  In i (nms_keep_on boxes scores thr st mn sel) -> In i sel.
Proof.
  unfold nms_keep_on. intros H.
  apply cap_In, greedy_In, sort_desc_by_In, candidates_In in H. exact H.
Qed.

Lemma nms_keep_lt (boxes : tensor2) (scores : list Q) (thr st : Q) (mn : Z) :
  Forall (fun i => (i < length scores)%nat) (nms_keep boxes scores thr st mn).
Proof.
  apply Forall_forall. intros i Hi. apply nms_keep_on_In, in_seq in Hi. lia.
Qed.

(** What [NMSop.forward] returns. *)
Lemma NMSop_forward_keep (boxes : tensor2) (scores : list Q) (thr : Q)
    (off : Z) (st : Q) (mn : Z) :
  size0 boxes = length scores ->
  NMSop_forward boxes scores thr off st mn =
  Ok (nms_keep boxes scores thr st mn).
Proof.
  intros Hlen. unfold NMSop_forward, nms_keep, nms_keep_on, candidates.
  destruct (Qlt_bool 0 st) eqn:Est.
  - unfold index_mask2, index_mask. unfold size0 in Hlen.
    rewrite length_map, Hlen, Nat.eqb_refl. simpl.
    rewrite (mask_select_nonzero [] (rows boxes))
      by now rewrite length_map.
    rewrite (mask_select_nonzero 0 scores) by now rewrite length_map.
    set (V := nonzero (map (Qlt_bool st) scores)).
    change (T2 (ncol boxes) (map (fun i => nth i (rows boxes) []) V))
      with (sub2 boxes V).
    change (map (fun i => nth i scores 0) V) with (sub scores V).
    rewrite nms_pytorch_greedy. unfold argsort_desc.
    replace (length (sub scores V)) with (length V)
      by (unfold sub; now rewrite length_map).
    assert (HV : V = filter (fun i => Qlt_bool st (get scores i))
                            (seq 0 (length scores))).
    { unfold V. apply (nonzero_map (Qlt_bool st) 0). }
    fold (cap mn (greedy (overlaps (sub2 boxes V) thr) []
                    (sort_desc_by (get (sub scores V)) (seq 0 (length V))))).
    rewrite (index_ok O).
    + rewrite cap_map, greedy_sorted_sub.
      * now rewrite map_nth_seq_sel, HV.
      * intros k Hk. apply in_seq in Hk. lia.
    + apply Forall_forall. intros k Hk.
      apply cap_In, greedy_In, sort_desc_by_In, in_seq in Hk. lia.
  - simpl. now rewrite nms_pytorch_greedy.
Qed.

Lemma append_col_map_gen {A : Type} (f : A -> list Q) (g : A -> Q)
    (l : list A) :
  append_col (map f l) (map g l) = map (fun i => f i ++ [g i]) l.
Proof.
  induction l as [|i l IH]; simpl; [reflexivity | now rewrite IH].
Qed.

Lemma append_col_map (f : nat -> list Q) (g : nat -> Q) (l : list nat) :
  append_col (map f l) (map g l) = map (fun i => f i ++ [g i]) l.
Proof.
  apply append_col_map_gen.
Qed.

(** [dets[inds]] and the scores of given indices, in range. *)
Lemma index2_ok (t : tensor2) (inds : list nat) :
  Forall (fun i => (i < size0 t)%nat) inds ->
  index2 t inds = Ok (sub2 t inds).
Proof.
  intros H. unfold index2. now rewrite (index_ok [] (rows t) inds H).
Qed.

Lemma index_scores_ok (s : list Q) (inds : list nat) :
  Forall (fun i => (i < length s)%nat) inds ->
  index s inds = Ok (sub s inds).
Proof.
  intros H. now rewrite (index_ok 0 s inds H).
Qed.

Lemma cat_col_sub (boxes : tensor2) (scores : list Q) (inds : list nat) :
  cat_col (sub2 boxes inds) (sub scores inds) = Ok (dets_of boxes scores inds).
Proof.
  unfold cat_col, sub2, sub, size0. simpl.
  rewrite !length_map, Nat.eqb_refl. unfold dets_of.
  now rewrite append_col_map.
Qed.

(** What [nms] returns on arrays of the right shape. *)
Lemma nms_ok (boxes : tensor2) (scores : list Q) (thr : Q) (off : Z)
    (st : Q) (mn : Z) :
  ncol boxes = 4%nat -> size0 boxes = length scores ->
  off = 0%Z \/ off = 1%Z ->
  nms boxes scores thr off st mn =
  Ok (dets_of boxes scores (nms_keep boxes scores thr st mn),
      nms_keep boxes scores thr st mn).
Proof.
  intros Hc Hn Hoff. unfold nms.
  rewrite Hc, Hn, !Nat.eqb_refl. simpl.
  replace ((off =? 0)%Z || (off =? 1)%Z) with true
    by (destruct Hoff; subst; reflexivity).
  simpl. rewrite NMSop_forward_keep by exact Hn. simpl.
  rewrite index2_ok by (rewrite Hn; apply nms_keep_lt). simpl.
  rewrite index_scores_ok by apply nms_keep_lt. simpl.
  rewrite cat_col_sub. reflexivity.
Qed.

Lemma assert_inv (b : bool) (u : unit) : assert b = Ok u -> b = true.
Proof.
  destruct b; [reflexivity | discriminate].
Qed.

(** Whenever [nms] returns, its arguments had the right shape. *)
Lemma nms_inv (boxes : tensor2) (scores : list Q) (thr : Q) (off : Z)
    (st : Q) (mn : Z) (dets : tensor2) (inds : list nat) :
  nms boxes scores thr off st mn = Ok (dets, inds) ->
  ncol boxes = 4%nat /\ size0 boxes = length scores /\
  (off = 0%Z \/ off = 1%Z) /\
  inds = nms_keep boxes scores thr st mn /\
  dets = dets_of boxes scores inds.
Proof.
  intros H0. assert (H := H0). unfold nms in H.
  apply bind_ok_inv in H. destruct H as (u1 & H1 & H).
  apply bind_ok_inv in H. destruct H as (u2 & H2 & H).
  apply bind_ok_inv in H. destruct H as (u3 & H3 & _).
  apply assert_inv in H1, H2, H3.
  apply Nat.eqb_eq in H1, H2.
  assert (Hoff : off = 0%Z \/ off = 1%Z).
  { apply orb_true_iff in H3. destruct H3 as [H3|H3];
      apply Z.eqb_eq in H3; auto. }
  rewrite (nms_ok boxes scores thr off st mn H1 H2 Hoff) in H0.
  inversion H0. subst. repeat split; auto.
Qed.

(** *** What is kept *)

Lemma StronglySorted_firstn {A : Type} (R : A -> A -> Prop) (n : nat)
    (l : list A) :
  StronglySorted R l -> StronglySorted R (firstn n l).
Proof.
  intros H. revert n. induction H as [|a l Hs IH HF]; intros [|n]; simpl;
    try constructor; [apply IH|].
  apply Forall_forall. intros x Hx. apply firstn_In in Hx.
  rewrite Forall_forall in HF. now apply HF.
Qed.

Lemma ForallOrdPairs_firstn {A : Type} (R : A -> A -> Prop) (n : nat)
    (l : list A) :
  ForallOrdPairs R l -> ForallOrdPairs R (firstn n l).
Proof.
  intros H. revert n. induction H as [|a l HF Hp IH]; intros [|n]; simpl;
    try constructor; [|apply IH].
  apply Forall_forall. intros x Hx. apply firstn_In in Hx.
  rewrite Forall_forall in HF. now apply HF.
Qed.

Lemma StronglySorted_map_inv {A B : Type} (R : B -> B -> Prop) (f : A -> B)
    (l : list A) :
  StronglySorted R (map f l) ->
  StronglySorted (fun a b => R (f a) (f b)) l.
Proof.
  induction l as [|a l IH]; simpl; intros H; [constructor|].
  inversion H as [|? ? Hs HF]; subst. constructor; [now apply IH|].
  rewrite Forall_map in HF. exact HF.
Qed.

Lemma ForallOrdPairs_map_inv {A B : Type} (R : B -> B -> Prop) (f : A -> B)
    (l : list A) :
  ForallOrdPairs R (map f l) ->
  ForallOrdPairs (fun a b => R (f a) (f b)) l.
Proof.
  induction l as [|a l IH]; simpl; intros H; [constructor|].
  inversion H as [|? ? HF Hp]; subst. constructor; [|now apply IH].
  rewrite Forall_map in HF. exact HF.
Qed.

Lemma StronglySorted_impl_in {A : Type} (R R' : A -> A -> Prop)
    (l : list A) :
  (forall a b, In a l -> In b l -> R a b -> R' a b) ->
  StronglySorted R l -> StronglySorted R' l.
Proof.
  intros H Hs. induction Hs as [|a l Hs IH HF]; [constructor|].
  constructor.
  - apply IH. intros x y Hx Hy. apply H; now right.
  - rewrite Forall_forall in *. intros x Hx.
    apply H; [now left | now right | now apply HF].
Qed.

Lemma ForallOrdPairs_impl_in {A : Type} (R R' : A -> A -> Prop)
    (l : list A) :
  (forall a b, In a l -> In b l -> R a b -> R' a b) ->
  ForallOrdPairs R l -> ForallOrdPairs R' l.
Proof.
  intros H Hp. induction Hp as [|a l HF Hp IH]; [constructor|].
  constructor.
  - rewrite Forall_forall in *. intros x Hx.
    apply H; [now left | now right | now apply HF].
  - apply IH. intros x y Hx Hy. apply H; now right.
Qed.

Lemma cap_sorted {A : Type} (R : A -> A -> Prop) (mn : Z) (l : list A) :
  StronglySorted R l -> StronglySorted R (cap mn l).
Proof.
  unfold cap. destruct (0 <? mn)%Z; [apply StronglySorted_firstn | auto].
Qed.

Lemma cap_pairs {A : Type} (R : A -> A -> Prop) (mn : Z) (l : list A) :
  ForallOrdPairs R l -> ForallOrdPairs R (cap mn l).
Proof.
  unfold cap. destruct (0 <? mn)%Z; [apply ForallOrdPairs_firstn | auto].
Qed.

Lemma cap_id {A : Type} (mn : Z) (l : list A) :
  ((0 < mn)%Z -> (Z.of_nat (length l) <= mn)%Z) -> cap mn l = l.
Proof.
  unfold cap. destruct (0 <? mn)%Z eqn:E; [|reflexivity].
  intros H. apply Z.ltb_lt in E. apply firstn_all2. specialize (H E). lia.
Qed.

Lemma cap_length {A : Type} (mn : Z) (l : list A) :
  (0 < mn)%Z -> (Z.of_nat (length (cap mn l)) <= mn)%Z.
Proof.
  intros H. unfold cap. apply Z.ltb_lt in H as E. rewrite E.
  pose proof (firstn_le_length (Z.to_nat mn) l). lia.
Qed.

Lemma firstn_NoDup {A : Type} (n : nat) (l : list A) :
  NoDup l -> NoDup (firstn n l).
Proof.
  intros H. rewrite <- (firstn_skipn n l) in H.
  now apply NoDup_app_remove_r in H.
Qed.

Lemma cap_NoDup {A : Type} (mn : Z) (l : list A) :
  NoDup l -> NoDup (cap mn l).
Proof.
  unfold cap. destruct (0 <? mn)%Z; [apply firstn_NoDup | auto].
Qed.

Section Kept.

Variables (boxes : tensor2) (scores : list Q) (thr st : Q) (mn : Z).
Variable sel : list nat.

(** The kept indices come in descending order of their scores. *)
Lemma nms_keep_on_sorted :
  StronglySorted (desc (get scores))
                 (nms_keep_on boxes scores thr st mn sel).
Proof.
  apply cap_sorted, greedy_sorted, sort_desc_by_sorted.
Qed.

(** No kept index overlaps one kept after it. *)
Lemma nms_keep_on_pairs :
  ForallOrdPairs (fun i j => overlaps boxes thr i j = false)
                 (nms_keep_on boxes scores thr st mn sel).
Proof.
  apply cap_pairs, greedy_pairs.
Qed.

Lemma nms_keep_on_NoDup :
  NoDup sel -> NoDup (nms_keep_on boxes scores thr st mn sel).
Proof.
  intros H. apply cap_NoDup, greedy_NoDup, sort_desc_by_NoDup.
  unfold candidates. destruct (Qlt_bool 0 st); [|exact H].
  now apply NoDup_filter.
Qed.

(** With the filter on, the kept scores exceed the threshold. *)
Lemma nms_keep_on_score (i : nat) :
  In i (nms_keep_on boxes scores thr st mn sel) -> Qlt_bool 0 st = true ->
  Qlt_bool st (get scores i) = true.
Proof.
  intros Hi Hst. unfold nms_keep_on, candidates in Hi.
  rewrite Hst in Hi.
  apply cap_In, greedy_In, sort_desc_by_In, filter_In in Hi. tauto.
Qed.

Lemma nms_keep_on_length :
  (0 < mn)%Z ->
  (Z.of_nat (length (nms_keep_on boxes scores thr st mn sel)) <= mn)%Z.
Proof.
  apply cap_length.
Qed.

End Kept.

(** No two distinct kept indices overlap, in either order. *)
Lemma ForallOrdPairs_sym_In {A : Type} (R : A -> A -> Prop) (l : list A)
    (a b : A) :
  (forall x y, R x y -> R y x) ->
  ForallOrdPairs R l -> In a l -> In b l -> a <> b -> R a b.
Proof.
  intros Hsym Hp. induction Hp as [|x l HF Hp IH]; [intros []|].
  rewrite Forall_forall in HF.
  intros [->|Ha] [->|Hb] Hne; auto.
  - congruence.
Qed.

Lemma nms_keep_on_no_overlap (boxes : tensor2) (scores : list Q)
    (thr st : Q) (mn : Z) (sel : list nat) (i j : nat) :
  In i (nms_keep_on boxes scores thr st mn sel) ->
  In j (nms_keep_on boxes scores thr st mn sel) ->
  i <> j ->
  iou (row boxes i) (row boxes j) 0 <= thr.
Proof.
  intros Hi Hj Hne. apply overlaps_false_iff.
  apply (ForallOrdPairs_sym_In
           (fun i j => overlaps boxes thr i j = false)
           (nms_keep_on boxes scores thr st mn sel)); auto.
  - intros x y H. now rewrite overlaps_sym.
  - apply nms_keep_on_pairs.
Qed.

(** *** Running [nms] again *)

Lemma row_length (t : tensor2) (i : nat) :
  wf2 t -> (i < size0 t)%nat -> length (row t i) = ncol t.
Proof.
  intros Hwf Hi. unfold wf2 in Hwf. rewrite Forall_forall in Hwf.
  apply Hwf. unfold row. now apply nth_In.
Qed.

Lemma cols_dets_of (boxes : tensor2) (scores : list Q) (inds : list nat) :
  wf2 boxes -> ncol boxes = 4%nat ->
  Forall (fun i => (i < size0 boxes)%nat) inds ->
  cols 0 4 (dets_of boxes scores inds) = sub2 boxes inds.
Proof.
  intros Hwf Hc Hin. unfold cols, dets_of, sub2. cbn [ncol rows].
  rewrite Hc. f_equal. rewrite map_map. apply map_ext_in. intros i Hi.
  cbn [skipn Nat.sub]. rewrite Forall_forall in Hin.
  rewrite firstn_app, firstn_all2
    by (rewrite row_length; auto; lia).
  rewrite row_length by auto. rewrite Hc. simpl. apply app_nil_r.
Qed.

Lemma last_col_dets_of (boxes : tensor2) (scores : list Q)
    (inds : list nat) :
  last_col (dets_of boxes scores inds) = sub scores inds.
Proof.
  unfold last_col, dets_of, sub. simpl. rewrite map_map.
  apply map_ext. intros i. apply last_last.
Qed.

Lemma dets_of_sub (boxes : tensor2) (scores : list Q) (inds : list nat) :
  dets_of (sub2 boxes inds) (sub scores inds) (seq 0 (length inds)) =
  dets_of boxes scores inds.
Proof.
  unfold dets_of. cbn [ncol sub2]. f_equal.
  assert (E : map (fun i => row boxes i ++ [get scores i]) inds =
              map (fun i => row boxes i ++ [get scores i])
                  (map (fun k => nth k inds O) (seq 0 (length inds))))
    by now rewrite map_nth_seq_sel.
  rewrite E, map_map. apply map_ext_in. intros k Hk. apply in_seq in Hk.
  rewrite row_sub2, get_sub by lia. reflexivity.
Qed.

(** On its own output the selection keeps everything. *)
Lemma nms_keep_again (boxes : tensor2) (scores : list Q) (thr st : Q)
    (mn : Z) :
  let inds := nms_keep boxes scores thr st mn in
  nms_keep (sub2 boxes inds) (sub scores inds) thr st mn =
  seq 0 (length inds).
Proof.
  intros inds. set (m := length inds).
  set (f := fun k => nth k inds O).
  assert (Hf : map f (seq 0 m) = inds) by apply map_nth_seq_sel.
  unfold nms_keep at 1, nms_keep_on.
  replace (length (sub scores inds)) with m
    by (unfold sub; now rewrite length_map).
  assert (Hc : candidates (sub scores inds) st (seq 0 m) = seq 0 m).
  { unfold candidates. destruct (Qlt_bool 0 st) eqn:Est; [|reflexivity].
    apply forallb_filter_id, forallb_forall. intros k Hk.
    apply in_seq in Hk. rewrite get_sub by (fold m; lia).
    apply (nms_keep_on_score boxes scores thr st mn
             (seq 0 (length scores))); [|exact Est].
    apply nth_In. change (k < m)%nat. lia. }
  rewrite Hc.
  assert (Hs : sort_desc_by (get (sub scores inds)) (seq 0 m) = seq 0 m).
  { apply sort_desc_by_id.
    apply (StronglySorted_impl_in
             (fun a b => desc (get scores) (f a) (f b))).
    - intros a b Ha Hb. apply in_seq in Ha, Hb. unfold desc, f.
      rewrite !get_sub by (fold m; lia). auto.
    - apply StronglySorted_map_inv. rewrite Hf.
      apply nms_keep_on_sorted. }
  rewrite Hs.
  assert (Hg : greedy (overlaps (sub2 boxes inds) thr) [] (seq 0 m) =
               seq 0 m).
  { apply greedy_all; [reflexivity|].
    apply (ForallOrdPairs_impl_in
             (fun a b => overlaps boxes thr (f a) (f b) = false)).
    - intros a b Ha Hb. apply in_seq in Ha, Hb.
      rewrite overlaps_sub2 by (fold m; lia). auto.
    - apply (ForallOrdPairs_map_inv
               (fun i j => overlaps boxes thr i j = false)).
      rewrite Hf. apply nms_keep_on_pairs. }
  rewrite Hg. apply cap_id. intros Hmn. rewrite length_seq.
  apply nms_keep_on_length. exact Hmn.
Qed.

(** *** The boxes handed to the op *)

Lemma Qmax_cases (x y : Q) : Qmax x y = x \/ Qmax x y = y.
Proof.
  unfold Qmax, GenericMinMax.gmax. destruct (x ?= y); auto.
Qed.

Lemma fold_left_Qmax_largest (xs : list Q) (x : Q) :
  is_largest (fold_left Qmax xs x) (x :: xs).
Proof.
  revert x. induction xs as [|y xs IH]; intros x; simpl.
  - split; [now left|]. constructor; [apply Qle_refl | constructor].
  - destruct (IH (Qmax x y)) as [Hin HF].
    inversion HF as [|? ? Hm HF']; subst. split.
    + destruct Hin as [Hin|Hin]; [|right; now right].
      destruct (Qmax_cases x y) as [E|E]; [left | right; left]; congruence.
    + constructor; [|constructor]; auto.
      * eapply Qle_trans; [apply Q.le_max_l | exact Hm].
      * eapply Qle_trans; [apply Q.le_max_r | exact Hm].
Qed.

Lemma max_all_largest (t : tensor2) :
  concat (rows t) <> [] ->
  exists m, max_all t = Ok m /\ is_largest m (concat (rows t)).
Proof.
  intros H. unfold max_all. destruct (concat (rows t)) as [|x xs];
    [congruence|].
  eexists. split; [reflexivity | apply fold_left_Qmax_largest].
Qed.

Lemma concat_rows_nonempty (rs : list (list Q)) (c : nat) :
  rs <> [] -> c <> O -> Forall (fun r => length r = c) rs ->
  concat rs <> [].
Proof.
  intros Hrs Hc HF. destruct rs as [|r rs]; [congruence|].
  inversion HF as [|? ? Hr _]; subst. destruct r; simpl in *; congruence.
Qed.

Lemma combine_seq {A B : Type} (da : A) (db : B) (la : list A)
    (lb : list B) :
  length la = length lb ->
  combine la lb = map (fun i => (nth i la da, nth i lb db))
                      (seq 0 (length la)).
Proof.
  revert lb. induction la as [|a la IH]; intros [|b lb] H; simpl in *;
    try discriminate; [reflexivity|].
  f_equal. rewrite <- seq_shift, map_map. apply IH. lia.
Qed.

Lemma row_4 (t : tensor2) (i : nat) :
  wf2 t -> ncol t = 4%nat -> (i < size0 t)%nat ->
  row t i = [coord 0 (row t i); coord 1 (row t i); coord 2 (row t i);
             coord 3 (row t i)].
Proof.
  intros Hwf Hc Hi. pose proof (row_length t i Hwf Hi) as Hl.
  rewrite Hc in Hl. destruct (row t i) as [|a [|b [|c [|d [|e r]]]]];
    simpl in Hl; try discriminate. reflexivity.
Qed.

Lemma row_5 (t : tensor2) (i : nat) :
  wf2 t -> ncol t = 5%nat -> (i < size0 t)%nat ->
  row t i = [coord 0 (row t i); coord 1 (row t i); coord 2 (row t i);
             coord 3 (row t i); coord 4 (row t i)].
Proof.
  intros Hwf Hc Hi. pose proof (row_length t i Hwf Hi) as Hl.
  rewrite Hc in Hl. destruct (row t i) as [|a [|b [|c [|d [|e [|g r]]]]]];
    simpl in Hl; try discriminate. reflexivity.
Qed.

Lemma size0_cols (a b : nat) (t : tensor2) : size0 (cols a b t) = size0 t.
Proof.
  unfold size0, cols. cbn [rows]. apply length_map.
Qed.

Lemma size0_map_seq (c n : nat) (f : nat -> list Q) :
  size0 (T2 c (map f (seq 0 n))) = n.
Proof.
  unfold size0. cbn [rows]. now rewrite length_map, length_seq.
Qed.

Lemma row_map_seq (c n : nat) (f : nat -> list Q) (i : nat) :
  (i < n)%nat -> row (T2 c (map f (seq 0 n))) i = f i.
Proof.
  intros Hi. unfold row. cbn [rows].
  rewrite (nth_indep _ [] (f O)) by (rewrite length_map, length_seq; lia).
  rewrite (map_nth f), seq_nth by lia. reflexivity.
Qed.

Lemma row_cols (a b : nat) (t : tensor2) (i : nat) :
  (i < size0 t)%nat ->
  row (cols a b t) i = firstn (b - a) (skipn a (row t i)).
Proof.
  intros Hi. unfold row, cols. cbn [rows].
  rewrite (nth_indep _ [] (firstn (b - a) (skipn a (@nil Q))))
    by (rewrite length_map; exact Hi).
  apply (map_nth (fun r => firstn (b - a) (skipn a r))).
Qed.

Lemma add_rows_ok (t : tensor2) (o : list Q) :
  size0 t = length o ->
  add_rows t o =
  Ok (T2 (ncol t)
         (map (fun i => map (fun x => x + nth i o 0) (row t i))
              (seq 0 (size0 t)))).
Proof.
  intros H. unfold add_rows. rewrite H, Nat.eqb_refl. f_equal. f_equal.
  rewrite (combine_seq [] 0) by exact H. rewrite map_map.
  unfold size0 in H. rewrite H. reflexivity.
Qed.

Lemma cat_cols_ok (t u : tensor2) :
  size0 t = size0 u ->
  cat_cols t u =
  Ok (T2 (ncol t + ncol u)
         (map (fun i => row t i ++ row u i) (seq 0 (size0 t)))).
Proof.
  intros H. unfold cat_cols. rewrite H, Nat.eqb_refl. f_equal. f_equal.
  rewrite (combine_seq [] []) by exact H. rewrite map_map.
  unfold size0 in H. rewrite H. reflexivity.
Qed.

Lemma nth_offsets (f : Z -> Q) (idxs : list Z) (i : nat) :
  (i < length idxs)%nat -> nth i (map f idxs) 0 = f (class_of idxs i).
Proof.
  intros Hi. rewrite (nth_indep _ 0 (f 0%Z)) by now rewrite length_map.
  apply (map_nth f).
Qed.

(** The local [boxes_for_nms] holds the boxes moved by the offset of their
    class. *)
Lemma boxes_for_nms_shifted (boxes : tensor2) (idxs : list Z) :
  wf2 boxes -> ncol boxes = 4%nat \/ ncol boxes = 5%nat ->
  length idxs = size0 boxes -> size0 boxes <> O ->
  exists m,
    max_coordinate_of boxes m /\
    boxes_for_nms boxes idxs false = Ok (shifted boxes idxs m).
Proof.
  intros Hwf Hc Hlen Hn.
  assert (Hrows : rows boxes <> []).
  { unfold size0 in Hn. destruct (rows boxes); simpl in Hn; congruence. }
  unfold boxes_for_nms, max_coordinate_of, shifted. destruct Hc as [Hc|Hc].
  - rewrite Hc. cbn [Nat.eqb].
    destruct (max_all_largest boxes) as (m & Hm & Hl).
    { apply (concat_rows_nonempty _ 4); auto. now rewrite <- Hc. }
    exists m. split; [exact Hl|]. rewrite Hm. cbn [bind].
    rewrite add_rows_ok by now rewrite length_map.
    rewrite Hc. f_equal. f_equal. apply map_ext_in. intros i Hi.
    apply in_seq in Hi. rewrite nth_offsets by lia.
    rewrite (row_4 boxes i) at 1 by (auto; lia). reflexivity.
  - rewrite Hc. cbn [Nat.eqb].
    assert (Hwf' : Forall (fun r => length r = 5%nat) (rows boxes))
      by now rewrite <- Hc.
    destruct (max_all_largest (cols 0 2 boxes)) as (m1 & Hm1 & Hl1).
    { apply (concat_rows_nonempty _ 2); [| discriminate |].
      - cbn [cols rows]. destruct (rows boxes); simpl; congruence.
      - cbn [cols rows]. rewrite Forall_map.
        eapply Forall_impl; [|exact Hwf'].
        intros r Hr. cbv beta in Hr |- *.
        rewrite length_firstn, length_skipn. lia. }
    destruct (max_all_largest (cols 2 4 boxes)) as (m2 & Hm2 & Hl2).
    { apply (concat_rows_nonempty _ 2); [| discriminate |].
      - cbn [cols rows]. destruct (rows boxes); simpl; congruence.
      - cbn [cols rows]. rewrite Forall_map.
        eapply Forall_impl; [|exact Hwf'].
        intros r Hr. cbv beta in Hr |- *.
        rewrite length_firstn, length_skipn. lia. }
    exists (m1 + m2). split; [exists m1, m2; auto|].
    rewrite Hm1, Hm2. cbn [bind].
    rewrite add_rows_ok by (rewrite size0_cols, length_map; lia).
    cbn [bind]. rewrite cat_cols_ok
      by now rewrite size0_map_seq, !size0_cols.
    rewrite size0_map_seq, size0_cols. cbn [ncol cols]. rewrite Hc.
    f_equal. f_equal. apply map_ext_in. intros i Hi. apply in_seq in Hi.
    rewrite row_map_seq by lia. rewrite nth_offsets by lia.
    rewrite !row_cols by lia.
    rewrite (row_5 boxes i) by (auto; lia). reflexivity.
Qed.


End NmsFacts.

(** ** Facts on [batched_nms] *)

Module BatchedFacts.
Import Torch PurePytorchNms Nms NmsSpec TorchFacts GreedyFacts NmsFacts.

(** *** Writing through an index array *)

Lemma index_put_length {A : Type} (l : list A) (inds : list nat)
    (vs : list A) :
  length (index_put l inds vs) = length l.
Proof.
  revert l vs. induction inds as [|i inds IH]; intros l [|v vs]; simpl;
    try reflexivity.
  now rewrite IH, put_length.
Qed.

Lemma put_nth_other {A : Type} (l : list A) (i j : nat) (v d : A) :
  j <> i -> nth j (put l i v) d = nth j l d.
Proof.
  revert i j. induction l as [|x l IH]; intros [|i] [|j] H; simpl;
    try reflexivity; try congruence.
  apply IH. congruence.
Qed.

Lemma index_put_nth_notin {A : Type} (l : list A) (inds : list nat)
    (vs : list A) (j : nat) (d : A) :
  ~ In j inds -> nth j (index_put l inds vs) d = nth j l d.
Proof.
  revert l vs. induction inds as [|i inds IH]; intros l [|v vs] H; simpl;
    try reflexivity.
  rewrite IH by (intros Hin; apply H; now right).
  apply put_nth_other. intros ->. apply H. now left.
Qed.

Lemma index_put_nth_in {A : Type} (l : list A) (inds : list nat)
    (vs : list A) (j : nat) (d : A) :
  length inds = length vs ->
  (forall i, In i inds -> (i < length l)%nat) ->
  In j inds ->
  In (j, nth j (index_put l inds vs) d) (combine inds vs).
Proof.
  revert l vs. induction inds as [|i inds IH]; intros l [|v vs] Hlen Hlt Hj;
    simpl in *; try contradiction; try discriminate.
  destruct (in_dec Nat.eq_dec j inds) as [Hin|Hnin].
  - right. apply IH; auto.
    intros k Hk. rewrite put_length. auto.
  - destruct Hj as [->|Hj]; [|contradiction]. left.
    rewrite index_put_nth_notin by exact Hnin.
    rewrite put_nth by auto. now rewrite Nat.eqb_refl.
Qed.

Lemma index_put_true (l : list bool) (inds : list nat) (j : nat) :
  (forall i, In i inds -> (i < length l)%nat) ->
  nth j (index_put l inds (repeat true (length inds))) false =
  nth j l false || existsb (Nat.eqb j) inds.
Proof.
  intros Hlt. destruct (existsb (Nat.eqb j) inds) eqn:E.
  - apply existsb_eqb_In in E.
    pose proof (index_put_nth_in l inds (repeat true (length inds)) j false
                  (eq_sym (repeat_length _ _)) Hlt E) as H.
    apply in_combine_r, repeat_spec in H. rewrite H. symmetry. apply orb_true_r.
  - rewrite orb_false_r. apply index_put_nth_notin.
    intros Hin. apply existsb_eqb_In in Hin. congruence.
Qed.

(** *** One class *)

Lemma members_nonzero (idxs : list Z) (id : Z) :
  nonzero (map (Z.eqb id) idxs) = members idxs id.
Proof.
  apply (nonzero_map (Z.eqb id) 0%Z).
Qed.

Lemma members_In (idxs : list Z) (id : Z) (i : nat) :
  In i (members idxs id) <->
  (i < length idxs)%nat /\ class_of idxs i = id.
Proof.
  unfold members. rewrite filter_In, in_seq, Z.eqb_eq.
  split; intros [H1 H2]; (split; [lia | congruence]).
Qed.

Lemma members_sorted (idxs : list Z) (id : Z) :
  StronglySorted lt (members idxs id).
Proof.
  rewrite <- members_nonzero. apply nonzero_sorted.
Qed.

Lemma map_fst_combine {A B : Type} (la : list A) (lb : list B) :
  length la = length lb -> map fst (combine la lb) = la.
Proof.
  revert lb. induction la as [|a la IH]; intros [|b lb] H; simpl in *;
    try discriminate; [reflexivity|]. f_equal. apply IH. lia.
Qed.

Lemma map_snd_combine {A B : Type} (la : list A) (lb : list B) :
  length la = length lb -> map snd (combine la lb) = lb.
Proof.
  revert lb. induction la as [|a la IH]; intros [|b lb] H; simpl in *;
    try discriminate; [reflexivity|]. f_equal. apply IH. lia.
Qed.

Lemma last_col_length (t : tensor2) : length (last_col t) = size0 t.
Proof.
  unfold last_col. apply length_map.
Qed.

(** The body of the loop computes the result of the class and writes it. *)
Lemma split_step_per_class (nms_op : nms_op_type) (bfn : tensor2)
    (scores : list Q) (idxs : list Z) (kw : kwargs) (id : Z)
    (st : list bool * list Q) :
  split_step nms_op bfn scores idxs kw id st =
  (part <- per_class nms_op bfn scores idxs kw id ;; Ok (record st part)).
Proof.
  unfold split_step, partition_args, per_class. rewrite members_nonzero.
  destruct (index2 bfn (members idxs id)) as [b|e]; [|reflexivity].
  cbn [bind].
  destruct (index scores (members idxs id)) as [s|e]; [|reflexivity].
  cbn [bind].
  destruct (nms_op b s kw) as [[dets keep]|e]; [|reflexivity].
  cbn [bind].
  destruct (index (members idxs id) keep) as [kept|e]; [|reflexivity].
  cbn [bind].
  destruct (Nat.eqb_spec (length kept) (size0 dets)) as [E|]; [|reflexivity].
  cbn [bind]. unfold record.
  assert (El : length kept = length (last_col dets))
    by now rewrite last_col_length.
  now rewrite map_fst_combine, map_snd_combine, length_combine, <- El,
    Nat.min_id.
Qed.

Lemma for_each_record (nms_op : nms_op_type) (bfn : tensor2)
    (scores : list Q) (idxs : list Z) (kw : kwargs) (ids : list Z)
    (st : list bool * list Q) :
  for_each (split_step nms_op bfn scores idxs kw) ids st =
  (parts <- for_all (per_class nms_op bfn scores idxs kw) ids ;;
   Ok (fold_left record parts st)).
Proof.
  revert st. induction ids as [|id ids IH]; intros st; simpl; [reflexivity|].
  rewrite split_step_per_class.
  destruct (per_class nms_op bfn scores idxs kw id) as [part|e];
    [|reflexivity].
  cbn [bind]. rewrite IH.
  destruct (for_all (per_class nms_op bfn scores idxs kw) ids);
    reflexivity.
Qed.

(** *** The loop over the classes *)

Lemma coveredb_iff (parts : list (list (nat * Q))) (j : nat) :
  coveredb parts j = true <-> covered parts j.
Proof.
  unfold coveredb, covered. rewrite existsb_exists.
  split; intros (part & Hp & Hj); exists part; (split; [exact Hp|]);
    now apply existsb_eqb_In.
Qed.

Lemma combine_fst_snd {A B : Type} (l : list (A * B)) :
  combine (map fst l) (map snd l) = l.
Proof.
  induction l as [|[a b] l IH]; simpl; [reflexivity | now rewrite IH].
Qed.

Lemma record_length (st : list bool * list Q) (part : list (nat * Q)) :
  length (fst (record st part)) = length (fst st) /\
  length (snd (record st part)) = length (snd st).
Proof.
  unfold record. cbn [fst snd]. now rewrite !index_put_length.
Qed.

Lemma fold_record_length (parts : list (list (nat * Q)))
    (st : list bool * list Q) :
  length (fst (fold_left record parts st)) = length (fst st) /\
  length (snd (fold_left record parts st)) = length (snd st).
Proof.
  revert st. induction parts as [|p ps IH]; intros st; simpl; [auto|].
  destruct (IH (record st p)) as [H1 H2].
  destruct (record_length st p) as [H3 H4]. split; congruence.
Qed.

Lemma in_range_tail (n : nat) (p : list (nat * Q))
    (ps : list (list (nat * Q))) :
  in_range n (p :: ps) -> in_range n ps.
Proof.
  intros H part i Hp. apply H. now right.
Qed.

(** A marker is set exactly for the indices of the results. *)
Lemma fold_record_mask (parts : list (list (nat * Q)))
    (st : list bool * list Q) (j : nat) :
  in_range (length (fst st)) parts ->
  nth j (fst (fold_left record parts st)) false =
  nth j (fst st) false || coveredb parts j.
Proof.
  revert st. induction parts as [|p ps IH]; intros st Hr; simpl.
  - now rewrite orb_false_r.
  - rewrite IH.
    + unfold record at 1. cbn [fst].
      rewrite <- (length_map fst p) at 1.
      rewrite index_put_true, orb_assoc; [reflexivity|].
      intros i Hi. apply (Hr p); [now left | exact Hi].
    + destruct (record_length st p) as [-> _].
      eapply in_range_tail; exact Hr.
Qed.

Lemma fold_record_unchanged (parts : list (list (nat * Q)))
    (st : list bool * list Q) (j : nat) :
  ~ covered parts j ->
  nth j (snd (fold_left record parts st)) 0 = nth j (snd st) 0.
Proof.
  revert st. induction parts as [|p ps IH]; intros st Hn; simpl;
    [reflexivity|].
  rewrite IH.
  - unfold record. cbn [snd]. apply index_put_nth_notin.
    intros Hin. apply Hn. exists p. split; [now left | exact Hin].
  - intros (part & Hp & Hj). apply Hn. exists part. split; [now right|auto].
Qed.

(** The score written for an index is a score of the results. *)
Lemma fold_record_score (parts : list (list (nat * Q)))
    (st : list bool * list Q) (j : nat) :
  in_range (length (snd st)) parts -> covered parts j ->
  exists part,
    In part parts /\
    In (j, nth j (snd (fold_left record parts st)) 0) part.
Proof.
  revert st. induction parts as [|p ps IH]; intros st Hr Hc.
  - destruct Hc as (part & [] & _).
  - simpl. destruct (coveredb ps j) eqn:E.
    + apply coveredb_iff in E.
      destruct (IH (record st p)) as (part & Hp & Hin); auto.
      * destruct (record_length st p) as [_ ->].
        eapply in_range_tail; exact Hr.
      * exists part. split; [now right | exact Hin].
    + assert (Hn : ~ covered ps j).
      { intros H. apply coveredb_iff in H. congruence. }
      rewrite fold_record_unchanged by exact Hn.
      destruct Hc as (part & [<-|Hp] & Hj).
      * exists p. split; [now left|].
        unfold record. cbn [snd].
        rewrite <- (combine_fst_snd p) at 3.
        apply index_put_nth_in; [now rewrite !length_map| |exact Hj].
        intros i Hi. apply (Hr p); [now left | exact Hi].
      * exfalso. apply Hn. exists part. auto.
Qed.

Lemma for_all_inv {A B : Type} (f : A -> result B) (l : list A)
    (bs : list B) :
  for_all f l = Ok bs -> Forall2 (fun a b => f a = Ok b) l bs.
Proof.
  revert bs. induction l as [|a l IH]; simpl; intros bs H.
  - inversion H. constructor.
  - apply bind_ok_inv in H. destruct H as (b & Hb & H).
    apply bind_ok_inv in H. destruct H as (bs' & Hbs & H).
    inversion H. constructor; auto.
Qed.

(** What a result of a class is made of. *)
Lemma per_class_inv (nms_op : nms_op_type) (bfn : tensor2) (scores : list Q)
    (idxs : list Z) (kw : kwargs) (id : Z) (part : list (nat * Q)) :
  per_class nms_op bfn scores idxs kw id = Ok part ->
  let M := members idxs id in
  Forall (fun i => (i < size0 bfn)%nat) M /\
  Forall (fun i => (i < length scores)%nat) M /\
  exists dets keep,
    nms_op (sub2 bfn M) (sub scores M) kw = Ok (dets, keep) /\
    Forall (fun k => (k < length M)%nat) keep /\
    length keep = size0 dets /\
    part = combine (map (fun k => nth k M O) keep) (last_col dets).
Proof.
  intros H M. unfold per_class in H. fold M in H.
  apply bind_ok_inv in H. destruct H as (b & Hb & H).
  apply bind_ok_inv in H. destruct H as (s & Hs & H).
  apply bind_ok_inv in H. destruct H as ([dets keep] & Hop & H).
  apply bind_ok_inv in H. destruct H as (kept & Hk & H).
  unfold index2 in Hb. apply bind_ok_inv in Hb.
  destruct Hb as (rs & Hrs & Hb). inversion Hb; subst b. clear Hb.
  apply (index_inv []) in Hrs. destruct Hrs as [HM1 ->].
  apply (index_inv 0) in Hs. destruct Hs as [HM2 ->].
  apply (index_inv O) in Hk. destruct Hk as [Hkeep ->].
  rewrite length_map in H.
  destruct (Nat.eqb_spec (length keep) (size0 dets)) as [E|]; [|discriminate].
  inversion H. split; [exact HM1|]. split; [exact HM2|].
  exists dets, keep. auto.
Qed.

Lemma per_class_part_In (nms_op : nms_op_type) (bfn : tensor2)
    (scores : list Q) (idxs : list Z) (kw : kwargs) (id : Z)
    (part : list (nat * Q)) (i : nat) :
  per_class nms_op bfn scores idxs kw id = Ok part ->
  In i (map fst part) ->
  In i (members idxs id) /\ (i < size0 bfn)%nat /\ (i < length scores)%nat.
Proof.
  intros H Hi. apply per_class_inv in H.
  destruct H as (HM1 & HM2 & dets & keep & _ & Hkeep & Hlen & ->).
  rewrite map_fst_combine in Hi
    by now rewrite length_map, last_col_length.
  apply in_map_iff in Hi. destruct Hi as (k & <- & Hk).
  rewrite Forall_forall in *. specialize (Hkeep _ Hk).
  assert (Hin : In (nth k (members idxs id) O) (members idxs id))
    by now apply nth_In.
  auto.
Qed.

Lemma for_all_in_range (nms_op : nms_op_type) (bfn : tensor2)
    (scores : list Q) (idxs : list Z) (kw : kwargs) (ids : list Z)
    (parts : list (list (nat * Q))) :
  for_all (per_class nms_op bfn scores idxs kw) ids = Ok parts ->
  in_range (size0 bfn) parts /\ in_range (length scores) parts.
Proof.
  intros H. apply for_all_inv in H.
  induction H as [|id part ids parts Hp _ IH].
  - split; intros part i [].
  - destruct IH as [IH1 IH2].
    split; intros p i [<-|Hin] Hi;
      try (destruct (per_class_part_In _ _ _ _ _ _ _ _ Hp Hi) as (_ & ? & ?);
           assumption).
    + eapply IH1; eauto.
    + eapply IH2; eauto.
Qed.

(** *** Above the split threshold *)

Lemma add_rows_size0 (t t' : tensor2) (o : list Q) :
  add_rows t o = Ok t' -> size0 t' = size0 t /\ size0 t = length o.
Proof.
  intros H. assert (E : size0 t = length o).
  { unfold add_rows in H. destruct (Nat.eqb_spec (size0 t) (length o));
      [assumption | discriminate]. }
  rewrite add_rows_ok in H by exact E. inversion H.
  split; [apply size0_map_seq | exact E].
Qed.

Lemma cat_cols_size0 (t u t' : tensor2) :
  cat_cols t u = Ok t' -> size0 t' = size0 t.
Proof.
  intros H. assert (E : size0 t = size0 u).
  { unfold cat_cols in H. destruct (Nat.eqb_spec (size0 t) (size0 u));
      [assumption | discriminate]. }
  rewrite cat_cols_ok in H by exact E. inversion H. apply size0_map_seq.
Qed.

Lemma boxes_for_nms_size0 (boxes : tensor2) (idxs : list Z) (a : bool)
    (bfn : tensor2) :
  boxes_for_nms boxes idxs a = Ok bfn -> size0 bfn = size0 boxes.
Proof.
  unfold boxes_for_nms. destruct a; [intros H; now inversion H|].
  destruct (Nat.eqb (ncol boxes) 5).
  - intros H.
    apply bind_ok_inv in H. destruct H as (m1 & _ & H).
    apply bind_ok_inv in H. destruct H as (m2 & _ & H).
    apply bind_ok_inv in H. destruct H as (t1 & H1 & H).
    apply cat_cols_size0 in H. apply add_rows_size0 in H1.
    rewrite size0_cols in H1. destruct H1. congruence.
  - intros H. apply bind_ok_inv in H. destruct H as (m & _ & H).
    now apply add_rows_size0 in H.
Qed.

Lemma nth_repeat_false (n j : nat) : nth j (repeat false n) false = false.
Proof.
  destruct (nth_in_or_default j (repeat false n) false) as [H|H]; [|exact H].
  now apply repeat_spec in H.
Qed.

Lemma StronglySorted_map {A B : Type} (R : B -> B -> Prop) (f : A -> B)
    (l : list A) :
  StronglySorted (fun a b => R (f a) (f b)) l -> StronglySorted R (map f l).
Proof.
  induction 1 as [|a l Hs IH HF]; simpl; constructor; [exact IH|].
  now rewrite Forall_map.
Qed.

(** The partitioned path: the results of the classes are united, sorted by
    descending score and cut at [max_num]. *)
Lemma batched_nms_split_spec (exp_neg : Q -> Q) (boxes : tensor2)
    (scores : list Q) (idxs : list Z) (c : nms_cfg) (class_agnostic : bool)
    (bfn : tensor2) (parts : list (list (nat * Q))) :
  boxes_for_nms boxes idxs (agnostic c class_agnostic) = Ok bfn ->
  (split_thr_of c <= Z.of_nat (size0 boxes))%Z ->
  for_all (per_class (eval_type exp_neg (type_of c)) bfn scores idxs
                     (pop_max_num (cfg_kwargs c)))
          (unique idxs) = Ok parts ->
  exists merged,
    NoDup (map fst merged) /\
    (forall i, In i (map fst merged) <-> covered parts i) /\
    (forall p, In p merged -> exists part, In part parts /\ In p part) /\
    StronglySorted (desc snd) merged /\
    let kept := cap (default (-1)%Z (max_num (cfg_kwargs c))) merged in
    batched_nms exp_neg boxes scores idxs (Some c) class_agnostic =
    Ok (dets_with boxes kept, map fst kept).
Proof.
  intros Hb Hsplit Hparts.
  pose proof (boxes_for_nms_size0 _ _ _ _ Hb) as Hsize.
  destruct (for_all_in_range _ _ _ _ _ _ _ Hparts) as [Hr1 Hr2].
  set (n := length scores) in *.
  destruct (fold_left record parts (repeat false n, repeat 0 n))
    as [tm sa] eqn:Est.
  assert (Hlen : length tm = n /\ length sa = n).
  { pose proof (fold_record_length parts (repeat false n, repeat 0 n)) as H.
    rewrite Est in H. cbn [fst snd] in H. now rewrite !repeat_length in H. }
  destruct Hlen as [Htm Hsa].
  assert (Hmask : forall j, nth j tm false = true <-> covered parts j).
  { intros j.
    pose proof (fold_record_mask parts (repeat false n, repeat 0 n) j) as H.
    rewrite Est in H. cbn [fst] in H. rewrite repeat_length in H.
    rewrite H by exact Hr2. rewrite nth_repeat_false. simpl.
    apply coveredb_iff. }
  assert (Hscore : forall j, covered parts j ->
            exists part, In part parts /\ In (j, get sa j) part).
  { intros j Hj.
    pose proof (fold_record_score parts (repeat false n, repeat 0 n) j) as H.
    rewrite Est in H. cbn [snd] in H. rewrite repeat_length in H.
    apply H; assumption. }
  set (keep0 := nonzero tm).
  assert (Hk0 : forall j, In j keep0 <-> covered parts j).
  { intros j. unfold keep0. rewrite nonzero_In. apply Hmask. }
  set (ks := sub sa keep0).
  set (inds := argsort_desc ks).
  assert (Hks : length ks = length keep0)
    by (unfold ks, sub; apply length_map).
  assert (Hinds : forall k, In k inds -> (k < length keep0)%nat).
  { intros k Hk. apply sort_desc_by_In, in_seq in Hk. lia. }
  set (merged := map (fun k => (nth k keep0 O, get ks k)) inds).
  assert (Hfst : map fst merged = map (fun k => nth k keep0 O) inds).
  { unfold merged. rewrite map_map. reflexivity. }
  assert (Hsnd : map snd merged = map (get ks) inds).
  { unfold merged. rewrite map_map. reflexivity. }
  assert (Hperm : Permutation (map fst merged) keep0).
  { rewrite Hfst.
    apply (Permutation_trans
             (l' := map (fun k => nth k keep0 O) (seq 0 (length keep0)))).
    - apply Permutation_map. unfold inds. rewrite <- Hks.
      apply argsort_desc_perm.
    - now rewrite map_nth_seq_sel. }
  exists merged. split; [|split; [|split; [|split]]].
  - eapply Permutation_NoDup; [symmetry; exact Hperm|].
    apply StronglySorted_lt_NoDup, nonzero_sorted.
  - intros i. rewrite <- Hk0. split; apply Permutation_in;
      [exact Hperm | symmetry; exact Hperm].
  - intros p Hp. unfold merged in Hp. apply in_map_iff in Hp.
    destruct Hp as (k & <- & Hk). apply Hinds in Hk.
    unfold ks. rewrite get_sub by exact Hk.
    apply Hscore, Hk0. now apply nth_In.
  - unfold merged. apply StronglySorted_map. apply sort_desc_by_sorted.
  - intros kept. unfold batched_nms.
    change (default class_agnostic (cfg_class_agnostic c))
      with (agnostic c class_agnostic).
    rewrite Hb. cbn [bind].
    change (default 10000%Z (cfg_split_thr c)) with (split_thr_of c).
    rewrite Hsize. apply Z.ltb_ge in Hsplit. rewrite Hsplit.
    rewrite for_each_record.
    change (default type_nms (cfg_type c)) with (type_of c).
    rewrite Hparts. cbn [bind]. fold n. rewrite Est.
    fold keep0.
    rewrite index_scores_ok.
    2:{ apply Forall_forall. intros j Hj. rewrite Hsa, <- Htm.
        now apply nonzero_lt. }
    cbn [bind]. fold ks. unfold sort_desc. fold inds.
    rewrite (index_ok O keep0 inds) by now apply Forall_forall.
    cbn [bind]. rewrite <- Hfst, <- Hsnd.
    rewrite index2_ok.
    2:{ apply Forall_forall. intros j Hj. rewrite <- Hsize.
        apply (Permutation_in _ Hperm), Hk0 in Hj.
        destruct Hj as (part & Hp & Hj). eapply Hr1; eassumption. }
    cbn [bind]. unfold kept, cap, dets_with.
    destruct (0 <? default (-1)%Z (max_num (cfg_kwargs c)))%Z;
      unfold cat_col, size0, sub2; cbn [rows ncol].
    + rewrite !length_firstn, !length_map, Nat.eqb_refl. cbn [bind].
      rewrite map_map, !firstn_map.
      rewrite (append_col_map_gen (fun p => row boxes (fst p)) snd).
      reflexivity.
    + rewrite !length_map, Nat.eqb_refl. cbn [bind].
      rewrite map_map.
      rewrite (append_col_map_gen (fun p => row boxes (fst p)) snd).
      reflexivity.
Qed.

Lemma max_all_nonempty (t : tensor2) (m : Q) :
  max_all t = Ok m -> size0 t <> O.
Proof.
  unfold max_all, size0. destruct (rows t); simpl; [discriminate|].
  intros _. discriminate.
Qed.

(** What a successful computation of [boxes_for_nms] says of its
    arguments. *)
Lemma boxes_for_nms_inv (boxes : tensor2) (idxs : list Z) (bfn : tensor2) :
  boxes_for_nms boxes idxs false = Ok bfn ->
  length idxs = size0 boxes /\ size0 boxes <> O /\
  ncol bfn = ncol boxes.
Proof.
  unfold boxes_for_nms. destruct (Nat.eqb_spec (ncol boxes) 5) as [E5|N5].
  - intros H.
    apply bind_ok_inv in H. destruct H as (m1 & Hm1 & H).
    apply bind_ok_inv in H. destruct H as (m2 & _ & H).
    apply bind_ok_inv in H. destruct H as (t1 & H1 & H).
    apply max_all_nonempty in Hm1. rewrite size0_cols in Hm1.
    pose proof (add_rows_size0 _ _ _ H1) as [Hs1 Hs2].
    rewrite size0_cols, length_map in Hs2.
    split; [auto|]. split; [exact Hm1|].
    rewrite add_rows_ok in H1 by (rewrite size0_cols, length_map; auto).
    inversion H1; subst t1. clear H1.
    rewrite cat_cols_ok in H by now rewrite size0_map_seq, !size0_cols.
    inversion H. cbn [ncol cols]. rewrite E5. reflexivity.
  - intros H. apply bind_ok_inv in H. destruct H as (m & Hm & H).
    apply max_all_nonempty in Hm.
    pose proof (add_rows_size0 _ _ _ H) as [Hs1 Hs2].
    rewrite length_map in Hs2. split; [auto|]. split; [exact Hm|].
    rewrite add_rows_ok in H by (rewrite length_map; auto).
    now inversion H.
Qed.

(** The result of a class belongs to that class. *)
Lemma per_class_class (nms_op : nms_op_type) (bfn : tensor2)
    (scores : list Q) (idxs : list Z) (kw : kwargs) (id : Z)
    (part : list (nat * Q)) (i : nat) :
  per_class nms_op bfn scores idxs kw id = Ok part ->
  In i (map fst part) -> class_of idxs i = id.
Proof.
  intros H Hi.
  destruct (per_class_part_In _ _ _ _ _ _ _ _ H Hi) as (Hm & _ & _).
  now apply members_In in Hm.
Qed.

Lemma Forall2_In_r {A B : Type} (R : A -> B -> Prop) (la : list A)
    (lb : list B) (b : B) :
  Forall2 R la lb -> In b lb -> exists a, In a la /\ R a b.
Proof.
  induction 1 as [|x y la lb Hxy _ IH]; intros Hin; [destruct Hin|].
  destruct Hin as [<-|Hin].
  - exists x. split; [now left | exact Hxy].
  - destruct (IH Hin) as (a & Ha & HR). exists a. split; [now right|auto].
Qed.

Lemma call_nms_inv (boxes : tensor2) (scores : list Q) (kw : kwargs)
    (dets : tensor2) (keep : list nat) :
  call_nms boxes scores kw = Ok (dets, keep) ->
  exists thr,
    iou_threshold kw = Some thr /\
    nms boxes scores thr (default 0%Z (offset kw))
        (default 0 (score_threshold kw)) (default (-1)%Z (max_num kw)) =
    Ok (dets, keep).
Proof.
  unfold call_nms.
  destruct (is_some (sigma kw) || is_some (min_score kw) ||
            is_some (method kw)); [discriminate|].
  destruct (iou_threshold kw) as [thr|]; [|discriminate].
  intros H. exists thr. auto.
Qed.

(** *** No overlap within a class *)

Lemma batched_nms_no_overlap (exp_neg : Q -> Q) (boxes : tensor2)
    (scores : list Q) (idxs : list Z) (c : nms_cfg) (class_agnostic : bool)
    (thr : Q) (bfn out : tensor2) (keep : list nat) :
  type_of c = type_nms ->
  iou_threshold (cfg_kwargs c) = Some thr ->
  boxes_for_nms boxes idxs (agnostic c class_agnostic) = Ok bfn ->
  batched_nms exp_neg boxes scores idxs (Some c) class_agnostic =
  Ok (out, keep) ->
  forall i j, In i keep -> In j keep -> i <> j ->
    class_of idxs i = class_of idxs j ->
    iou (row bfn i) (row bfn j) 0 <= thr.
Proof.
  intros Hty Hthr Hb H0 i j Hi Hj Hne Hcl. assert (H := H0).
  unfold batched_nms in H.
  change (default class_agnostic (cfg_class_agnostic c))
    with (agnostic c class_agnostic) in H.
  change (default 10000%Z (cfg_split_thr c)) with (split_thr_of c) in H.
  change (default type_nms (cfg_type c)) with (type_of c) in H.
  rewrite Hb in H. cbn [bind] in H.
  pose proof (boxes_for_nms_size0 _ _ _ _ Hb) as Hsize.
  rewrite Hty in H. cbn [eval_type] in H.
  destruct (Z.ltb_spec (Z.of_nat (size0 bfn)) (split_thr_of c))
    as [Hlt|Hge].
  - (* one pass over all boxes *)
    apply bind_ok_inv in H. destruct H as ([dets keep'] & Hop & H).
    apply bind_ok_inv in H. destruct H as (b & _ & H).
    apply bind_ok_inv in H. destruct H as (o & _ & H).
    inversion H; subst o keep'. clear H.
    apply call_nms_inv in Hop. destruct Hop as (thr' & Hthr' & Hnms).
    assert (thr' = thr) by congruence. subst thr'.
    apply nms_inv in Hnms.
    destruct Hnms as (_ & _ & _ & Hkeep & _).
    rewrite Hkeep in Hi, Hj. eapply nms_keep_on_no_overlap; eassumption.
  - (* class by class *)
    apply bind_ok_inv in H. destruct H as (st & Hloop & _).
    rewrite for_each_record in Hloop.
    apply bind_ok_inv in Hloop. destruct Hloop as (parts & Hparts & _).
    destruct (batched_nms_split_spec exp_neg boxes scores idxs c
                class_agnostic bfn parts Hb) as (merged & _ & Hcov & _ & _ & E);
      [lia | rewrite Hty; exact Hparts |].
    cbv zeta in E. rewrite E in H0.
    assert (Hkeep : map fst (cap (default (-1)%Z (max_num (cfg_kwargs c)))
                                 merged) = keep) by congruence.
    assert (Hpart : forall k, In k keep ->
              exists part,
                per_class call_nms bfn scores idxs
                          (pop_max_num (cfg_kwargs c)) (class_of idxs k) =
                Ok part /\ In k (map fst part)).
    { intros k Hk. rewrite <- Hkeep, cap_map in Hk.
      apply cap_In, Hcov in Hk. destruct Hk as (part & Hp & Hk).
      apply for_all_inv in Hparts.
      destruct (Forall2_In_r _ _ _ _ Hparts Hp) as (id & _ & Hid).
      exists part. split; [|exact Hk].
      now rewrite (per_class_class _ _ _ _ _ _ _ _ Hid Hk). }
    destruct (Hpart i Hi) as (part & Hpi & Hini).
    destruct (Hpart j Hj) as (part' & Hpj & Hinj).
    rewrite <- Hcl, Hpi in Hpj. inversion Hpj; subst part'. clear Hpj Hpart.
    apply per_class_inv in Hpi. cbv zeta in Hpi.
    remember (members idxs (class_of idxs i)) as M eqn:EM.
    destruct Hpi as (_ & _ & dets & keepc & Hop & HkM & Hlen & ->).
    rewrite map_fst_combine in Hini, Hinj
      by now rewrite length_map, last_col_length.
    apply in_map_iff in Hini, Hinj.
    destruct Hini as (k1 & Ei & Hk1). destruct Hinj as (k2 & Ej & Hk2).
    apply call_nms_inv in Hop. destruct Hop as (thr' & Hthr' & Hnms).
    assert (thr' = thr) by (cbn [pop_max_num iou_threshold] in Hthr';
                            congruence).
    subst thr'. apply nms_inv in Hnms.
    destruct Hnms as (_ & _ & _ & Hkeepc & _).
    rewrite Forall_forall in HkM.
    rewrite <- Ei, <- Ej. rewrite <- !row_sub2 by auto.
    rewrite Hkeepc in Hk1, Hk2.
    eapply nms_keep_on_no_overlap; try eassumption.
    intros ->. apply Hne. congruence.
Qed.

(** *** The classes of [torch.unique] *)

Lemma insert_unique_In (z y : Z) (l : list Z) :
  In z (insert_unique y l) <-> z = y \/ In z l.
Proof.
  induction l as [|x l IH]; simpl; [intuition|].
  destruct (Z.ltb_spec y x); [simpl; intuition|].
  destruct (Z.eqb_spec y x) as [->|]; simpl; [intuition|].
  rewrite IH. intuition.
Qed.

Lemma unique_In (z : Z) (l : list Z) : In z (unique l) <-> In z l.
Proof.
  induction l as [|x l IH]; simpl; [tauto|].
  rewrite insert_unique_In, IH. intuition.
Qed.

Lemma insert_unique_sorted (y : Z) (l : list Z) :
  StronglySorted Z.lt l -> StronglySorted Z.lt (insert_unique y l).
Proof.
  induction 1 as [|x l Hs IH HF]; simpl; [repeat constructor|].
  destruct (Z.ltb_spec y x).
  - constructor; [now constructor|]. constructor; [assumption|].
    eapply Forall_impl; [|exact HF]. intros a Ha. simpl in Ha. lia.
  - destruct (Z.eqb_spec y x) as [->|Hne]; [now constructor|].
    constructor; [exact IH|]. apply Forall_forall. intros a Ha.
    apply insert_unique_In in Ha. destruct Ha as [->|Ha]; [lia|].
    rewrite Forall_forall in HF. now apply HF.
Qed.

Lemma unique_sorted (l : list Z) : StronglySorted Z.lt (unique l).
Proof.
  induction l as [|x l IH]; simpl; [constructor|].
  now apply insert_unique_sorted.
Qed.

Lemma unique_NoDup (l : list Z) : NoDup (unique l).
Proof.
  pose proof (unique_sorted l) as H.
  induction H as [|x u _ IH HF]; constructor; [|exact IH].
  intros Hin. rewrite Forall_forall in HF. specialize (HF _ Hin). lia.
Qed.

(** Every detection is a member of one class of [unique idxs]. *)
Lemma members_cover (idxs : list Z) (i : nat) :
  (i < length idxs)%nat ->
  In (class_of idxs i) (unique idxs) /\
  In i (members idxs (class_of idxs i)).
Proof.
  intros Hi. split.
  - apply unique_In. unfold class_of. now apply nth_In.
  - apply members_In. auto.
Qed.

End BatchedFacts.

(** ** The properties of the specification *)

Module Properties.
Import Torch PurePytorchNms Nms NmsSpec.
Import TorchFacts GreedyFacts NmsFacts BatchedFacts.

Section Claims.

Variable exp_neg : Q -> Q.
Variable polygon_iou : list Q -> list Q -> Q.

(** *** Empty inputs *)

Lemma nms_empty (thr st : Q) (mn : Z) :
  nms (T2 4 []) [] thr 0 st mn = Ok (T2 5 [], []) /\
  nms (T2 4 []) [] thr 1 st mn = Ok (T2 5 [], []).
Proof.
  split; (rewrite nms_ok; [|reflexivity|reflexivity|auto]);
    unfold nms_keep, nms_keep_on, candidates, cap; simpl;
    destruct (Qlt_bool 0 st), (0 <? mn)%Z; simpl;
    rewrite ?firstn_nil; reflexivity.
Qed.

Lemma soft_nms_empty (thr sigma ms : Q) (method : string) (off : Z) :
  off = 0%Z \/ off = 1%Z ->
  method = "naive"%string \/ method = "linear"%string \/
  method = "gaussian"%string ->
  soft_nms exp_neg (T2 4 []) [] thr sigma ms method off = Ok (T2 5 [], []).
Proof.
  intros [->| ->] [->|[->| ->]]; reflexivity.
Qed.

Lemma nms_match_empty (c : nat) (thr : Q) : nms_match (T2 c []) thr = Ok [].
Proof.
  reflexivity.
Qed.

Lemma nms_quadri_empty (c : nat) (scores : list Q) (thr : Q)
    (labels : option (list Z)) :
  nms_quadri polygon_iou (T2 c []) scores thr labels = Ok (T2 c [], None).
Proof.
  reflexivity.
Qed.

Lemma batched_nms_empty_no_cfg (c : nat) (ca : bool) :
  batched_nms exp_neg (T2 c []) [] [] None ca = Ok (T2 (S c) [], []).
Proof.
  reflexivity.
Qed.

Lemma batched_nms_empty_agnostic (thr : Q) :
  batched_nms exp_neg (T2 4 []) [] [] (Some (cfg_iou thr)) true =
  Ok (T2 5 [], []).
Proof.
  reflexivity.
Qed.

(** C7.  [batched_nms] with a configuration, not class agnostic, on arrays
    without boxes: the largest coordinate of an array without entries does
    not exist, and the call raises a [RuntimeError] where the
    specification promises an empty result. *)
Theorem batched_nms_empty_raises (ty : option nms_type) (split : option Z)
    (kw : kwargs) :
  batched_nms exp_neg (T2 4 []) [] [] (Some (NmsCfg None ty split kw)) false =
  Raise RuntimeError.
Proof.
  reflexivity.
Qed.

(** *** The offset of soft-NMS *)

(** C10.  [soft_nms] checks [offset] and hands it to [SoftNMSop.forward],
    which does not pass it on: the result for [offset = 0] is the result
    for [offset = 1]. *)
Theorem soft_nms_offset_independent (boxes : tensor2) (scores : list Q)
    (thr sigma ms : Q) (method : string) :
  soft_nms exp_neg boxes scores thr sigma ms method 0 =
  soft_nms exp_neg boxes scores thr sigma ms method 1.
Proof.
  reflexivity.
Qed.

(** *** No configuration *)

(** C4.  Without a configuration [batched_nms] suppresses nothing: it
    returns every detection, its box unchanged and its score appended, in
    descending order of the scores, together with the sorting indices. *)
Theorem batched_nms_no_cfg (boxes : tensor2) (scores : list Q)
    (idxs : list Z) (class_agnostic : bool) :
  length scores = size0 boxes ->
  exists inds,
    batched_nms exp_neg boxes scores idxs None class_agnostic =
    Ok (dets_of boxes scores inds, inds) /\
    Permutation inds (seq 0 (size0 boxes)) /\
    StronglySorted (desc (get scores)) inds.
Proof.
  intros Hlen. exists (argsort_desc scores). split; [|split].
  - unfold batched_nms, sort_desc.
    rewrite index2_ok.
    + simpl. fold (sub scores (argsort_desc scores)).
      rewrite cat_col_sub. reflexivity.
    + apply Forall_forall. intros i Hi.
      apply sort_desc_by_In, in_seq in Hi. lia.
  - rewrite <- Hlen. apply argsort_desc_perm.
  - apply sort_desc_by_sorted.
Qed.

(** *** The score threshold *)

(** C8.  With [score_threshold > 0] the kernel runs on the detections whose
    score exceeds the threshold and on no other, and what [NMSop.forward]
    returns are the positions of the kept ones in the unfiltered input:
    each returned index is in range, its score exceeds the threshold, and
    its box and score are those the kernel kept. *)
Theorem nms_score_threshold (boxes : tensor2) (scores : list Q) (thr : Q)
    (off : Z) (st : Q) (mn : Z) :
  0 < st -> size0 boxes = length scores ->
  let survivors :=
    filter (fun i => Qlt_bool st (get scores i)) (seq 0 (length scores)) in
  let kept :=
    cap mn (nms_pytorch (sub2 boxes survivors) (sub scores survivors) thr) in
  exists inds,
    NMSop_forward boxes scores thr off st mn = Ok inds /\
    inds = map (fun k => nth k survivors O) kept /\
    Forall (fun i => (i < length scores)%nat /\ st < get scores i) inds /\
    Forall (fun k =>
              row boxes (nth k survivors O) = row (sub2 boxes survivors) k /\
              get scores (nth k survivors O) = get (sub scores survivors) k)
           kept.
Proof.
  intros Hst Hlen survivors kept.
  assert (Hkept : forall k, In k kept -> (k < length survivors)%nat).
  { intros k Hk. unfold kept in Hk. rewrite nms_pytorch_greedy in Hk.
    apply cap_In, greedy_In, sort_desc_by_In, in_seq in Hk.
    unfold sub in Hk. rewrite length_map in Hk. lia. }
  exists (map (fun k => nth k survivors O) kept). split; [|split; [|split]].
  - unfold NMSop_forward. apply Qlt_bool_iff in Hst. rewrite Hst.
    unfold index_mask2, index_mask. unfold size0 in Hlen.
    rewrite length_map, Hlen, Nat.eqb_refl. simpl.
    rewrite (mask_select_nonzero [] (rows boxes)) by now rewrite length_map.
    rewrite (mask_select_nonzero 0 scores) by now rewrite length_map.
    rewrite (nonzero_map (Qlt_bool st) 0).
    apply (index_ok O). apply Forall_forall. exact Hkept.
  - reflexivity.
  - apply Forall_forall. intros i Hi. apply in_map_iff in Hi.
    destruct Hi as (k & <- & Hk). apply Hkept in Hk.
    assert (Hin : In (nth k survivors O) survivors) by now apply nth_In.
    apply filter_In in Hin. destruct Hin as [Hseq Hs].
    apply in_seq in Hseq. apply Qlt_bool_iff in Hs. split; [lia | exact Hs].
  - apply Forall_forall. intros k Hk. apply Hkept in Hk.
    now rewrite row_sub2, get_sub.
Qed.

(** *** The groups of [nms_match] *)

(** C6.  On a non-empty (N, 5) array, the groups of [nms_match] hold every
    index below N exactly once, no group is empty, and no member of a group
    has a larger score than its first element. *)
Theorem nms_match_partition (dets : tensor2) (thr : Q) :
  size0 dets <> O -> ncol dets = 5%nat ->
  exists matched,
    nms_match dets thr = Ok matched /\
    Permutation (concat matched) (seq 0 (size0 dets)) /\
    Forall (fun g =>
              g <> [] /\
              forall j, In j g ->
                get (last_col dets) j <= get (last_col dets) (hd O g))
           matched.
Proof.
  intros Hn Hc.
  set (order := argsort_desc (last_col dets)).
  assert (Hlen : length (last_col dets) = size0 dets)
    by (unfold last_col; apply length_map).
  assert (Hg : nms_match_pytorch dets thr =
               groups (overlaps dets thr) [] order).
  { unfold nms_match_pytorch. apply match_scan_groups.
    - apply sort_desc_by_NoDup, seq_NoDup.
    - apply agrees_init. intros j Hj.
      apply sort_desc_by_In, in_seq in Hj. lia. }
  exists (groups (overlaps dets thr) [] order). split; [|split].
  - unfold nms_match. apply Nat.eqb_neq in Hn. rewrite Hn, Hc. simpl.
    now rewrite Hg.
  - rewrite concat_groups_perm. simpl.
    rewrite forallb_filter_id by now apply forallb_forall.
    unfold order. rewrite <- Hlen. apply argsort_desc_perm.
  - assert (H1 := groups_nonempty (overlaps dets thr) [] order).
    assert (H2 := groups_head (overlaps dets thr)
                    (desc (get (last_col dets))) [] order
                    (sort_desc_by_sorted _ _)).
    rewrite Forall_forall in *. intros g Hin. split; [now apply H1|].
    specialize (H2 g Hin). destruct g as [|h t]; [now intros j []|].
    simpl. intros j [<-|Hj]; [apply Qle_refl | now apply H2].
Qed.

(** *** Idempotence *)

(** C9.  [nms] on its own output, the kept boxes with their kept scores and
    the same thresholds, keeps every detection: it returns the same array. *)
Theorem nms_idempotent (boxes : tensor2) (scores : list Q) (thr : Q)
    (off : Z) (st : Q) (mn : Z) (dets : tensor2) (inds : list nat) :
  wf2 boxes ->
  nms boxes scores thr off st mn = Ok (dets, inds) ->
  nms (cols 0 4 dets) (last_col dets) thr off st mn =
  Ok (dets, seq 0 (length inds)).
Proof.
  intros Hwf H. apply nms_inv in H.
  destruct H as (Hc & Hn & Hoff & Hinds & ->).
  assert (Hlt : Forall (fun i => (i < size0 boxes)%nat) inds).
  { subst inds. rewrite Hn. apply nms_keep_lt. }
  rewrite cols_dets_of, last_col_dets_of by assumption.
  rewrite nms_ok; [|exact Hc| |exact Hoff].
  - subst inds. rewrite nms_keep_again, dets_of_sub. reflexivity.
  - unfold size0, sub2, sub. simpl. now rewrite !length_map.
Qed.

(** *** The offset of a class *)

(** C5.  Not class agnostic and below the split threshold, the op runs on
    the boxes moved by [class_id * (max_coordinate + 1)], added to the four
    coordinates of an axis-aligned box and to the centre alone of a rotated
    one; the boxes of the returned array are rows of the original array,
    unshifted, each with the score the op returned. *)
Theorem batched_nms_offsets (boxes : tensor2) (scores : list Q)
    (idxs : list Z) (c : nms_cfg) (class_agnostic : bool) :
  wf2 boxes -> ncol boxes = 4%nat \/ ncol boxes = 5%nat ->
  length idxs = size0 boxes -> size0 boxes <> O ->
  agnostic c class_agnostic = false ->
  (Z.of_nat (size0 boxes) < split_thr_of c)%Z ->
  exists m,
    max_coordinate_of boxes m /\
    batched_nms exp_neg boxes scores idxs (Some c) class_agnostic =
    (r <- eval_type exp_neg (type_of c) (shifted boxes idxs m) scores
                    (cfg_kwargs c) ;;
     let '(dets, keep) := r in
     kept <- index2 boxes keep ;;
     out <- cat_col kept (last_col dets) ;;
     Ok (out, keep)) /\
    forall out keep,
      batched_nms exp_neg boxes scores idxs (Some c) class_agnostic =
      Ok (out, keep) ->
      Forall (fun i => (i < size0 boxes)%nat) keep /\
      exists kept_scores,
        length kept_scores = length keep /\
        out = T2 (S (ncol boxes))
                 (append_col (map (row boxes) keep) kept_scores).
Proof.
  intros Hwf Hc Hlen Hn Hag Hsplit.
  destruct (boxes_for_nms_shifted boxes idxs Hwf Hc Hlen Hn)
    as (m & Hm & Hb).
  exists m. split; [exact Hm|].
  assert (E : batched_nms exp_neg boxes scores idxs (Some c) class_agnostic =
    (r <- eval_type exp_neg (type_of c) (shifted boxes idxs m) scores
                    (cfg_kwargs c) ;;
     let '(dets, keep) := r in
     kept <- index2 boxes keep ;;
     out <- cat_col kept (last_col dets) ;;
     Ok (out, keep))).
  { unfold batched_nms. unfold agnostic in Hag. rewrite Hag, Hb. cbn [bind].
    unfold shifted at 1. rewrite size0_map_seq.
    apply Z.ltb_lt in Hsplit. unfold split_thr_of in Hsplit.
    rewrite Hsplit. reflexivity. }
  split; [exact E|]. intros out keep H. rewrite E in H.
  apply bind_ok_inv in H. destruct H as ([dets keep'] & _ & H).
  apply bind_ok_inv in H. destruct H as (kept & Hk & H).
  apply bind_ok_inv in H. destruct H as (out' & Ho & H).
  inversion H; subst out' keep'. clear H.
  unfold index2 in Hk. apply bind_ok_inv in Hk.
  destruct Hk as (rs & Hrs & Hk). inversion Hk; subst kept. clear Hk.
  apply (index_inv []) in Hrs. destruct Hrs as [Hlt ->].
  split; [exact Hlt|]. exists (last_col dets).
  unfold cat_col, size0 in Ho. cbn [rows ncol] in Ho.
  rewrite length_map in Ho.
  destruct (Nat.eqb_spec (length keep) (length (last_col dets))) as [El|];
    [|discriminate].
  inversion Ho. split; [now symmetry | reflexivity].
Qed.

(** *** Above the split threshold *)

(** C3, as the code has it.  With at least [split_thr] boxes, [batched_nms]
    takes the detections class by class ([members] of each class of
    [unique idxs]), runs the op on each part of [boxes_for_nms], the
    boxes moved by the offset of their class unless class agnostic, and
    returns the union of the kept detections: every kept index once, with
    the score the op returned for it, in descending order of these scores,
    cut at [max_num]; the boxes of the result are rows of the original
    array. *)
Theorem batched_nms_partitioned (boxes : tensor2) (scores : list Q)
    (idxs : list Z) (c : nms_cfg) (class_agnostic : bool) (bfn : tensor2)
    (parts : list (list (nat * Q))) :
  (split_thr_of c <= Z.of_nat (size0 boxes))%Z ->
  boxes_for_nms boxes idxs (agnostic c class_agnostic) = Ok bfn ->
  for_all (per_class (eval_type exp_neg (type_of c)) bfn scores idxs
                     (pop_max_num (cfg_kwargs c)))
          (unique idxs) = Ok parts ->
  NoDup (unique idxs) /\
  (forall i, (i < length idxs)%nat ->
     In (class_of idxs i) (unique idxs) /\
     In i (members idxs (class_of idxs i))) /\
  exists merged,
    NoDup (map fst merged) /\
    (forall i, In i (map fst merged) <-> covered parts i) /\
    (forall p, In p merged -> exists part, In part parts /\ In p part) /\
    StronglySorted (desc snd) merged /\
    let kept := cap (default (-1)%Z (max_num (cfg_kwargs c))) merged in
    batched_nms exp_neg boxes scores idxs (Some c) class_agnostic =
    Ok (dets_with boxes kept, map fst kept).
Proof.
  intros Hsplit Hb Hparts. split; [apply unique_NoDup|].
  split; [apply members_cover|].
  eapply batched_nms_split_spec; eassumption.
Qed.

(** *** No overlap among the kept boxes *)

(** C1, as the code has it.  Called with [offset = 0], the width convention
    of the kernel, greedy NMS keeps no two boxes whose IoU exceeds
    [iou_threshold]; and [batched_nms] with a configuration that selects
    the [nms] op keeps no two boxes of one class whose IoU exceeds it on
    the coordinates the op is given, those of [boxes_for_nms], below or
    above the split threshold.  Class agnostic these are the original
    boxes; otherwise they are the boxes after the shift of their class, as
    the code computes it. *)
Theorem kept_boxes_do_not_overlap (boxes : tensor2) (scores : list Q)
    (idxs : list Z) (thr : Q) (off : Z) (st : Q) (mn : Z) (c : nms_cfg)
    (class_agnostic : bool) :
  wf2 boxes -> off = 0%Z ->
  (forall dets inds,
     nms boxes scores thr off st mn = Ok (dets, inds) ->
     no_overlap boxes thr (inject_Z off) inds) /\
  (type_of c = type_nms ->
   iou_threshold (cfg_kwargs c) = Some thr ->
   default 0%Z (offset (cfg_kwargs c)) = off ->
   forall bfn out keep,
     boxes_for_nms boxes idxs (agnostic c class_agnostic) = Ok bfn ->
     batched_nms exp_neg boxes scores idxs (Some c) class_agnostic =
     Ok (out, keep) ->
     no_overlap_in_class bfn idxs thr (inject_Z off) keep /\
     (agnostic c class_agnostic = true ->
      no_overlap_in_class boxes idxs thr (inject_Z off) keep)).
Proof.
  intros Hwf ->. split.
  - intros dets inds H i j Hi Hj Hne. apply nms_inv in H.
    destruct H as (_ & _ & _ & Hinds & _). rewrite Hinds in Hi, Hj.
    eapply nms_keep_on_no_overlap; eassumption.
  - intros Hty Hthr _ bfn out keep Hb H.
    assert (Hbfn : no_overlap_in_class bfn idxs thr (inject_Z 0) keep).
    { intros i j Hi Hj Hne Hcl.
      eapply batched_nms_no_overlap; eassumption. }
    split; [exact Hbfn|].
    intros Hag. rewrite Hag in Hb. cbn [boxes_for_nms] in Hb.
    assert (bfn = boxes) by congruence. now subst bfn.
Qed.

End Claims.

(** *** The code on examples *)

Lemma wf2_doc_boxes : wf2 doc_boxes.
Proof.
  repeat constructor.
Qed.

(** With soft-NMS as the configured op, [batched_nms] keeps two boxes of one
    class whose IoU, a half, exceeds the threshold of a quarter: the second
    box stays with a decayed score. *)
Lemma soft_nms_keeps_overlapping_boxes :
  kept_inds (batched_nms exp_neg_pade half_boxes half_scores half_idxs
                         (Some (cfg_soft (1 # 4))) false) = [0; 1]%nat /\
  ~ no_overlap_in_class half_boxes half_idxs (1 # 4) 0 [0; 1]%nat.
Proof.
  split; [reflexivity|]. intros H.
  specialize (H 0%nat 1%nat (or_introl eq_refl) (or_intror (or_introl eq_refl))
                (ltac:(discriminate)) eq_refl).
  vm_compute in H. apply H. reflexivity.
Qed.

(** Called with [offset = 1], [nms] keeps two boxes that touch in a corner:
    their IoU with [offset = 1] is a seventh, above the threshold of a
    tenth, but the kernel measures them with [offset = 0]. *)
Lemma nms_ignores_offset :
  kept_inds (nms corner_boxes corner_scores (1 # 10) 1 0 (-1)) = [0; 1]%nat /\
  ~ no_overlap corner_boxes (1 # 10) 1 [0; 1]%nat.
Proof.
  split; [reflexivity|]. intros H.
  specialize (H 0%nat 1%nat (or_introl eq_refl) (or_intror (or_introl eq_refl))
                (ltac:(discriminate))).
  vm_compute in H. apply H. reflexivity.
Qed.

(** The arrays handed to the op for class 1 of [twin_boxes] hold the box
    moved by the offset of the class, not the original box. *)
Lemma split_runs_on_shifted_boxes :
  exists bfn b s,
    boxes_for_nms twin_boxes twin_idxs false = Ok bfn /\
    partition_args bfn twin_scores twin_idxs 1 = Ok ([1%nat], b, s) /\
    coord 0 (row b 0) == 2 /\ coord 0 (row twin_boxes 1) == 0.
Proof.
  eexists _, _, _. split; [vm_compute; reflexivity|].
  split; [vm_compute; reflexivity|]. split; reflexivity.
Qed.

(** C2.  Two boxes with negative coordinates in two classes: the offset of
    class 1 does not carry its box off the box of class 0, and the single
    pass suppresses it; class by class, and above the split threshold,
    both are kept. *)
Theorem offset_trick_mixes_classes :
  kept_inds (batched_nms exp_neg_pade neg_boxes neg_scores neg_idxs
                         (Some (cfg_iou (1 # 2))) false) = [0%nat] /\
  kept_inds (batched_nms exp_neg_pade neg_boxes neg_scores neg_idxs
                         (Some (cfg_split (1 # 2) 1)) false) = [0; 1]%nat /\
  per_class_nms_merged neg_boxes neg_scores neg_idxs
                       (cfg_kwargs (cfg_iou (1 # 2))) = Ok [0; 1]%nat.
Proof.
  repeat split; reflexivity.
Qed.


(** The theorems at the example of the docstring. *)

Lemma kept_boxes_do_not_overlap_doc :
  wf2 doc_boxes /\
  no_overlap doc_boxes (6 # 10) 0 [0; 3; 4]%nat /\
  exists bfn,
    boxes_for_nms doc_boxes doc_idxs (agnostic (cfg_iou (6 # 10)) false) =
    Ok bfn /\
    no_overlap_in_class bfn doc_idxs (6 # 10) 0 [0; 1; 3; 4; 6]%nat.
Proof.
  split; [exact wf2_doc_boxes|].
  destruct (kept_boxes_do_not_overlap exp_neg_pade doc_boxes doc_scores
              doc_idxs (6 # 10) 0 0 (-1) (cfg_iou (6 # 10)) false
              wf2_doc_boxes eq_refl) as [H1 H2].
  split.
  - eapply (H1 _ [0; 3; 4]%nat). vm_compute. reflexivity.
  - eexists. split; [vm_compute; reflexivity|].
    eapply (H2 eq_refl eq_refl eq_refl _ _ [0; 1; 3; 4; 6]%nat).
    + vm_compute. reflexivity.
    + vm_compute. reflexivity.
Defined.

Lemma batched_nms_partitioned_twin :
  NoDup (unique twin_idxs) /\
  exists merged,
    map fst merged = [0; 1]%nat /\
    batched_nms exp_neg_pade twin_boxes twin_scores twin_idxs
                (Some (cfg_split (1 # 2) 1)) false =
    Ok (dets_with twin_boxes merged, map fst merged).
Proof.
  destruct (batched_nms_partitioned exp_neg_pade twin_boxes twin_scores
              twin_idxs (cfg_split (1 # 2) 1) false
              (T2 4 [[0; 0; 1; 1]; [2; 2; 3; 3]])
              [[(0%nat, 9 # 10)]; [(1%nat, 8 # 10)]])
    as (Hnd & _ & merged & _ & _ & _ & _ & E).
  - vm_compute. discriminate.
  - vm_compute. reflexivity.
  - vm_compute. reflexivity.
  - split; [exact Hnd|]. cbv zeta in E.
    change (cap (default (-1)%Z (max_num (cfg_kwargs (cfg_split (1 # 2) 1))))
                merged) with merged in E.
    exists merged. split; [|exact E].
    assert (H : kept_inds
                  (batched_nms exp_neg_pade twin_boxes twin_scores twin_idxs
                               (Some (cfg_split (1 # 2) 1)) false) =
                [0; 1]%nat) by reflexivity.
    rewrite E in H. exact H.
Defined.

Lemma batched_nms_no_cfg_doc :
  length doc_scores = size0 doc_boxes /\
  exists inds,
    batched_nms exp_neg_pade doc_boxes doc_scores doc_idxs None false =
    Ok (dets_of doc_boxes doc_scores inds, inds) /\
    Permutation inds (seq 0 (size0 doc_boxes)) /\
    StronglySorted (desc (get doc_scores)) inds.
Proof.
  split; [reflexivity|].
  exact (batched_nms_no_cfg exp_neg_pade doc_boxes doc_scores doc_idxs false
           eq_refl).
Defined.

Lemma batched_nms_offsets_doc :
  wf2 doc_boxes /\
  exists m,
    max_coordinate_of doc_boxes m /\
    batched_nms exp_neg_pade doc_boxes doc_scores doc_idxs
                (Some (cfg_iou (6 # 10))) false =
    (r <- eval_type exp_neg_pade (type_of (cfg_iou (6 # 10)))
                    (shifted doc_boxes doc_idxs m) doc_scores
                    (cfg_kwargs (cfg_iou (6 # 10))) ;;
     let '(dets, keep) := r in
     kept <- index2 doc_boxes keep ;;
     out <- cat_col kept (last_col dets) ;;
     Ok (out, keep)).
Proof.
  split; [exact wf2_doc_boxes|].
  destruct (batched_nms_offsets exp_neg_pade doc_boxes doc_scores doc_idxs
              (cfg_iou (6 # 10)) false wf2_doc_boxes (or_introl eq_refl)
              eq_refl)
    as (m & Hm & E & _).
  - discriminate.
  - reflexivity.
  - reflexivity.
  - exists m. split; [exact Hm | exact E].
Defined.

Lemma nms_match_partition_doc :
  size0 doc_dets <> O /\ ncol doc_dets = 5%nat /\
  exists matched,
    nms_match doc_dets (6 # 10) = Ok matched /\
    Permutation (concat matched) (seq 0 (size0 doc_dets)) /\
    Forall (fun g =>
              g <> [] /\
              forall j, In j g ->
                get (last_col doc_dets) j <= get (last_col doc_dets) (hd O g))
           matched.
Proof.
  split; [discriminate|]. split; [reflexivity|].
  apply (nms_match_partition doc_dets (6 # 10)); [discriminate | reflexivity].
Defined.

Lemma nms_score_threshold_doc :
  0 < 45 # 100 /\ size0 doc_boxes = length doc_scores /\
  exists inds,
    NMSop_forward doc_boxes doc_scores (6 # 10) 0 (45 # 100) (-1) = Ok inds /\
    Forall (fun i => (i < length doc_scores)%nat /\
                     45 # 100 < get doc_scores i) inds.
Proof.
  split; [reflexivity|]. split; [reflexivity|].
  destruct (nms_score_threshold doc_boxes doc_scores (6 # 10) 0 (45 # 100)
              (-1) eq_refl eq_refl) as (inds & H1 & _ & H2 & _).
  exists inds. split; [exact H1 | exact H2].
Defined.

Lemma nms_idempotent_doc :
  wf2 doc_boxes /\
  nms doc_boxes doc_scores (6 # 10) 0 0 (-1) =
  Ok (dets_of doc_boxes doc_scores [0; 3; 4]%nat, [0; 3; 4]%nat) /\
  nms (cols 0 4 (dets_of doc_boxes doc_scores [0; 3; 4]%nat))
      (last_col (dets_of doc_boxes doc_scores [0; 3; 4]%nat))
      (6 # 10) 0 0 (-1) =
  Ok (dets_of doc_boxes doc_scores [0; 3; 4]%nat, [0; 1; 2]%nat).
Proof.
  split; [exact wf2_doc_boxes|].
  assert (H : nms doc_boxes doc_scores (6 # 10) 0 0 (-1) =
              Ok (dets_of doc_boxes doc_scores [0; 3; 4]%nat, [0; 3; 4]%nat))
    by (vm_compute; reflexivity).
  split; [exact H|].
  exact (nms_idempotent doc_boxes doc_scores (6 # 10) 0 0 (-1) _ _
           wf2_doc_boxes H).
Defined.

End Properties.

(** ** Further facts on [nms.py] *)

Module MoreFacts.
Import Torch PurePytorchNms Nms NmsSpec.
Import TorchFacts GreedyFacts NmsFacts BatchedFacts.

(** *** The checks of [nms] *)

Lemma nms_invalid (boxes : tensor2) (scores : list Q) (thr : Q) (off : Z)
    (st : Q) (mn : Z) :
  ~ nms_valid boxes scores off ->
  nms boxes scores thr off st mn = Raise AssertionError.
Proof.
  intros H. unfold nms.
  destruct (Nat.eqb_spec (ncol boxes) 4) as [Hc|]; [|reflexivity].
  destruct (Nat.eqb_spec (size0 boxes) (length scores)) as [Hn|];
    [|reflexivity].
  destruct ((off =? 0)%Z || (off =? 1)%Z) eqn:E; [|reflexivity].
  exfalso. apply H. repeat split; auto.
  apply orb_true_iff in E. destruct E as [E|E]; apply Z.eqb_eq in E; auto.
Qed.

Lemma nms_valid_dec (boxes : tensor2) (scores : list Q) (off : Z) :
  nms_valid boxes scores off \/ ~ nms_valid boxes scores off.
Proof.
  unfold nms_valid.
  destruct (Nat.eq_dec (ncol boxes) 4); [|right; tauto].
  destruct (Nat.eq_dec (size0 boxes) (length scores)); [|right; tauto].
  destruct (Z.eq_dec off 0); [left; auto|].
  destruct (Z.eq_dec off 1); [left; auto | right; tauto].
Qed.

Lemma cap_minus_one {A : Type} (l : list A) : cap (-1) l = l.
Proof.
  reflexivity.
Qed.

Lemma nms_keep_cap (boxes : tensor2) (scores : list Q) (thr st : Q)
    (mn : Z) :
  nms_keep boxes scores thr st mn =
  cap mn (nms_keep boxes scores thr st (-1)).
Proof.
  reflexivity.
Qed.

(** *** A part of the arrays, with the score filter *)

Lemma filter_map_comm {A B : Type} (p : B -> bool) (f : A -> B)
    (l : list A) :
  filter p (map f l) = map f (filter (fun a => p (f a)) l).
Proof.
  induction l as [|a l IH]; simpl; [reflexivity|].
  destruct (p (f a)); simpl; now rewrite IH.
Qed.

Lemma candidates_sub (scores : list Q) (st : Q) (sel : list nat) :
  map (fun k => nth k sel O)
      (candidates (sub scores sel) st (seq 0 (length sel))) =
  candidates scores st sel.
Proof.
  unfold candidates. destruct (Qlt_bool 0 st).
  - transitivity (filter (fun i => Qlt_bool st (get scores i))
                         (map (fun k => nth k sel O) (seq 0 (length sel)))).
    + rewrite filter_map_comm. f_equal. apply filter_ext_in.
      intros k Hk. apply in_seq in Hk. rewrite get_sub by lia. reflexivity.
    + now rewrite map_nth_seq_sel.
  - apply map_nth_seq_sel.
Qed.

(** What is kept of a part of the arrays, taken alone, is what is kept of
    the detections of the part in the whole arrays. *)
Lemma nms_keep_sub (boxes : tensor2) (scores : list Q) (thr st : Q)
    (mn : Z) (sel : list nat) :
  map (fun k => nth k sel O)
      (nms_keep (sub2 boxes sel) (sub scores sel) thr st mn) =
  nms_keep_on boxes scores thr st mn sel.
Proof.
  unfold nms_keep, nms_keep_on.
  replace (length (sub scores sel)) with (length sel)
    by (unfold sub; now rewrite length_map).
  rewrite cap_map, greedy_sorted_sub.
  - now rewrite candidates_sub.
  - intros k Hk. apply candidates_In, in_seq in Hk. lia.
Qed.

Lemma size0_sub2 (t : tensor2) (sel : list nat) :
  size0 (sub2 t sel) = length sel.
Proof.
  unfold size0, sub2. cbn [rows]. apply length_map.
Qed.

Lemma length_sub (s : list Q) (sel : list nat) :
  length (sub s sel) = length sel.
Proof.
  unfold sub. apply length_map.
Qed.

(** *** The names of the soft-NMS kernels *)

(** [method_dict] followed by [method_map] gives each name its kernel. *)
Lemma method_round_trip (method : string) :
  (method_name method ->
   exists z k, method_dict method = Some z /\ method_map z = Some k /\
     ((method = "naive"%string /\ k = naive) \/
      (method = "linear"%string /\ k = linear) \/
      (method = "gaussian"%string /\ k = gaussian))) /\
  (~ method_name method -> method_dict method = None).
Proof.
  unfold method_name, method_dict. split.
  - intros [->|[->| ->]]; cbn; eexists _, _;
      (split; [reflexivity|]); (split; [reflexivity|]); tauto.
  - intros H.
    destruct (String.eqb_spec method "naive"); [tauto|].
    destruct (String.eqb_spec method "linear"); [tauto|].
    destruct (String.eqb_spec method "gaussian"); [tauto|].
    reflexivity.
Qed.

Lemma method_name_dec (method : string) :
  method_name method \/ ~ method_name method.
Proof.
  unfold method_name.
  destruct (string_dec method "naive"); [tauto|].
  destruct (string_dec method "linear"); [tauto|].
  destruct (string_dec method "gaussian"); tauto.
Qed.

Lemma soft_nms_invalid (exp_neg : Q -> Q) (boxes : tensor2)
    (scores : list Q) (thr sg ms : Q) (method : string) (off : Z) :
  ~ (nms_valid boxes scores off /\ method_name method) ->
  soft_nms exp_neg boxes scores thr sg ms method off = Raise AssertionError.
Proof.
  intros H. unfold soft_nms.
  destruct (Nat.eqb_spec (ncol boxes) 4) as [Hc|]; [|reflexivity].
  destruct (Nat.eqb_spec (size0 boxes) (length scores)) as [Hn|];
    [|reflexivity].
  destruct ((off =? 0)%Z || (off =? 1)%Z) eqn:E; [|reflexivity].
  cbn [assert bind].
  destruct (method_name_dec method) as [Hm|Hm].
  - exfalso. apply H. split; [|exact Hm]. repeat split; auto.
    apply orb_true_iff in E. destruct E as [E|E]; apply Z.eqb_eq in E; auto.
  - now rewrite (proj2 (method_round_trip method) Hm).
Qed.

Lemma soft_nms_valid (exp_neg : Q -> Q) (boxes : tensor2)
    (scores : list Q) (thr sg ms : Q) (method : string) (off : Z) :
  nms_valid boxes scores off -> method_name method ->
  exists r, soft_nms exp_neg boxes scores thr sg ms method off = Ok r.
Proof.
  intros (Hc & Hn & Hoff) Hm. unfold soft_nms.
  rewrite Hc, Hn, !Nat.eqb_refl.
  replace ((off =? 0)%Z || (off =? 1)%Z) with true
    by (destruct Hoff; subst; reflexivity).
  cbn [assert bind].
  destruct (proj1 (method_round_trip method) Hm) as (z & k & Hz & Hk & _).
  rewrite Hz. unfold SoftNMSop_forward. rewrite Hk. cbn [bind].
  destruct (soft_nms_pytorch _ _ _ _ _ _ _). eexists. reflexivity.
Qed.

(** *** The rows of the result of [batched_nms] *)

Lemma cat_col_sub2_inv (boxes : tensor2) (keep : list nat) (ss : list Q)
    (out : tensor2) :
  cat_col (sub2 boxes keep) ss = Ok out ->
  length ss = length keep /\
  out = T2 (S (ncol boxes)) (append_col (map (row boxes) keep) ss).
Proof.
  unfold cat_col. rewrite size0_sub2.
  destruct (Nat.eqb_spec (length keep) (length ss)) as [E|]; [|discriminate].
  intros H. inversion H. auto.
Qed.

Lemma index2_inv (t : tensor2) (inds : list nat) (b : tensor2) :
  index2 t inds = Ok b ->
  Forall (fun i => (i < size0 t)%nat) inds /\ b = sub2 t inds.
Proof.
  unfold index2. intros H. apply bind_ok_inv in H.
  destruct H as (rs & Hrs & H). inversion H.
  apply (index_inv []) in Hrs. destruct Hrs as [HF ->]. auto.
Qed.

Lemma Forall_firstn {A : Type} (P : A -> Prop) (n : nat) (l : list A) :
  Forall P l -> Forall P (firstn n l).
Proof.
  intros H. apply Forall_forall. intros x Hx. apply firstn_In in Hx.
  rewrite Forall_forall in H. auto.
Qed.

(** *** The shape of [boxes_for_nms] and of the kept array *)

Lemma boxes_for_nms_ncol (boxes : tensor2) (idxs : list Z) (a : bool)
    (bfn : tensor2) :
  boxes_for_nms boxes idxs a = Ok bfn -> ncol bfn = ncol boxes.
Proof.
  destruct a; intros H.
  - now inversion H.
  - now apply boxes_for_nms_inv in H.
Qed.

Lemma size0_dets_of (boxes : tensor2) (scores : list Q) (inds : list nat) :
  size0 (dets_of boxes scores inds) = length inds.
Proof.
  unfold size0, dets_of. cbn [rows]. apply length_map.
Qed.

(** *** The classes above the split threshold *)

Lemma Forall2_In_l {A B : Type} (R : A -> B -> Prop) (la : list A)
    (lb : list B) (a : A) :
  Forall2 R la lb -> In a la -> exists b, In b lb /\ R a b.
Proof.
  induction 1 as [|x y la lb Hxy _ IH]; intros Hin; [destruct Hin|].
  destruct Hin as [<-|Hin].
  - exists y. split; [now left | exact Hxy].
  - destruct (IH Hin) as (b & Hb & HR). exists b. split; [now right|auto].
Qed.

Lemma in_combine_map {A B C : Type} (f : A -> B) (g : A -> C) (l : list A)
    (p : B * C) :
  In p (combine (map f l) (map g l)) -> exists k, In k l /\ p = (f k, g k).
Proof.
  induction l as [|a l IH]; simpl; [tauto|].
  intros [<-|H]; [exists a; auto|].
  destruct (IH H) as (k & Hk & E). exists k. auto.
Qed.

(** With the [nms] op the result of a class holds what plain [nms] keeps
    of the class alone, each index with its own score. *)
Lemma per_class_nms_result (boxes : tensor2) (scores : list Q)
    (idxs : list Z) (kw : kwargs) (thr : Q) (id : Z)
    (part : list (nat * Q)) :
  per_class call_nms boxes scores idxs kw id = Ok part ->
  iou_threshold kw = Some thr -> max_num kw = None ->
  map fst part =
  class_nms boxes scores idxs thr (default 0%Z (offset kw))
            (default 0 (score_threshold kw)) id /\
  forall p, In p part -> snd p = get scores (fst p).
Proof.
  intros H Hthr Hmn. apply per_class_inv in H. cbv zeta in H.
  set (M := members idxs id) in *.
  destruct H as (_ & _ & dets & keepc & Hop & HkM & Hlen & ->).
  apply call_nms_inv in Hop. destruct Hop as (thr' & Hthr' & Hnms).
  assert (thr' = thr) by congruence. subst thr'.
  rewrite Hmn in Hnms. cbn [default] in Hnms.
  split.
  - rewrite map_fst_combine by now rewrite length_map, last_col_length.
    unfold class_nms. fold M. now rewrite Hnms.
  - apply nms_inv in Hnms. destruct Hnms as (_ & _ & _ & _ & ->).
    rewrite last_col_dets_of. unfold sub at 1.
    intros p Hp. apply in_combine_map in Hp. destruct Hp as (k & Hk & ->).
    cbn [fst snd]. rewrite Forall_forall in HkM.
    apply get_sub. now apply HkM.
Qed.

(** An index that plain [nms] keeps of its class is a member of the
    class. *)
Lemma class_nms_member (boxes : tensor2) (scores : list Q) (idxs : list Z)
    (thr : Q) (off : Z) (st : Q) (id : Z) (i : nat) :
  In i (class_nms boxes scores idxs thr off st id) ->
  In i (members idxs id).
Proof.
  unfold class_nms. set (M := members idxs id). intros H.
  apply in_map_iff in H. destruct H as (k & <- & Hk).
  destruct (nms (sub2 boxes M) (sub scores M) thr off st (-1))
    as [[dets inds]|e] eqn:E; [|destruct Hk].
  cbn [kept_inds] in Hk. apply nms_inv in E.
  destruct E as (_ & Hn & _ & Hi & _). rewrite Hi in Hk.
  apply nms_keep_on_In, in_seq in Hk. rewrite length_sub in Hk.
  apply nth_In. lia.
Qed.

(** What the loop over the classes leaves, with the [nms] op: the results
    of the classes, and their merge in descending order of the scores. *)
Lemma split_merged (exp_neg : Q -> Q) (boxes : tensor2) (scores : list Q)
    (idxs : list Z) (c : nms_cfg) (class_agnostic : bool)
    (bfn out : tensor2) (keep : list nat) :
  type_of c = type_nms ->
  boxes_for_nms boxes idxs (agnostic c class_agnostic) = Ok bfn ->
  (split_thr_of c <= Z.of_nat (size0 boxes))%Z ->
  batched_nms exp_neg boxes scores idxs (Some c) class_agnostic =
  Ok (out, keep) ->
  exists parts merged,
    Forall2 (fun id part =>
               per_class call_nms bfn scores idxs
                         (pop_max_num (cfg_kwargs c)) id = Ok part)
            (unique idxs) parts /\
    NoDup (map fst merged) /\
    (forall i, In i (map fst merged) <-> covered parts i) /\
    (forall p, In p merged -> exists part, In part parts /\ In p part) /\
    StronglySorted (desc snd) merged /\
    keep = map fst (cap (default (-1)%Z (max_num (cfg_kwargs c))) merged).
Proof.
  intros Hty Hb Hsplit H0. assert (H := H0).
  unfold batched_nms in H.
  change (default class_agnostic (cfg_class_agnostic c))
    with (agnostic c class_agnostic) in H.
  change (default 10000%Z (cfg_split_thr c)) with (split_thr_of c) in H.
  change (default type_nms (cfg_type c)) with (type_of c) in H.
  rewrite Hb in H. cbn [bind] in H.
  pose proof (boxes_for_nms_size0 _ _ _ _ Hb) as Hsize.
  rewrite Hty in H. cbn [eval_type] in H.
  apply Z.ltb_ge in Hsplit. rewrite Hsize, Hsplit in H.
  apply Z.ltb_ge in Hsplit.
  apply bind_ok_inv in H. destruct H as (st & Hloop & _).
  rewrite for_each_record in Hloop.
  apply bind_ok_inv in Hloop. destruct Hloop as (parts & Hparts & _).
  destruct (batched_nms_split_spec exp_neg boxes scores idxs c
              class_agnostic bfn parts Hb Hsplit)
    as (merged & Hnd & Hcov & Hpairs & Hsorted & E);
    [rewrite Hty; exact Hparts|].
  cbv zeta in E. rewrite E in H0.
  exists parts, merged. apply for_all_inv in Hparts.
  repeat split; auto; try apply Hcov. congruence.
Qed.

(** The merged results in the order of the scores of the input, when each
    result comes with its own score. *)
Lemma merged_sorted (scores : list Q) (parts : list (list (nat * Q)))
    (merged : list (nat * Q)) :
  (forall part p, In part parts -> In p part -> snd p = get scores (fst p)) ->
  (forall p, In p merged -> exists part, In part parts /\ In p part) ->
  StronglySorted (desc snd) merged ->
  StronglySorted (desc (get scores)) (map fst merged).
Proof.
  intros Hscore Hpairs Hsorted. apply StronglySorted_map.
  apply (StronglySorted_impl_in (desc snd)); [|exact Hsorted].
  intros p q Hp Hq. unfold desc.
  destruct (Hpairs p Hp) as (part & Hpart & Hpp).
  destruct (Hpairs q Hq) as (part' & Hpart' & Hqq).
  now rewrite <- (Hscore part p Hpart Hpp), <- (Hscore part' q Hpart' Hqq).
Qed.

(** The results of the classes with the [nms] op: an index is among them
    exactly when plain [nms] keeps it of its class, and it comes with its
    own score. *)
Lemma parts_of_nms (boxes : tensor2) (scores : list Q) (idxs : list Z)
    (kw : kwargs) (thr : Q) (parts : list (list (nat * Q))) :
  Forall2 (fun id part =>
             per_class call_nms boxes scores idxs kw id = Ok part)
          (unique idxs) parts ->
  iou_threshold kw = Some thr -> max_num kw = None ->
  (forall i,
      covered parts i <->
      In i (class_nms boxes scores idxs thr (default 0%Z (offset kw))
                      (default 0 (score_threshold kw)) (class_of idxs i))) /\
  (forall part p, In part parts -> In p part -> snd p = get scores (fst p)).
Proof.
  intros Hparts Hthr Hmn.
  assert (Hpart : forall part, In part parts ->
            exists id, In id (unique idxs) /\
              per_class call_nms boxes scores idxs kw id = Ok part).
  { intros part Hp. apply (Forall2_In_r _ _ _ _ Hparts Hp). }
  split.
  - intros i. split.
    + intros (part & Hin & Hi). destruct (Hpart part Hin) as (id & _ & Hid).
      destruct (per_class_nms_result _ _ _ _ _ _ _ Hid Hthr Hmn)
        as [Hfst _].
      rewrite (per_class_class _ _ _ _ _ _ _ _ Hid Hi).
      now rewrite <- Hfst.
    + intros Hi. pose proof (class_nms_member _ _ _ _ _ _ _ _ Hi) as Hm.
      apply members_In in Hm. destruct Hm as [Hlt _].
      destruct (members_cover idxs i Hlt) as [Hu _].
      destruct (Forall2_In_l _ _ _ _ Hparts Hu) as (part & Hin & Hid).
      destruct (per_class_nms_result _ _ _ _ _ _ _ Hid Hthr Hmn)
        as [Hfst _].
      exists part. split; [exact Hin|]. now rewrite Hfst.
  - intros part p Hin Hp. destruct (Hpart part Hin) as (id & _ & Hid).
    destruct (per_class_nms_result _ _ _ _ _ _ _ Hid Hthr Hmn) as [_ Hs].
    now apply Hs.
Qed.

(** *** Classes that do not overlap *)

Lemma filter_comm {A : Type} (p q : A -> bool) (l : list A) :
  filter p (filter q l) = filter q (filter p l).
Proof.
  induction l as [|a l IH]; simpl; [reflexivity|].
  destruct (p a) eqn:Ep, (q a) eqn:Eq; simpl; rewrite ?Ep, ?Eq, IH;
    reflexivity.
Qed.

Lemma candidates_filter (scores : list Q) (st : Q) (p : nat -> bool)
    (sel : list nat) :
  filter p (candidates scores st sel) = candidates scores st (filter p sel).
Proof.
  unfold candidates. destruct (Qlt_bool 0 st); [apply filter_comm|].
  reflexivity.
Qed.

(** When no box overlaps a box of another class, what one pass of the
    selection keeps of a class is what the selection keeps of the class
    alone. *)
Lemma apart_class (boxes : tensor2) (idxs : list Z) (scores : list Q)
    (thr st : Q) (id : Z) :
  length idxs = size0 boxes -> length scores = size0 boxes ->
  classes_apart boxes idxs thr ->
  filter (fun i => Z.eqb id (class_of idxs i))
         (nms_keep boxes scores thr st (-1)) =
  nms_keep_on boxes scores thr st (-1) (members idxs id).
Proof.
  intros Hidx Hlen Hapart.
  unfold nms_keep, nms_keep_on. rewrite !cap_minus_one.
  set (P := fun i => Z.eqb id (class_of idxs i)).
  rewrite greedy_filter.
  - cbn [filter]. rewrite sort_desc_by_filter, candidates_filter.
    replace (filter P (seq 0 (length scores))) with (members idxs id)
      by (unfold members; now rewrite Hidx, Hlen).
    reflexivity.
  - cbn [app]. intros a b Ha Hb Hov. unfold P.
    destruct (Z.eq_dec (class_of idxs a) (class_of idxs b)) as [E|E];
      [now rewrite E|].
    exfalso.
    apply sort_desc_by_In, candidates_In, in_seq in Ha, Hb.
    assert (Hle : iou (row boxes a) (row boxes b) 0 <= thr)
      by (apply Hapart; auto; lia).
    apply overlaps_false_iff in Hle. congruence.
Qed.

Lemma classes_apartb_sound (boxes : tensor2) (idxs : list Z) (thr : Q) :
  classes_apartb boxes idxs thr = true -> classes_apart boxes idxs thr.
Proof.
  unfold classes_apartb, classes_apart. intros H i j Hi Hj Hne.
  rewrite forallb_forall in H.
  assert (Hi' : In i (seq 0 (size0 boxes))) by (apply in_seq; lia).
  assert (Hj' : In j (seq 0 (size0 boxes))) by (apply in_seq; lia).
  specialize (H i Hi'). rewrite forallb_forall in H. specialize (H j Hj').
  apply orb_true_iff in H. destruct H as [H|H].
  - apply Z.eqb_eq in H. contradiction.
  - apply negb_true_iff in H. now apply overlaps_false_iff.
Qed.

(** On valid arguments the indices [class_nms] gives are the selection
    among the members of the class. *)
Lemma class_nms_keep_on (boxes : tensor2) (scores : list Q) (idxs : list Z)
    (thr : Q) (off : Z) (st : Q) (id : Z) :
  ncol boxes = 4%nat -> off = 0%Z \/ off = 1%Z ->
  class_nms boxes scores idxs thr off st id =
  nms_keep_on boxes scores thr st (-1) (members idxs id).
Proof.
  intros Hc Hoff. unfold class_nms.
  rewrite nms_ok; [| exact Hc | now rewrite size0_sub2, length_sub | exact Hoff].
  cbn [kept_inds]. apply nms_keep_sub.
Qed.

(** *** The groups of [nms_match] and the selection of [nms] *)

Lemma groups_heads (ov : nat -> nat -> bool) (kept l : list nat) :
  map (hd O) (groups ov kept l) = greedy ov kept l.
Proof.
  revert kept. induction l as [|a r IH]; intros kept; simpl; [reflexivity|].
  destruct (existsb (fun k => ov k a) kept); [apply IH|].
  simpl. f_equal. apply IH.
Qed.

Lemma coord_firstn_4 (k : nat) (r : list Q) :
  (k < 4)%nat -> coord k (firstn 4 r) = coord k r.
Proof.
  intros Hk. unfold coord.
  destruct r as [|x0 [|x1 [|x2 [|x3 r]]]];
    destruct k as [|[|[|[|k]]]]; try lia; reflexivity.
Qed.

Lemma iou_firstn_4 (a b : list Q) (o : Q) :
  iou (firstn 4 a) (firstn 4 b) o = iou a b o.
Proof.
  unfold iou, intersection, area.
  now rewrite !coord_firstn_4 by lia.
Qed.

Lemma overlaps_cols_4 (dets : tensor2) (thr : Q) (i j : nat) :
  (i < size0 dets)%nat -> (j < size0 dets)%nat ->
  overlaps (cols 0 4 dets) thr i j = overlaps dets thr i j.
Proof.
  intros Hi Hj. unfold overlaps.
  fold (row (cols 0 4 dets) i) (row (cols 0 4 dets) j)
       (row dets i) (row dets j).
  rewrite !row_cols by assumption. cbn [skipn Nat.sub].
  now rewrite iou_firstn_4.
Qed.

Lemma nms_match_groups (dets : tensor2) (thr : Q) :
  size0 dets <> O -> ncol dets = 5%nat ->
  nms_match dets thr =
  Ok (groups (overlaps dets thr) [] (argsort_desc (last_col dets))).
Proof.
  intros Hn Hc. unfold nms_match. apply Nat.eqb_neq in Hn.
  rewrite Hn, Hc. cbn [Nat.eqb assert bind]. f_equal.
  unfold nms_match_pytorch. apply match_scan_groups.
  - apply sort_desc_by_NoDup, seq_NoDup.
  - apply agrees_init. intros j Hj.
    apply sort_desc_by_In, in_seq in Hj. rewrite last_col_length in Hj. lia.
Qed.

Lemma nms_keep_plain (boxes : tensor2) (scores : list Q) (thr : Q) :
  nms_keep boxes scores thr 0 (-1) =
  greedy (overlaps boxes thr) [] (argsort_desc scores).
Proof.
  reflexivity.
Qed.

(** *** Every class returns when one pass over all boxes does *)

Lemma call_nms_flags (boxes : tensor2) (scores : list Q) (kw : kwargs)
    (r : tensor2 * list nat) :
  call_nms boxes scores kw = Ok r ->
  is_some (sigma kw) || is_some (min_score kw) || is_some (method kw) = false.
Proof.
  unfold call_nms.
  destruct (is_some (sigma kw) || is_some (min_score kw) ||
            is_some (method kw)); [discriminate | reflexivity].
Qed.

Lemma per_class_nms_ok (boxes : tensor2) (scores : list Q) (idxs : list Z)
    (kw : kwargs) (thr : Q) (id : Z) :
  ncol boxes = 4%nat -> size0 boxes = length scores ->
  length idxs = size0 boxes ->
  is_some (sigma kw) || is_some (min_score kw) || is_some (method kw) =
  false ->
  iou_threshold kw = Some thr ->
  default 0%Z (offset kw) = 0%Z \/ default 0%Z (offset kw) = 1%Z ->
  exists part, per_class call_nms boxes scores idxs kw id = Ok part.
Proof.
  intros Hc Hn Hidx Hflags Hthr Hoff. unfold per_class.
  set (M := members idxs id).
  assert (HM : Forall (fun i => (i < length idxs)%nat) M).
  { apply Forall_forall. intros i Hi. now apply members_In in Hi. }
  rewrite index2_ok by (rewrite <- Hidx; exact HM).
  rewrite index_scores_ok by (rewrite <- Hn, <- Hidx; exact HM).
  cbn [bind]. unfold call_nms. rewrite Hflags, Hthr.
  rewrite nms_ok;
    [| exact Hc | now rewrite size0_sub2, length_sub | exact Hoff].
  cbn [bind].
  rewrite (index_ok O M)
    by (rewrite <- (length_sub scores M); apply nms_keep_lt).
  cbn [bind]. rewrite length_map, size0_dets_of, Nat.eqb_refl.
  eexists. reflexivity.
Qed.

Lemma for_all_ok {A B : Type} (f : A -> result B) (l : list A) :
  (forall a, In a l -> exists b, f a = Ok b) ->
  exists bs, for_all f l = Ok bs.
Proof.
  induction l as [|a l IH]; intros H; simpl; [eexists; reflexivity|].
  destruct (H a (or_introl eq_refl)) as (b & ->).
  destruct (IH (fun a' Ha' => H a' (or_intror Ha'))) as (bs & ->).
  eexists. reflexivity.
Qed.

(** *** The ops of the module take four columns *)

Lemma named_op_columns (exp_neg : Q -> Q) (t : nms_type) (b : tensor2)
    (s : list Q) (kw : kwargs) (r : tensor2 * list nat) :
  named t -> eval_type exp_neg t b s kw = Ok r -> ncol b = 4%nat.
Proof.
  intros [-> | [-> | ->]] H; cbn [eval_type] in H.
  - destruct r as [dets keep]. apply call_nms_inv in H.
    destruct H as (thr & _ & H). now apply nms_inv in H.
  - unfold call_soft_nms in H.
    destruct (is_some (score_threshold kw) || is_some (max_num kw));
      [discriminate|].
    destruct (Nat.eq_dec (ncol b) 4) as [E|E]; [exact E|].
    rewrite soft_nms_invalid in H; [discriminate|].
    intros [(Hc & _) _]. contradiction.
  - discriminate.
Qed.

End MoreFacts.

(** ** Further properties of [nms.py] *)

Module MoreProperties.
Import Torch PurePytorchNms Nms NmsSpec.
Import TorchFacts GreedyFacts NmsFacts BatchedFacts MoreFacts.

Section More.

Variable exp_neg : Q -> Q.

(** *** The checks and the errors of [nms] *)

(** [nms] returns exactly when the boxes have four columns, there are as
    many scores as boxes and [offset] is 0 or 1; otherwise it raises an
    [AssertionError].  No indexing inside it goes out of range. *)
Theorem nms_returns_iff_valid (boxes : tensor2) (scores : list Q) (thr : Q)
    (off : Z) (st : Q) (mn : Z) :
  ((exists r, nms boxes scores thr off st mn = Ok r) <->
   nms_valid boxes scores off) /\
  ((forall r, nms boxes scores thr off st mn <> Ok r) ->
   nms boxes scores thr off st mn = Raise AssertionError).
Proof.
  split; [split|].
  - intros [[dets inds] H]. apply nms_inv in H. unfold nms_valid. tauto.
  - intros (Hc & Hn & Hoff). eexists. now apply nms_ok.
  - intros H. apply nms_invalid. intros (Hc & Hn & Hoff).
    eapply H. now apply nms_ok.
Qed.

(** [max_num > 0] cuts the result of [nms] to its first [max_num]
    detections and does nothing else: the kept indices and the rows of the
    kept array are a prefix of what [nms] returns without [max_num]. *)
Theorem nms_max_num_prefix (boxes : tensor2) (scores : list Q) (thr : Q)
    (off : Z) (st : Q) (mn : Z) :
  kept_inds (nms boxes scores thr off st mn) =
  cap mn (kept_inds (nms boxes scores thr off st (-1))) /\
  (forall dets inds dets' inds',
     nms boxes scores thr off st mn = Ok (dets, inds) ->
     nms boxes scores thr off st (-1) = Ok (dets', inds') ->
     rows dets = cap mn (rows dets') /\
     ((0 < mn)%Z -> (Z.of_nat (length inds) <= mn)%Z)).
Proof.
  split.
  - destruct (nms_valid_dec boxes scores off) as [(Hc & Hn & Hoff)|Hv].
    + rewrite !nms_ok by assumption. cbn [kept_inds]. apply nms_keep_cap.
    + rewrite !nms_invalid by assumption. unfold cap.
      destruct (0 <? mn)%Z; [now rewrite firstn_nil | reflexivity].
  - intros dets inds dets' inds' H H'.
    apply nms_inv in H, H'.
    destruct H as (_ & _ & _ & Hi & ->). destruct H' as (_ & _ & _ & Hi' & ->).
    split.
    + unfold dets_of. cbn [rows]. rewrite <- cap_map. f_equal.
      rewrite Hi, Hi'. apply nms_keep_cap.
    + intros Hmn. rewrite Hi. now apply nms_keep_on_length.
Qed.

(** What [nms] returns: distinct indices of the input, in descending order
    of their scores, above [score_threshold] when it is positive, and for
    each of them its box with its score. *)
Theorem nms_result_invariants (boxes : tensor2) (scores : list Q) (thr : Q)
    (off : Z) (st : Q) (mn : Z) (dets : tensor2) (inds : list nat) :
  nms boxes scores thr off st mn = Ok (dets, inds) ->
  NoDup inds /\
  Forall (fun i => (i < size0 boxes)%nat) inds /\
  StronglySorted (desc (get scores)) inds /\
  (0 < st -> Forall (fun i => st < get scores i) inds) /\
  dets = dets_of boxes scores inds.
Proof.
  intros H. apply nms_inv in H. destruct H as (_ & Hn & _ & Hi & Hd).
  split; [|split; [|split; [|split]]].
  - rewrite Hi. apply nms_keep_on_NoDup, seq_NoDup.
  - rewrite Hi, Hn. apply nms_keep_lt.
  - rewrite Hi. apply nms_keep_on_sorted.
  - intros Hst. apply Forall_forall. intros i Hin. rewrite Hi in Hin.
    apply Qlt_bool_iff.
    eapply nms_keep_on_score; [exact Hin | now apply Qlt_bool_iff].
  - exact Hd.
Qed.

(** *** The checks and the errors of [soft_nms] *)

(** [soft_nms] returns exactly when the boxes have four columns, there are
    as many scores as boxes, [offset] is 0 or 1 and [method] is one of
    ['naive'], ['linear'], ['gaussian']; otherwise it raises an
    [AssertionError].  The code of a method that [method_dict] gives is
    always a key of [method_map]: [SoftNMSop.forward] raises no
    [KeyError] under [soft_nms]. *)
Theorem soft_nms_returns_iff_valid (boxes : tensor2) (scores : list Q)
    (thr sg ms : Q) (method : string) (off : Z) :
  ((exists r, soft_nms exp_neg boxes scores thr sg ms method off = Ok r) <->
   nms_valid boxes scores off /\ method_name method) /\
  ((forall r, soft_nms exp_neg boxes scores thr sg ms method off <> Ok r) ->
   soft_nms exp_neg boxes scores thr sg ms method off =
   Raise AssertionError).
Proof.
  assert (Hdec : (nms_valid boxes scores off /\ method_name method) \/
                 ~ (nms_valid boxes scores off /\ method_name method)).
  { destruct (nms_valid_dec boxes scores off), (method_name_dec method);
      tauto. }
  split; [split|].
  - intros [r H]. destruct Hdec as [Hv|Hv]; [exact Hv|].
    rewrite soft_nms_invalid in H by exact Hv. discriminate.
  - intros [Hv Hm]. now apply soft_nms_valid.
  - intros H. apply soft_nms_invalid. intros [Hv Hm].
    destruct (soft_nms_valid exp_neg boxes scores thr sg ms method off Hv Hm)
      as [r Hr].
    exact (H r Hr).
Qed.

(** *** [batched_nms] and the original boxes *)

(** Whatever the configuration and the op, the array [batched_nms] returns
    holds, for each returned index, the row of the original boxes at that
    index followed by one score: the indices are in range, and no shifted
    coordinate is returned. *)
Theorem batched_nms_returns_original_rows (boxes : tensor2)
    (scores : list Q) (idxs : list Z) (cfg : option nms_cfg)
    (class_agnostic : bool) (out : tensor2) (keep : list nat) :
  batched_nms exp_neg boxes scores idxs cfg class_agnostic = Ok (out, keep) ->
  Forall (fun i => (i < size0 boxes)%nat) keep /\
  exists kept_scores,
    length kept_scores = length keep /\
    out = T2 (S (ncol boxes)) (append_col (map (row boxes) keep) kept_scores).
Proof.
  intros H. unfold batched_nms in H. destruct cfg as [c|].
  - apply bind_ok_inv in H. destruct H as (bfn & _ & H).
    destruct (Z.of_nat (size0 bfn) <? default 10000%Z (cfg_split_thr c))%Z.
    + apply bind_ok_inv in H. destruct H as ([dets keep'] & _ & H).
      apply bind_ok_inv in H. destruct H as (b & Hb & H).
      apply bind_ok_inv in H. destruct H as (o & Ho & H).
      inversion H; subst o keep'. clear H.
      apply index2_inv in Hb. destruct Hb as [HF ->].
      apply cat_col_sub2_inv in Ho. split; [exact HF|]. eauto.
    + apply bind_ok_inv in H. destruct H as ([tm sa] & _ & H).
      apply bind_ok_inv in H. destruct H as (ks & _ & H).
      unfold sort_desc in H.
      apply bind_ok_inv in H. destruct H as (keep1 & _ & H).
      apply bind_ok_inv in H. destruct H as (b & Hb & H).
      apply index2_inv in Hb. destruct Hb as [HF ->].
      destruct (0 <? default (-1)%Z (max_num (cfg_kwargs c)))%Z.
      * apply bind_ok_inv in H. destruct H as (o & Ho & H).
        inversion H; subst o keep. clear H.
        unfold sub2 in Ho. cbn [ncol rows] in Ho. rewrite firstn_map in Ho.
        change (T2 (ncol boxes)
                   (map (row boxes)
                        (firstn (Z.to_nat
                                   (default (-1)%Z (max_num (cfg_kwargs c))))
                                keep1)))
          with (sub2 boxes
                     (firstn (Z.to_nat
                                (default (-1)%Z (max_num (cfg_kwargs c))))
                             keep1)) in Ho.
        apply cat_col_sub2_inv in Ho.
        split; [now apply Forall_firstn|]. eauto.
      * apply bind_ok_inv in H. destruct H as (o & Ho & H).
        inversion H; subst o keep1. clear H.
        apply cat_col_sub2_inv in Ho. split; [exact HF|]. eauto.
  - unfold sort_desc in H.
    apply bind_ok_inv in H. destruct H as (b & Hb & H).
    apply bind_ok_inv in H. destruct H as (o & Ho & H).
    inversion H; subst o keep. clear H.
    apply index2_inv in Hb. destruct Hb as [HF ->].
    apply cat_col_sub2_inv in Ho. split; [exact HF|]. eauto.
Qed.

(** Class agnostic and below the split threshold, [batched_nms] with the
    [nms] op is [nms] on all boxes with the keyword arguments of the
    configuration: the same array, the same indices, the same error. *)
Theorem batched_nms_agnostic_is_nms (boxes : tensor2) (scores : list Q)
    (idxs : list Z) (c : nms_cfg) (class_agnostic : bool) :
  agnostic c class_agnostic = true -> type_of c = type_nms ->
  (Z.of_nat (size0 boxes) < split_thr_of c)%Z ->
  batched_nms exp_neg boxes scores idxs (Some c) class_agnostic =
  call_nms boxes scores (cfg_kwargs c).
Proof.
  intros Hag Hty Hsplit. unfold batched_nms.
  change (default class_agnostic (cfg_class_agnostic c))
    with (agnostic c class_agnostic).
  change (default 10000%Z (cfg_split_thr c)) with (split_thr_of c).
  change (default type_nms (cfg_type c)) with (type_of c).
  rewrite Hag, Hty. cbn [boxes_for_nms bind eval_type].
  apply Z.ltb_lt in Hsplit. rewrite Hsplit.
  destruct (call_nms boxes scores (cfg_kwargs c)) as [[dets keep]|e] eqn:E;
    [|reflexivity].
  cbn [bind]. apply call_nms_inv in E. destruct E as (thr & _ & E).
  apply nms_inv in E. destruct E as (_ & Hn & _ & Hk & ->).
  rewrite index2_ok by (rewrite Hk, Hn; apply nms_keep_lt).
  cbn [bind]. rewrite last_col_dets_of, cat_col_sub. reflexivity.
Qed.

(** *** Above the split threshold *)

(** With at least [split_thr] boxes and the [nms] op, [batched_nms] keeps
    what plain [nms] keeps class by class on the boxes the op is given,
    those of [boxes_for_nms]: the returned indices are the first [max_num]
    of a list without repeats, in descending order of the scores, that
    holds an index exactly when plain [nms] on the detections of its
    class, with their rows of [boxes_for_nms], keeps it. *)
Theorem split_is_per_class_nms (boxes : tensor2) (scores : list Q)
    (idxs : list Z) (c : nms_cfg) (class_agnostic : bool) (thr : Q)
    (bfn out : tensor2) (keep : list nat) :
  type_of c = type_nms ->
  iou_threshold (cfg_kwargs c) = Some thr ->
  boxes_for_nms boxes idxs (agnostic c class_agnostic) = Ok bfn ->
  (split_thr_of c <= Z.of_nat (size0 boxes))%Z ->
  batched_nms exp_neg boxes scores idxs (Some c) class_agnostic =
  Ok (out, keep) ->
  exists all,
    keep = cap (default (-1)%Z (max_num (cfg_kwargs c))) all /\
    NoDup all /\
    StronglySorted (desc (get scores)) all /\
    forall i,
      In i all <->
      In i (class_nms bfn scores idxs thr
                      (default 0%Z (offset (cfg_kwargs c)))
                      (default 0 (score_threshold (cfg_kwargs c)))
                      (class_of idxs i)).
Proof.
  intros Hty Hthr Hb Hsplit H.
  destruct (split_merged exp_neg boxes scores idxs c class_agnostic bfn out
              keep Hty Hb Hsplit H)
    as (parts & merged & Hparts & Hnd & Hcov & Hpairs & Hsorted & Hkeep).
  destruct (parts_of_nms bfn scores idxs (pop_max_num (cfg_kwargs c)) thr
              parts Hparts Hthr eq_refl) as [Hin Hscore].
  exists (map fst merged). split; [|split; [|split]].
  - now rewrite Hkeep, cap_map.
  - exact Hnd.
  - now apply (merged_sorted scores parts).
  - intros i. rewrite Hcov. apply Hin.
Qed.

(** At or above the split threshold [class_agnostic] is not honoured: with
    the [nms] op and [class_agnostic] true the loop still takes the boxes
    class by class, so that [batched_nms] keeps an index exactly when plain
    [nms] keeps it among the detections of its own class, on the original
    boxes, whatever boxes of other classes overlap it. *)
Theorem class_agnostic_ignored_above_split (boxes : tensor2)
    (scores : list Q) (idxs : list Z) (c : nms_cfg) (class_agnostic : bool)
    (thr : Q) (out : tensor2) (keep : list nat) :
  type_of c = type_nms -> agnostic c class_agnostic = true ->
  iou_threshold (cfg_kwargs c) = Some thr ->
  (split_thr_of c <= Z.of_nat (size0 boxes))%Z ->
  batched_nms exp_neg boxes scores idxs (Some c) class_agnostic =
  Ok (out, keep) ->
  exists all,
    keep = cap (default (-1)%Z (max_num (cfg_kwargs c))) all /\
    NoDup all /\
    StronglySorted (desc (get scores)) all /\
    forall i,
      In i all <->
      In i (class_nms boxes scores idxs thr
                      (default 0%Z (offset (cfg_kwargs c)))
                      (default 0 (score_threshold (cfg_kwargs c)))
                      (class_of idxs i)).
Proof.
  intros Hty Hag Hthr Hsplit H.
  assert (Hb : boxes_for_nms boxes idxs (agnostic c class_agnostic) =
               Ok boxes) by now rewrite Hag.
  destruct (split_merged exp_neg boxes scores idxs c class_agnostic boxes
              out keep Hty Hb Hsplit H)
    as (parts & merged & Hparts & Hnd & Hcov & Hpairs & Hsorted & Hkeep).
  destruct (parts_of_nms boxes scores idxs (pop_max_num (cfg_kwargs c)) thr
              parts Hparts Hthr eq_refl) as [Hin Hscore].
  exists (map fst merged). split; [|split; [|split]].
  - now rewrite Hkeep, cap_map.
  - exact Hnd.
  - now apply (merged_sorted scores parts).
  - intros i. rewrite Hcov. apply Hin.
Qed.

(** *** Below the split threshold *)

(** One pass over [boxes_for_nms] separates the classes as far as the
    shift does: when no box of [boxes_for_nms] overlaps a box of another
    class by more than [iou_threshold], then below the split threshold,
    with the [nms] op, the indices [batched_nms] returns are the first
    [max_num] of a list whose indices of any class are, in the same order,
    what plain [nms] keeps of the detections of that class alone, with
    their rows of [boxes_for_nms]. *)
Theorem single_pass_is_per_class_nms (boxes : tensor2) (scores : list Q)
    (idxs : list Z) (c : nms_cfg) (class_agnostic : bool) (thr : Q)
    (bfn out : tensor2) (keep : list nat) :
  type_of c = type_nms ->
  iou_threshold (cfg_kwargs c) = Some thr ->
  boxes_for_nms boxes idxs (agnostic c class_agnostic) = Ok bfn ->
  length idxs = size0 boxes ->
  classes_apart bfn idxs thr ->
  (Z.of_nat (size0 boxes) < split_thr_of c)%Z ->
  batched_nms exp_neg boxes scores idxs (Some c) class_agnostic =
  Ok (out, keep) ->
  exists all,
    keep = cap (default (-1)%Z (max_num (cfg_kwargs c))) all /\
    forall id,
      filter (fun i => Z.eqb id (class_of idxs i)) all =
      class_nms bfn scores idxs thr
                (default 0%Z (offset (cfg_kwargs c)))
                (default 0 (score_threshold (cfg_kwargs c))) id.
Proof.
  intros Hty Hthr Hb Hidx Hapart Hsplit H. unfold batched_nms in H.
  change (default class_agnostic (cfg_class_agnostic c))
    with (agnostic c class_agnostic) in H.
  change (default 10000%Z (cfg_split_thr c)) with (split_thr_of c) in H.
  change (default type_nms (cfg_type c)) with (type_of c) in H.
  rewrite Hb in H. cbn [bind] in H.
  pose proof (boxes_for_nms_size0 _ _ _ _ Hb) as Hsize.
  rewrite Hty in H. cbn [eval_type] in H.
  apply Z.ltb_lt in Hsplit. rewrite Hsize, Hsplit in H.
  apply bind_ok_inv in H. destruct H as ([dets keep'] & Hop & H).
  apply bind_ok_inv in H. destruct H as (b & _ & H).
  apply bind_ok_inv in H. destruct H as (o & _ & H).
  inversion H; subst o keep'. clear H.
  apply call_nms_inv in Hop. destruct Hop as (thr' & Hthr' & Hnms).
  assert (thr' = thr) by congruence. subst thr'.
  apply nms_inv in Hnms. destruct Hnms as (Hc & Hn & Hoff & Hkeep & _).
  rewrite nms_keep_cap in Hkeep.
  exists (nms_keep bfn scores thr
                   (default 0 (score_threshold (cfg_kwargs c))) (-1)).
  split; [exact Hkeep|]. intros id.
  rewrite class_nms_keep_on by assumption.
  apply apart_class; [congruence | congruence | exact Hapart].
Qed.

(** [soft_nms] takes no [max_num] and no [score_threshold], and below the
    split threshold [batched_nms] hands it every entry of the
    configuration: with the [soft_nms] op and one of the two entries the
    call raises a [TypeError] once [boxes_for_nms] is computed.  (At or
    above the threshold [max_num] is popped first.) *)
Theorem soft_nms_max_num_below_split (boxes : tensor2) (scores : list Q)
    (idxs : list Z) (c : nms_cfg) (class_agnostic : bool) (bfn : tensor2) :
  type_of c = type_soft_nms ->
  is_some (score_threshold (cfg_kwargs c)) ||
  is_some (max_num (cfg_kwargs c)) = true ->
  boxes_for_nms boxes idxs (agnostic c class_agnostic) = Ok bfn ->
  (Z.of_nat (size0 boxes) < split_thr_of c)%Z ->
  batched_nms exp_neg boxes scores idxs (Some c) class_agnostic =
  Raise TypeError.
Proof.
  intros Hty Hkw Hb Hsplit. unfold batched_nms.
  change (default class_agnostic (cfg_class_agnostic c))
    with (agnostic c class_agnostic).
  change (default 10000%Z (cfg_split_thr c)) with (split_thr_of c).
  change (default type_nms (cfg_type c)) with (type_of c).
  rewrite Hb. cbn [bind].
  rewrite (boxes_for_nms_size0 _ _ _ _ Hb).
  apply Z.ltb_lt in Hsplit. rewrite Hsplit, Hty. cbn [eval_type].
  unfold call_soft_nms. rewrite Hkw. reflexivity.
Qed.

(** [nms_rotated] is a stub that raises: with it as the op, [batched_nms]
    on a batch that is not empty never returns.  Whichever side of the
    split threshold the batch is on, the first call of the op ends it with
    a [NotImplementedError]. *)
Theorem batched_nms_rotated_raises (boxes : tensor2) (scores : list Q)
    (idxs : list Z) (c : nms_cfg) (class_agnostic : bool) (bfn : tensor2) :
  type_of c = type_nms_rotated ->
  boxes_for_nms boxes idxs (agnostic c class_agnostic) = Ok bfn ->
  length idxs = size0 boxes -> length scores = size0 boxes ->
  size0 boxes <> O ->
  batched_nms exp_neg boxes scores idxs (Some c) class_agnostic =
  Raise NotImplementedError.
Proof.
  intros Hty Hb Hidx Hsc Hn. unfold batched_nms.
  change (default class_agnostic (cfg_class_agnostic c))
    with (agnostic c class_agnostic).
  change (default 10000%Z (cfg_split_thr c)) with (split_thr_of c).
  change (default type_nms (cfg_type c)) with (type_of c).
  rewrite Hb. cbn [bind].
  pose proof (boxes_for_nms_size0 _ _ _ _ Hb) as Hsize.
  rewrite Hty. cbn [eval_type].
  destruct (Z.of_nat (size0 bfn) <? split_thr_of c)%Z; [reflexivity|].
  rewrite for_each_record.
  destruct (unique idxs) as [|id ids] eqn:Eu.
  - exfalso. destruct idxs as [|z idxs]; [simpl in Hidx; lia|].
    assert (Hin : In z (unique (z :: idxs)))
      by (apply unique_In; now left).
    rewrite Eu in Hin. destruct Hin.
  - cbn [for_all]. unfold per_class at 1.
    assert (HM : Forall (fun i => (i < length idxs)%nat) (members idxs id)).
    { apply Forall_forall. intros i Hi. now apply members_In in Hi. }
    rewrite index2_ok by (rewrite Hsize, <- Hidx; exact HM).
    rewrite index_scores_ok by (rewrite Hsc, <- Hidx; exact HM).
    reflexivity.
Qed.

(** *** [nms_match] and [nms] *)

(** The groups of [nms_match] are led by the detections [nms] keeps: on a
    non-empty (N, 5) array, the first elements of the groups, in order,
    are the indices that [nms] returns for the boxes and the scores of the
    array with the same [iou_threshold]. *)
Theorem nms_match_heads_are_nms_keep (dets : tensor2) (thr : Q) :
  size0 dets <> O -> ncol dets = 5%nat ->
  exists matched kept,
    nms_match dets thr = Ok matched /\
    nms (cols 0 4 dets) (last_col dets) thr 0 0 (-1) =
    Ok (kept, map (hd O) matched).
Proof.
  intros Hn Hc. eexists. eexists. split; [now apply nms_match_groups|].
  rewrite nms_ok.
  - rewrite groups_heads, nms_keep_plain. f_equal. f_equal.
    apply greedy_ext. cbn [app]. intros a b Ha Hb.
    apply sort_desc_by_In, in_seq in Ha, Hb. rewrite last_col_length in Ha, Hb.
    apply overlaps_cols_4; lia.
  - unfold cols. cbn [ncol]. rewrite Hc. reflexivity.
  - now rewrite size0_cols, last_col_length.
  - now left.
Qed.

(** *** Either side of the split threshold *)

(** When no box of [boxes_for_nms] overlaps a box of another class by more
    than [iou_threshold], [split_thr] does not change which detections the
    [nms] op leaves: if [batched_nms] returns below the threshold, in one
    pass, it returns at or above it too, class by class, and before the
    cut at [max_num] the two results hold the same indices, each in
    descending order of the scores.  (Equal scores may come in another
    order, and then the cut may fall differently.) *)
Theorem split_thr_keeps_the_same_detections (boxes : tensor2)
    (scores : list Q) (idxs : list Z) (c : nms_cfg) (class_agnostic : bool)
    (thr : Q) (split split' : Z) (bfn out : tensor2) (keep : list nat) :
  type_of c = type_nms ->
  iou_threshold (cfg_kwargs c) = Some thr ->
  boxes_for_nms boxes idxs (agnostic c class_agnostic) = Ok bfn ->
  length idxs = size0 boxes ->
  classes_apart bfn idxs thr ->
  (Z.of_nat (size0 boxes) < split)%Z ->
  (split' <= Z.of_nat (size0 boxes))%Z ->
  batched_nms exp_neg boxes scores idxs (Some (with_split_thr c split))
              class_agnostic = Ok (out, keep) ->
  exists out' keep' all all',
    batched_nms exp_neg boxes scores idxs (Some (with_split_thr c split'))
                class_agnostic = Ok (out', keep') /\
    keep = cap (default (-1)%Z (max_num (cfg_kwargs c))) all /\
    keep' = cap (default (-1)%Z (max_num (cfg_kwargs c))) all' /\
    Permutation all all' /\
    StronglySorted (desc (get scores)) all /\
    StronglySorted (desc (get scores)) all'.
Proof.
  intros Hty Hthr Hb Hidx Hapart Hsplit Hsplit' H.
  unfold batched_nms in H.
  change (default class_agnostic
            (cfg_class_agnostic (with_split_thr c split)))
    with (agnostic c class_agnostic) in H.
  change (default type_nms (cfg_type (with_split_thr c split)))
    with (type_of c) in H.
  cbn [with_split_thr cfg_split_thr cfg_kwargs default] in H.
  rewrite Hb in H. cbn [bind] in H.
  pose proof (boxes_for_nms_size0 _ _ _ _ Hb) as Hsize.
  rewrite Hty in H. cbn [eval_type] in H.
  apply Z.ltb_lt in Hsplit. rewrite Hsize, Hsplit in H.
  apply bind_ok_inv in H. destruct H as ([dets keep0] & Hop & H).
  apply bind_ok_inv in H. destruct H as (b & _ & H).
  apply bind_ok_inv in H. destruct H as (o & _ & H).
  inversion H; subst o keep0. clear H.
  pose proof (call_nms_flags _ _ _ _ Hop) as Hflags.
  apply call_nms_inv in Hop. destruct Hop as (thr' & Hthr' & Hnms).
  assert (thr' = thr) by congruence. subst thr'.
  apply nms_inv in Hnms. destruct Hnms as (Hc & Hn & Hoff & Hkeep & _).
  set (kw := cfg_kwargs c) in *.
  set (mn := default (-1)%Z (max_num kw)) in *.
  set (st := default 0 (score_threshold kw)) in *.
  rewrite nms_keep_cap in Hkeep.
  (* every class returns *)
  destruct (for_all_ok (per_class call_nms bfn scores idxs (pop_max_num kw))
                       (unique idxs)) as (parts & Hparts).
  { intros id _.
    apply (per_class_nms_ok bfn scores idxs (pop_max_num kw) thr id); auto.
    congruence. }
  assert (Hb' : boxes_for_nms boxes idxs
                  (agnostic (with_split_thr c split') class_agnostic) =
                Ok bfn) by exact Hb.
  assert (Hparts' :
            for_all (per_class (eval_type exp_neg
                                  (type_of (with_split_thr c split')))
                               bfn scores idxs
                               (pop_max_num
                                  (cfg_kwargs (with_split_thr c split'))))
                    (unique idxs) = Ok parts).
  { change (type_of (with_split_thr c split')) with (type_of c).
    rewrite Hty. exact Hparts. }
  destruct (batched_nms_split_spec exp_neg boxes scores idxs
              (with_split_thr c split') class_agnostic bfn parts Hb'
              Hsplit' Hparts')
    as (merged & Hnd & Hcov & Hpairs & Hsorted & E).
  cbv zeta in E. cbn [with_split_thr cfg_kwargs] in E. fold kw mn in E.
  apply for_all_inv in Hparts.
  destruct (parts_of_nms bfn scores idxs (pop_max_num kw) thr parts Hparts
              Hthr eq_refl) as [Hin Hscore].
  change (offset (pop_max_num kw)) with (offset kw) in Hin.
  change (default 0 (score_threshold (pop_max_num kw))) with st in Hin.
  exists (dets_with boxes (cap mn merged)), (map fst (cap mn merged)),
    (nms_keep bfn scores thr st (-1)), (map fst merged).
  split; [exact E|]. split; [exact Hkeep|]. split; [apply cap_map|].
  split; [|split].
  - apply NoDup_Permutation.
    + apply nms_keep_on_NoDup, seq_NoDup.
    + exact Hnd.
    + intros i. rewrite Hcov, Hin.
      rewrite class_nms_keep_on by assumption.
      rewrite <- (apart_class bfn idxs scores thr st (class_of idxs i))
        by (auto; congruence).
      rewrite filter_In, Z.eqb_refl. tauto.
  - apply nms_keep_on_sorted.
  - now apply (merged_sorted scores parts).
Qed.

(** *** Boxes with five columns *)

(** [batched_nms] prepares boxes with five columns, rotated boxes, by
    moving their centres, but no op of the module takes them: [nms] and
    [soft_nms] assert four columns and [nms_rotated] is a stub.  With a
    named op and (N, 5) boxes the call never returns, class agnostic or
    not, on either side of the split threshold: it ends in an exception. *)
Theorem five_columns_need_a_callable (boxes : tensor2) (scores : list Q)
    (idxs : list Z) (c : nms_cfg) (class_agnostic : bool) :
  ncol boxes = 5%nat -> idxs <> [] -> named (type_of c) ->
  exists e,
    batched_nms exp_neg boxes scores idxs (Some c) class_agnostic = Raise e.
Proof.
  intros Hc Hidx Hnamed.
  destruct (batched_nms exp_neg boxes scores idxs (Some c) class_agnostic)
    as [r|e] eqn:H; [exfalso | now exists e].
  unfold batched_nms in H.
  change (default class_agnostic (cfg_class_agnostic c))
    with (agnostic c class_agnostic) in H.
  change (default 10000%Z (cfg_split_thr c)) with (split_thr_of c) in H.
  change (default type_nms (cfg_type c)) with (type_of c) in H.
  apply bind_ok_inv in H. destruct H as (bfn & Hb & H).
  pose proof (boxes_for_nms_ncol _ _ _ _ Hb) as Hcol.
  destruct (Z.of_nat (size0 bfn) <? split_thr_of c)%Z.
  - apply bind_ok_inv in H. destruct H as (r' & Hop & _).
    apply (named_op_columns _ _ _ _ _ _ Hnamed) in Hop. congruence.
  - apply bind_ok_inv in H. destruct H as (st & Hloop & _).
    rewrite for_each_record in Hloop.
    apply bind_ok_inv in Hloop. destruct Hloop as (parts & Hparts & _).
    apply for_all_inv in Hparts.
    remember (unique idxs) as ids0 eqn:Eu.
    destruct Hparts as [|id part ids parts' Hpart _].
    + destruct idxs as [|z idxs']; [now apply Hidx|].
      assert (Hin : In z (unique (z :: idxs')))
        by (apply unique_In; now left).
      rewrite <- Eu in Hin. destruct Hin.
    + apply per_class_inv in Hpart. cbv zeta in Hpart.
      destruct Hpart as (_ & _ & dets & keep & Hop & _).
      apply (named_op_columns _ _ _ _ _ _ Hnamed) in Hop.
      unfold sub2 in Hop. cbn [ncol] in Hop. congruence.
Qed.

End More.

(** *** The properties on the example of the docstring *)

Lemma nms_result_invariants_doc :
  exists dets inds,
    nms doc_boxes doc_scores (6 # 10) 0 (45 # 100) (-1) = Ok (dets, inds) /\
    NoDup inds /\
    Forall (fun i => (i < size0 doc_boxes)%nat) inds /\
    StronglySorted (desc (get doc_scores)) inds /\
    (0 < 45 # 100 -> Forall (fun i => 45 # 100 < get doc_scores i) inds) /\
    dets = dets_of doc_boxes doc_scores inds.
Proof.
  exists (dets_of doc_boxes doc_scores [0; 3; 4]%nat), [0; 3; 4]%nat.
  assert (H : nms doc_boxes doc_scores (6 # 10) 0 (45 # 100) (-1) =
              Ok (dets_of doc_boxes doc_scores [0; 3; 4]%nat, [0; 3; 4]%nat))
    by (vm_compute; reflexivity).
  split; [exact H|].
  exact (nms_result_invariants doc_boxes doc_scores (6 # 10) 0 (45 # 100)
           (-1) _ _ H).
Defined.

Lemma batched_nms_returns_original_rows_doc :
  exists out,
    batched_nms exp_neg_pade doc_boxes doc_scores doc_idxs
                (Some (cfg_iou (6 # 10))) false =
    Ok (out, [0; 1; 3; 4; 6]%nat) /\
    Forall (fun i => (i < size0 doc_boxes)%nat) [0; 1; 3; 4; 6]%nat /\
    exists kept_scores,
      length kept_scores = length [0; 1; 3; 4; 6]%nat /\
      out = T2 (S (ncol doc_boxes))
               (append_col (map (row doc_boxes) [0; 1; 3; 4; 6]%nat)
                           kept_scores).
Proof.
  exists (dets_of doc_boxes doc_scores [0; 1; 3; 4; 6]%nat).
  assert (H : batched_nms exp_neg_pade doc_boxes doc_scores doc_idxs
                          (Some (cfg_iou (6 # 10))) false =
              Ok (dets_of doc_boxes doc_scores [0; 1; 3; 4; 6]%nat,
                  [0; 1; 3; 4; 6]%nat)) by (vm_compute; reflexivity).
  split; [exact H|].
  exact (batched_nms_returns_original_rows exp_neg_pade doc_boxes doc_scores
           doc_idxs (Some (cfg_iou (6 # 10))) false _ _ H).
Defined.

Lemma batched_nms_agnostic_is_nms_doc :
  agnostic (cfg_iou (6 # 10)) true = true /\
  (Z.of_nat (size0 doc_boxes) < split_thr_of (cfg_iou (6 # 10)))%Z /\
  batched_nms exp_neg_pade doc_boxes doc_scores doc_idxs
              (Some (cfg_iou (6 # 10))) true =
  call_nms doc_boxes doc_scores (cfg_kwargs (cfg_iou (6 # 10))).
Proof.
  split; [reflexivity|]. split; [reflexivity|].
  apply (batched_nms_agnostic_is_nms exp_neg_pade doc_boxes doc_scores
           doc_idxs (cfg_iou (6 # 10)) true); reflexivity.
Defined.

Lemma soft_nms_max_num_below_split_doc :
  boxes_for_nms doc_boxes doc_idxs
                (agnostic (cfg_soft_max (6 # 10) 2) true) = Ok doc_boxes /\
  (Z.of_nat (size0 doc_boxes) < split_thr_of (cfg_soft_max (6 # 10) 2))%Z /\
  batched_nms exp_neg_pade doc_boxes doc_scores doc_idxs
              (Some (cfg_soft_max (6 # 10) 2)) true =
  Raise TypeError.
Proof.
  split; [reflexivity|]. split; [reflexivity|].
  apply (soft_nms_max_num_below_split exp_neg_pade doc_boxes doc_scores
           doc_idxs (cfg_soft_max (6 # 10) 2) true doc_boxes); reflexivity.
Defined.

Lemma batched_nms_rotated_raises_doc :
  boxes_for_nms doc_boxes doc_idxs
                (agnostic (cfg_rotated (6 # 10)) true) = Ok doc_boxes /\
  size0 doc_boxes <> O /\
  batched_nms exp_neg_pade doc_boxes doc_scores doc_idxs
              (Some (cfg_rotated (6 # 10))) true =
  Raise NotImplementedError.
Proof.
  split; [reflexivity|]. split; [discriminate|].
  apply (batched_nms_rotated_raises exp_neg_pade doc_boxes doc_scores
           doc_idxs (cfg_rotated (6 # 10)) true doc_boxes);
    try reflexivity; discriminate.
Defined.

Lemma nms_match_heads_are_nms_keep_doc :
  size0 doc_dets <> O /\ ncol doc_dets = 5%nat /\
  exists matched kept,
    nms_match doc_dets (6 # 10) = Ok matched /\
    nms (cols 0 4 doc_dets) (last_col doc_dets) (6 # 10) 0 0 (-1) =
    Ok (kept, map (hd O) matched).
Proof.
  split; [discriminate|]. split; [reflexivity|].
  apply (nms_match_heads_are_nms_keep doc_dets (6 # 10));
    [discriminate | reflexivity].
Defined.

Lemma five_columns_need_a_callable_doc :
  ncol doc_dets = 5%nat /\ doc_idxs <> [] /\
  named (type_of (cfg_iou (6 # 10))) /\
  exists e,
    batched_nms exp_neg_pade doc_dets doc_scores doc_idxs
                (Some (cfg_iou (6 # 10))) false = Raise e.
Proof.
  split; [reflexivity|]. split; [discriminate|]. split; [now left|].
  apply (five_columns_need_a_callable exp_neg_pade doc_dets doc_scores
           doc_idxs (cfg_iou (6 # 10)) false);
    [reflexivity | discriminate | now left].
Defined.

Lemma doc_shifted_ok (c : nms_cfg) :
  cfg_class_agnostic c = None ->
  boxes_for_nms doc_boxes doc_idxs (agnostic c false) = Ok doc_shifted.
Proof.
  intros H. unfold agnostic. rewrite H. vm_compute. reflexivity.
Qed.

Lemma doc_shifted_apart : classes_apart doc_shifted doc_idxs (6 # 10).
Proof.
  apply classes_apartb_sound. vm_compute. reflexivity.
Qed.

Lemma split_is_per_class_nms_doc :
  exists out all,
    boxes_for_nms doc_boxes doc_idxs
                  (agnostic (cfg_split (6 # 10) 1) false) = Ok doc_shifted /\
    batched_nms exp_neg_pade doc_boxes doc_scores doc_idxs
                (Some (cfg_split (6 # 10) 1)) false =
    Ok (out, [0; 1; 3; 4; 6]%nat) /\
    [0; 1; 3; 4; 6]%nat =
    cap (default (-1)%Z (max_num (cfg_kwargs (cfg_split (6 # 10) 1)))) all /\
    NoDup all /\
    StronglySorted (desc (get doc_scores)) all /\
    forall i,
      In i all <->
      In i (class_nms doc_shifted doc_scores doc_idxs (6 # 10)
              (default 0%Z (offset (cfg_kwargs (cfg_split (6 # 10) 1))))
              (default 0 (score_threshold
                            (cfg_kwargs (cfg_split (6 # 10) 1))))
              (class_of doc_idxs i)).
Proof.
  exists (dets_of doc_boxes doc_scores [0; 1; 3; 4; 6]%nat).
  assert (Hb := doc_shifted_ok (cfg_split (6 # 10) 1) eq_refl).
  assert (H : batched_nms exp_neg_pade doc_boxes doc_scores doc_idxs
                          (Some (cfg_split (6 # 10) 1)) false =
              Ok (dets_of doc_boxes doc_scores [0; 1; 3; 4; 6]%nat,
                  [0; 1; 3; 4; 6]%nat)) by (vm_compute; reflexivity).
  destruct (split_is_per_class_nms exp_neg_pade doc_boxes doc_scores doc_idxs
              (cfg_split (6 # 10) 1) false (6 # 10) doc_shifted
              (dets_of doc_boxes doc_scores [0; 1; 3; 4; 6]%nat)
              [0; 1; 3; 4; 6]%nat eq_refl eq_refl Hb) as (all & Hall);
    [discriminate | exact H |].
  exists all. split; [exact Hb|]. split; [exact H | exact Hall].
Defined.

Lemma class_agnostic_ignored_above_split_twin :
  exists all,
    agnostic (cfg_split (1 # 2) 1) true = true /\
    batched_nms exp_neg_pade twin_boxes twin_scores twin_idxs
                (Some (cfg_split (1 # 2) 1)) true =
    Ok (dets_of twin_boxes twin_scores [0; 1]%nat, [0; 1]%nat) /\
    [0; 1]%nat =
    cap (default (-1)%Z (max_num (cfg_kwargs (cfg_split (1 # 2) 1)))) all /\
    NoDup all /\
    StronglySorted (desc (get twin_scores)) all /\
    forall i,
      In i all <->
      In i (class_nms twin_boxes twin_scores twin_idxs (1 # 2)
              (default 0%Z (offset (cfg_kwargs (cfg_split (1 # 2) 1))))
              (default 0 (score_threshold
                            (cfg_kwargs (cfg_split (1 # 2) 1))))
              (class_of twin_idxs i)).
Proof.
  assert (H : batched_nms exp_neg_pade twin_boxes twin_scores twin_idxs
                          (Some (cfg_split (1 # 2) 1)) true =
              Ok (dets_of twin_boxes twin_scores [0; 1]%nat, [0; 1]%nat))
    by (vm_compute; reflexivity).
  destruct (class_agnostic_ignored_above_split exp_neg_pade twin_boxes
              twin_scores twin_idxs (cfg_split (1 # 2) 1) true (1 # 2)
              (dets_of twin_boxes twin_scores [0; 1]%nat) [0; 1]%nat
              eq_refl eq_refl eq_refl) as (all & Hall);
    [discriminate | exact H |].
  exists all. split; [reflexivity|]. split; [exact H | exact Hall].
Defined.

Lemma single_pass_is_per_class_nms_doc :
  exists out all,
    boxes_for_nms doc_boxes doc_idxs (agnostic (cfg_iou (6 # 10)) false) =
    Ok doc_shifted /\
    classes_apart doc_shifted doc_idxs (6 # 10) /\
    batched_nms exp_neg_pade doc_boxes doc_scores doc_idxs
                (Some (cfg_iou (6 # 10))) false =
    Ok (out, [0; 1; 3; 4; 6]%nat) /\
    [0; 1; 3; 4; 6]%nat =
    cap (default (-1)%Z (max_num (cfg_kwargs (cfg_iou (6 # 10))))) all /\
    forall id,
      filter (fun i => Z.eqb id (class_of doc_idxs i)) all =
      class_nms doc_shifted doc_scores doc_idxs (6 # 10)
                (default 0%Z (offset (cfg_kwargs (cfg_iou (6 # 10)))))
                (default 0 (score_threshold (cfg_kwargs (cfg_iou (6 # 10)))))
                id.
Proof.
  exists (dets_of doc_boxes doc_scores [0; 1; 3; 4; 6]%nat).
  assert (Hb := doc_shifted_ok (cfg_iou (6 # 10)) eq_refl).
  assert (H : batched_nms exp_neg_pade doc_boxes doc_scores doc_idxs
                          (Some (cfg_iou (6 # 10))) false =
              Ok (dets_of doc_boxes doc_scores [0; 1; 3; 4; 6]%nat,
                  [0; 1; 3; 4; 6]%nat)) by (vm_compute; reflexivity).
  destruct (single_pass_is_per_class_nms exp_neg_pade doc_boxes doc_scores
              doc_idxs (cfg_iou (6 # 10)) false (6 # 10) doc_shifted
              (dets_of doc_boxes doc_scores [0; 1; 3; 4; 6]%nat)
              [0; 1; 3; 4; 6]%nat eq_refl eq_refl Hb eq_refl
              doc_shifted_apart)
    as (all & Hall); [reflexivity | exact H |].
  exists all. split; [exact Hb|]. split; [exact doc_shifted_apart|].
  split; [exact H | exact Hall].
Defined.

Lemma split_thr_keeps_the_same_detections_doc :
  boxes_for_nms doc_boxes doc_idxs (agnostic (cfg_iou (6 # 10)) false) =
  Ok doc_shifted /\
  classes_apart doc_shifted doc_idxs (6 # 10) /\
  batched_nms exp_neg_pade doc_boxes doc_scores doc_idxs
              (Some (with_split_thr (cfg_iou (6 # 10)) 10000)) false =
  Ok (dets_of doc_boxes doc_scores [0; 1; 3; 4; 6]%nat,
      [0; 1; 3; 4; 6]%nat) /\
  exists out' keep' all all',
    batched_nms exp_neg_pade doc_boxes doc_scores doc_idxs
                (Some (with_split_thr (cfg_iou (6 # 10)) 1)) false =
    Ok (out', keep') /\
    [0; 1; 3; 4; 6]%nat =
    cap (default (-1)%Z (max_num (cfg_kwargs (cfg_iou (6 # 10))))) all /\
    keep' =
    cap (default (-1)%Z (max_num (cfg_kwargs (cfg_iou (6 # 10))))) all' /\
    Permutation all all' /\
    StronglySorted (desc (get doc_scores)) all /\
    StronglySorted (desc (get doc_scores)) all'.
Proof.
  assert (Hb := doc_shifted_ok (cfg_iou (6 # 10)) eq_refl).
  assert (H : batched_nms exp_neg_pade doc_boxes doc_scores doc_idxs
                (Some (with_split_thr (cfg_iou (6 # 10)) 10000)) false =
              Ok (dets_of doc_boxes doc_scores [0; 1; 3; 4; 6]%nat,
                  [0; 1; 3; 4; 6]%nat)) by (vm_compute; reflexivity).
  split; [exact Hb|]. split; [exact doc_shifted_apart|]. split; [exact H|].
  apply (split_thr_keeps_the_same_detections exp_neg_pade doc_boxes
           doc_scores doc_idxs (cfg_iou (6 # 10)) false (6 # 10) 10000 1
           doc_shifted (dets_of doc_boxes doc_scores [0; 1; 3; 4; 6]%nat)
           [0; 1; 3; 4; 6]%nat eq_refl eq_refl Hb eq_refl
           doc_shifted_apart);
    [reflexivity | discriminate | exact H].
Defined.

End MoreProperties.
